(** * Call-session orchestrator of the telephony voice agent

    A shallow embedding of [src/server/websocket.ts] (the per-connection
    closure set up by [setupWebSocketServer]), of the [AIService] class,
    of [ToolService] and of [ElevenLabsService.validateText], together
    with the properties of the natural-language specification and
    further properties of the code.

    Conventions.
    - JavaScript strings are [string]; buffers are [list byte].
    - [Date.now()] is an integer number of milliseconds ([Z]) supplied
      with every event of the event loop.
    - [x || d] and [if (x)] on an optional string follow JavaScript
      truthiness: [undefined], [null] and the empty string are falsy.
    - An [async] function is a task of the event loop that is resumed by
      the completion event of the promise it awaits. *)

From Stdlib Require Import ZArith NArith List String Ascii Lia Bool DecimalString.
From Stdlib Require DecimalZ.
From Stdlib.Strings Require Import Byte.
From stdpp Require Import gmap strings list.

Local Open Scope string_scope.
Local Open Scope nat_scope.
Local Open Scope list_scope.

(** ** JavaScript helpers *)

Module JS.

(** [if (s)] for [s : string | null | undefined]. *)
Definition truthy (o : option string) : option string :=
  match o with
  | Some EmptyString => None
  | Some s => Some s
  | None => None
  end.

(** [a || d] on strings. *)
Definition or_else (o : option string) (d : string) : string :=
  match truthy o with
  | Some s => s
  | None => d
  end.

(** White space removed by [String.prototype.trim] (the ASCII part). *)
Definition is_space (c : ascii) : bool :=
  let n := N_of_ascii c in
  (n =? 32)%N || ((9 <=? n)%N && (n <=? 13)%N).

Fixpoint trim_start (s : string) : string :=
  match s with
  | EmptyString => EmptyString
  | String c r => if is_space c then trim_start r else s
  end.

(** Drops the trailing white space: a character is kept when it is not
    a space or when something is kept after it. *)
Fixpoint trim_end (s : string) : string :=
  match s with
  | EmptyString => EmptyString
  | String c r =>
      match trim_end r with
      | EmptyString => if is_space c then EmptyString else String c EmptyString
      | r' => String c r'
      end
  end.

Definition trim (s : string) : string := trim_end (trim_start s).

(** [if (s.trim())]. *)
Definition nonblank (s : string) : bool :=
  match trim s with
  | EmptyString => false
  | _ => true
  end.

(** [`${n}`] for an integer. *)
Definition string_of_Z (z : Z) : string := NilZero.string_of_int (Z.to_int z).

(** [buf.slice(i, j)] for [0 <= i <= j]; the end is clamped. *)
Definition slice {A} (i j : nat) (l : list A) : list A :=
  firstn (j - i) (skipn i l).

(** [arr.slice(-n)]. *)
Definition slice_last {A} (n : nat) (l : list A) : list A :=
  skipn (length l - n) l.

End JS.

(** ** Base64, as [Buffer.prototype.toString('base64')] (RFC 4648, padded) *)

Module Base64.

Definition alphabet : list ascii :=
  list_ascii_of_string
    "ABCDEFGHIJKLMNOPQRSTUVWXYZabcdefghijklmnopqrstuvwxyz0123456789+/".

Definition pad : ascii := "="%char.

Definition enc6 (n : N) : ascii := nth (N.to_nat n) alphabet pad.

Fixpoint index_of (c : ascii) (l : list ascii) (i : N) : option N :=
  match l with
  | [] => None
  | x :: r => if Ascii.eqb c x then Some i else index_of c r (N.succ i)
  end.

Definition dec6 (c : ascii) : option N := index_of c alphabet 0%N.

(** The four sextets of a group of three octets. *)
Definition sext1 (a : N) : N := N.shiftr a 2.
Definition sext2 (a b : N) : N := N.lor (N.shiftl (N.land a 3) 4) (N.shiftr b 4).
Definition sext3 (b c : N) : N := N.lor (N.shiftl (N.land b 15) 2) (N.shiftr c 6).
Definition sext4 (c : N) : N := N.land c 63.

(** The three octets of a group of four sextets. *)
Definition oct1 (s1 s2 : N) : N := N.lor (N.shiftl s1 2) (N.shiftr s2 4).
Definition oct2 (s2 s3 : N) : N := N.lor (N.shiftl (N.land s2 15) 4) (N.shiftr s3 2).
Definition oct3 (s3 s4 : N) : N := N.lor (N.shiftl (N.land s3 3) 6) s4.

Fixpoint encode (bs : list byte) : string :=
  match bs with
  | [] => EmptyString
  | [a] =>
      let x := Byte.to_N a in
      String (enc6 (sext1 x)) (String (enc6 (sext2 x 0))
        (String pad (String pad EmptyString)))
  | [a; b] =>
      let x := Byte.to_N a in
      let y := Byte.to_N b in
      String (enc6 (sext1 x)) (String (enc6 (sext2 x y))
        (String (enc6 (sext3 y 0)) (String pad EmptyString)))
  | a :: b :: c :: rest =>
      let x := Byte.to_N a in
      let y := Byte.to_N b in
      let z := Byte.to_N c in
      String (enc6 (sext1 x)) (String (enc6 (sext2 x y))
        (String (enc6 (sext3 y z)) (String (enc6 (sext4 z)) (encode rest))))
  end.

Definition is_empty (s : string) : bool :=
  match s with EmptyString => true | _ => false end.

(** Strict decoding: groups of four characters, padding only in the last
    group. *)
Fixpoint decode (s : string) : option (list byte) :=
  match s with
  | EmptyString => Some []
  | String c1 (String c2 (String c3 (String c4 rest))) =>
      s1 ← dec6 c1;
      s2 ← dec6 c2;
      b1 ← Byte.of_N (oct1 s1 s2);
      if Ascii.eqb c3 pad then
        if Ascii.eqb c4 pad && is_empty rest then Some [b1] else None
      else
        s3 ← dec6 c3;
        b2 ← Byte.of_N (oct2 s2 s3);
        if Ascii.eqb c4 pad then
          if is_empty rest then Some [b1; b2] else None
        else
          s4 ← dec6 c4;
          b3 ← Byte.of_N (oct3 s3 s4);
          tl ← decode rest;
          Some (b1 :: b2 :: b3 :: tl)
  | _ => None
  end.

(** Decoding a sequence of payloads and concatenating the results. *)
Fixpoint decode_all (ps : list string) : option (list byte) :=
  match ps with
  | [] => Some []
  | p :: r =>
      x ← decode p;
      y ← decode_all r;
      Some (x ++ y)
  end.

End Base64.

(** ** Audio output pipeline: [sendAudioToTwilio] *)

Module Audio.

(** Outbound protocol frames; [JSON.stringify] of the two object
    literals built by [sendAudioToTwilio]. *)
Inductive OutFrame :=
| MediaFrame (streamSid payload : string)
| MarkFrame (streamSid name : string).

(** [connection.state] of the websocket library. *)
Inductive ConnState := StOpen | StPeerRequestedClose | StEnding | StClosed.

(** The connection handle.  [sendUTF] belongs to the websocket library;
    the source guards it with [try]/[catch], so a write may throw.
    [conn_fail_after = Some k] is a transport that accepts [k] more
    writes and throws on the next one; [None] never throws. *)
Record Connection := {
  conn_state : ConnState;
  conn_fail_after : option nat
}.

Definition is_open (c : Connection) : bool :=
  match conn_state c with StOpen => true | _ => false end.

(** [connection.sendUTF(...)]: [None] when the write throws. *)
Definition sendUTF (c : Connection) : option Connection :=
  match conn_fail_after c with
  | None => Some c
  | Some 0 => None
  | Some (S k) => Some {| conn_state := conn_state c; conn_fail_after := Some k |}
  end.

Definition set_conn_state (st : ConnState) (c : Connection) : Connection :=
  {| conn_state := st; conn_fail_after := conn_fail_after c |}.

Definition CHUNK_SIZE : nat := 4000.

(** What a call of [sendAudioToTwilio] did: the frames written, in
    order, whether it threw, and the connection afterwards. *)
Record SendResult := {
  emitted : list OutFrame;
  threw : bool;
  conn_after : Connection
}.

(** [for (let i = 0; i < audioBuffer.length; i += CHUNK_SIZE)].  The
    loop runs at most [length buf - i] times for a positive step, which
    is the fuel [sendAudioToTwilio] passes. *)
Fixpoint send_chunks (fuel : nat) (step i : nat) (sid : string)
    (buf : list byte) (c : Connection) (acc : list OutFrame) : SendResult :=
  match fuel with
  | 0 => {| emitted := acc; threw := false; conn_after := c |}
  | S fuel' =>
      if i <? length buf then
        let chunk := JS.slice i (i + step) buf in
        let base64Chunk := Base64.encode chunk in
        match sendUTF c with
        | None => {| emitted := acc; threw := true; conn_after := c |}
        | Some c' =>
            send_chunks fuel' step (i + step) sid buf c'
              (acc ++ [MediaFrame sid base64Chunk])
        end
      else {| emitted := acc; threw := false; conn_after := c |}
  end.

(** [`audio_${Date.now()}`]. *)
Definition fresh_mark (now : Z) : string := "audio_" +:+ JS.string_of_Z now.

Definition sendAudioToTwilio (c : Connection) (streamSid : option string)
    (now : Z) (audioBuffer : list byte) (markName : option string) : SendResult :=
  match JS.truthy streamSid with
  | None => {| emitted := []; threw := false; conn_after := c |}
  | Some sid =>
      if negb (is_open c) then
        {| emitted := []; threw := false; conn_after := c |}
      else
        let r := send_chunks (length audioBuffer) CHUNK_SIZE 0 sid audioBuffer c [] in
        if threw r then r
        else
          let markMessage := MarkFrame sid (JS.or_else markName (fresh_mark now)) in
          match sendUTF (conn_after r) with
          | None => {| emitted := emitted r; threw := true; conn_after := conn_after r |}
          | Some c' =>
              {| emitted := emitted r ++ [markMessage]; threw := false; conn_after := c' |}
          end
  end.

(** Payloads of the media frames of a frame list. *)
Definition media_payloads (fs : list OutFrame) : list string :=
  omap (fun f => match f with MediaFrame _ p => Some p | MarkFrame _ _ => None end) fs.

Definition is_media (f : OutFrame) : bool :=
  match f with MediaFrame _ _ => true | MarkFrame _ _ => false end.


(** [Math.ceil(n / d)] on naturals. *)
Definition ceil_div (n d : nat) : nat := (n + (d - 1)) / d.

End Audio.

(** ** The AI-response collaborator: class [AIService] *)

Module AI.

Inductive Role := RUser | RAssistant | RSystem.

(** [ConversationMessage]; [content] is [undefined] when the reply
    object had no [text]. *)
Record ConversationMessage := {
  role : Role;
  content : option string;
  timestamp : option Z
}.

Record ToolCall := {
  tc_name : string;
  tc_args : list (string * string)
}.

(** [AIResponse]: [{ text, toolCalls? }]. *)
Record AIResponse := {
  text : option string;
  toolCalls : option (list ToolCall)
}.

(** Outcome of [client.chat.completions.create] followed by
    [completion.choices[0]?.message?.content]. *)
Inductive ChatOutcome :=
| ChatRejected
| ChatNoContent
| ChatContent (content : string).

(** Value of [JSON.parse(response)], supplied by the runtime together
    with the completion: not JSON at all, the JSON value [null] (reading
    a property of it throws), or a reply object. *)
Inductive Parsed :=
| NotJSON
| JSONNull
| JSONObject (r : AIResponse).

(** Result of an [async] function: a value or a rejection. *)
Inductive Completion (A : Type) :=
| Returned (a : A)
| Thrown.
Arguments Returned {A} a.
Arguments Thrown {A}.

(** The service object.  [conversationHistory] maps a call identifier
    to an array; arrays are objects, so the map holds references into
    [arrays], and a [push] on an array obtained from the map is seen
    through the map. *)
Record Service := {
  conversationHistory : gmap string nat;
  arrays : list (list ConversationMessage)
}.

Definition array_of (r : nat) (sv : Service) : list ConversationMessage :=
  default [] (arrays sv !! r).

(** [history.push(...msgs)] on the array [r]. *)
Definition push (r : nat) (msgs : list ConversationMessage) (sv : Service) : Service :=
  {| conversationHistory := conversationHistory sv;
     arrays := alter (fun a => a ++ msgs) r (arrays sv) |}.

(** A new array object; the reference is its index. *)
Definition alloc (a : list ConversationMessage) (sv : Service) : nat * Service :=
  (length (arrays sv),
   {| conversationHistory := conversationHistory sv; arrays := arrays sv ++ [a] |}).

(** [this.conversationHistory.set(callId, r)]. *)
Definition set_history (callId : string) (r : nat) (sv : Service) : Service :=
  {| conversationHistory := <[callId := r]> (conversationHistory sv);
     arrays := arrays sv |}.

(** [this.conversationHistory.get(callId) || []]. *)
Definition get_or_new (callId : string) (sv : Service) : nat * Service :=
  match conversationHistory sv !! callId with
  | Some r => (r, sv)
  | None => alloc [] sv
  end.

(** [getConversationHistory(callId)]. *)
Definition getConversationHistory (callId : string) (sv : Service)
    : list ConversationMessage :=
  match conversationHistory sv !! callId with
  | Some r => array_of r sv
  | None => []
  end.

(** [clearConversationHistory(callId)]. *)
Definition clearConversationHistory (callId : string) (sv : Service) : Service :=
  {| conversationHistory := delete callId (conversationHistory sv);
     arrays := arrays sv |}.

Definition HISTORY_WINDOW : nat := 20.

(** [generateResponse], up to its [await]: the history array is fetched
    and the user message is pushed onto it. *)
Definition generateResponse_begin (userMessage callId : string) (now : Z)
    (sv : Service) : nat * Service :=
  let '(r, sv1) := get_or_new callId sv in
  (r, push r [{| role := RUser; content := Some userMessage; timestamp := Some now |}] sv1).

(** [generateResponse], from the completion of the backend call. *)
Definition generateResponse_end (history : nat) (callId : string) (now : Z)
    (out : ChatOutcome) (sv : Service) : Completion string * Service :=
  match out with
  | ChatRejected => (Thrown, sv)
  | ChatNoContent => (Thrown, sv)
  | ChatContent aiResponse =>
      match JS.truthy (Some aiResponse) with
      | None => (Thrown, sv)
      | Some _ =>
          let sv1 :=
            push history
              [{| role := RAssistant; content := Some aiResponse; timestamp := Some now |}] sv in
          let '(r, sv2) := alloc (JS.slice_last HISTORY_WINDOW (array_of history sv1)) sv1 in
          (Returned (JS.trim aiResponse), set_history callId r sv2)
      end
  end.

(** The whole call when nothing else touches the service in between. *)
Definition generateResponse (userMessage callId : string) (now : Z)
    (out : ChatOutcome) (sv : Service) : Completion string * Service :=
  let '(r, sv1) := generateResponse_begin userMessage callId now sv in
  generateResponse_end r callId now out sv1.

Definition fallback_text : string :=
  "I'm sorry, I encountered an error. Could you please repeat that?".

Definition fallback_response : AIResponse :=
  {| text := Some fallback_text; toolCalls := None |}.

(** [generateResponseWithTools], up to its [await]. *)
Definition generateResponseWithTools_begin (callId : string) (sv : Service)
    : nat * Service :=
  get_or_new callId sv.

(** [generateResponseWithTools], from the completion of the backend
    call.  Every failure inside the [try] ends in the [catch], which
    returns the fallback reply. *)
Definition generateResponseWithTools_end (history : nat) (userMessage callId : string)
    (out : ChatOutcome) (parsed : Parsed) (sv : Service)
    : Completion AIResponse * Service :=
  match out with
  | ChatRejected => (Returned fallback_response, sv)
  | ChatNoContent => (Returned fallback_response, sv)
  | ChatContent response =>
      match JS.truthy (Some response) with
      | None => (Returned fallback_response, sv)
      | Some _ =>
          let aiResponse :=
            match parsed with
            | NotJSON => Some {| text := Some response; toolCalls := None |}
            | JSONNull => None
            | JSONObject r => Some r
            end in
          match aiResponse with
          | None => (Returned fallback_response, sv)
          | Some r =>
              let sv1 :=
                push history
                  [{| role := RUser; content := Some userMessage; timestamp := None |};
                   {| role := RAssistant; content := text r; timestamp := None |}] sv in
              (Returned r, set_history callId history sv1)
          end
      end
  end.

Definition generateResponseWithTools (userMessage callId : string)
    (out : ChatOutcome) (parsed : Parsed) (sv : Service)
    : Completion AIResponse * Service :=
  let '(r, sv1) := generateResponseWithTools_begin callId sv in
  generateResponseWithTools_end r userMessage callId out parsed sv1.

End AI.

(** ** Protocol events and the acknowledgment of a mark *)

Module Protocol.

(** An inbound frame after [JSON.parse], discriminated by [event]. *)
Inductive Inbound :=
| InConnected
| InStart (streamSid callSid : string)
| InMedia (payload : string)
| InStop (callSid : string)
| InMark (name : option string)
| InOther (event : string)
| InMalformed   (* [JSON.parse] or a destructuring throws; the handler logs it *)
| InBinary.

End Protocol.

(** The promise [audioPlaybackComplete] with its [markHandler] listener
    and its 10 s timer (lines 337-381). *)
Module Ack.
Import Protocol.

Inductive Cause := ByEcho | ByTimeout | BySendFailure.

(** Calls made by the three callbacks, in program order.  [Resolve c
    first] is a call of [resolve()]; [first] tells whether the promise
    was still pending, i.e. whether this call settles it. *)
Inductive AckEffect :=
| RemoveListener
| ClearTimeout
| Resolve (c : Cause) (first : bool).

Record PendingAck := {
  markName : string;
  attached : bool;   (* [markHandler] is a listener of the connection *)
  armed : bool;      (* the 10 s timer has neither fired nor been cleared *)
  settled : bool     (* the promise is resolved *)
}.

Definition TIMEOUT_MS : Z := 10000.

(** The promise executor up to the send: name, listener, timer. *)
Definition create (now : Z) : PendingAck :=
  {| markName := Audio.fresh_mark now; attached := true; armed := true; settled := false |}.

(** [markHandler(data)].  It runs only while it is a listener. *)
Definition on_message (m : Inbound) (pa : PendingAck) : PendingAck * list AckEffect :=
  if attached pa then
    match m with
    | InMark (Some name) =>
        if String.eqb name (markName pa) then
          ({| markName := markName pa; attached := false; armed := armed pa; settled := true |},
           [RemoveListener; Resolve ByEcho (negb (settled pa))])
        else (pa, [])
    | _ => (pa, [])
    end
  else (pa, []).

(** The timer callback.  A timer fires at most once, and not after
    [clearTimeout]. *)
Definition on_deadline (pa : PendingAck) : PendingAck * list AckEffect :=
  if armed pa then
    ({| markName := markName pa; attached := false; armed := false; settled := true |},
     [RemoveListener; Resolve ByTimeout (negb (settled pa))])
  else (pa, []).

(** The [.catch] handler of the send. *)
Definition on_send_failure (pa : PendingAck) : PendingAck * list AckEffect :=
  ({| markName := markName pa; attached := false; armed := false; settled := true |},
   [ClearTimeout; RemoveListener; Resolve BySendFailure (negb (settled pa))]).

Definition settles (e : AckEffect) : bool :=
  match e with Resolve _ true => true | _ => false end.

(** Inputs of one acknowledgment, for runs of it in isolation. *)
Inductive Input :=
| Message (m : Inbound)
| Deadline
| SendFailure.

Definition react (i : Input) (pa : PendingAck) : PendingAck * list AckEffect :=
  match i with
  | Message m => on_message m pa
  | Deadline => on_deadline pa
  | SendFailure => on_send_failure pa
  end.

Fixpoint run (inputs : list Input) (pa : PendingAck) : PendingAck * list AckEffect :=
  match inputs with
  | [] => (pa, [])
  | i :: r =>
      let '(pa1, e1) := react i pa in
      let '(pa2, e2) := run r pa1 in
      (pa2, e1 ++ e2)
  end.

End Ack.

(** ** The per-connection closure of [setupWebSocketServer] *)

Module Session.
Import Protocol.
Export Audio AI.

(** [CallStatus] of the shared types. *)
Inductive CallStatus := INITIATED | CONNECTED | IN_PROGRESS | ENDED | FAILED.

Record TranscriptEntry := {
  te_text : string;
  te_timestamp : Z;
  te_isFinal : bool;
  te_confidence : Z;
  te_speaker : string
}.

Record ResponseEntry := {
  re_text : string;
  re_timestamp : Z;
  re_processingTime : Z
}.

Record CallSession := {
  callSid : string;
  phoneNumber : string;
  status : CallStatus;
  startTime : Z;
  endTime : option Z;
  transcripts : list TranscriptEntry;
  aiResponses : list ResponseEntry
}.

(** Result of [ToolService.executeToolCall]; the call never rejects
    (its body is one [try]/[catch] that returns [success: false]). *)
Record ToolResult := {
  success : bool;
  message : string
}.

(** An element of [toolResults]: [{ tool: toolCall.name, ...result }]. *)
Record ToolResultEntry := {
  tool : string;
  tr_success : bool;
  tr_message : string
}.

(** Where an [async] function of the closure is suspended, with the
    local variables it still needs. *)
Inductive Phase :=
| AwaitAI (userMessage callId : string) (history : nat)
| AwaitTTS (userMessage : string) (calls : option (list ToolCall))
| AwaitAck (userMessage : string) (calls : list ToolCall)
| AwaitTool (userMessage : string) (toolCall : ToolCall) (rest : list ToolCall)
    (toolResults : list ToolResultEntry)
| AwaitFollowUpAI (callId : string) (history : nat)
| AwaitFollowUpTTS
| AwaitFallbackTTS
| AwaitGreetingTTS.

(** Calls on collaborators and on shared objects, in program order. *)
Inductive Effect :=
| EffSend (f : OutFrame)
| EffProcess (userMessage : string)
| EffAIWithTools (id : nat) (callId userMessage : string)
| EffAIPlain (id : nat) (callId prompt : string)
| EffTTS (id : nat) (txt : string)
| EffToolExec (id : nat) (callId : string) (tc : ToolCall)
| EffAck (id : nat) (e : Ack.AckEffect)
| EffDeepgramOpen (h : nat)
| EffDeepgramAudio (h : nat) (payload : string)
| EffDeepgramClose (h : nat)
| EffClearIdle
| EffDelConnection (connectionId : string)
| EffDelCall (callId : string)
| EffClearHistory (callId : string)
| EffConnClose.

(** The [let] variables of the closure, and [connectionId]. *)
Record Closure := {
  connectionId : string;
  callSession : option nat;          (* reference into [sessions] *)
  streamSid : option string;
  connectionTimeout : bool;          (* the handle is non-null: the 2 min timer is armed *)
  deepgramConnection : option nat;
  conversationBuffer : string;
  lastSpeechTime : Z
}.

(** The objects the closure shares with the rest of the process:
    [state.activeCalls], [state.activeConnections], the [CallSession]
    objects (by reference), the AI service and the connection. *)
Record World := {
  activeCalls : gmap string nat;
  activeConnections : gmap string nat;
  sessions : list CallSession;
  ai : AI.Service;
  connection : Connection
}.

(** The part of the event loop that belongs to this connection. *)
Record Loop := {
  transcriptHandlers : bool;   (* [setupEventHandlers] has run *)
  quietTimers : list Z;        (* due times of the pending 1000 ms callbacks *)
  greetingTimers : nat;
  tasks : list (nat * Phase);
  acks : list (nat * Ack.PendingAck);
  next_id : nat;
  trace : list Effect
}.

Record State := {
  cl : Closure;
  world : World;
  lp : Loop
}.

(** *** Field updates *)

Definition upd_cl (f : Closure -> Closure) (s : State) : State :=
  {| cl := f (cl s); world := world s; lp := lp s |}.
Definition upd_world (f : World -> World) (s : State) : State :=
  {| cl := cl s; world := f (world s); lp := lp s |}.
Definition upd_lp (f : Loop -> Loop) (s : State) : State :=
  {| cl := cl s; world := world s; lp := f (lp s) |}.

Definition set_callSession (v : option nat) (c : Closure) : Closure :=
  {| connectionId := connectionId c; callSession := v; streamSid := streamSid c;
     connectionTimeout := connectionTimeout c; deepgramConnection := deepgramConnection c;
     conversationBuffer := conversationBuffer c; lastSpeechTime := lastSpeechTime c |}.
Definition set_streamSid (v : option string) (c : Closure) : Closure :=
  {| connectionId := connectionId c; callSession := callSession c; streamSid := v;
     connectionTimeout := connectionTimeout c; deepgramConnection := deepgramConnection c;
     conversationBuffer := conversationBuffer c; lastSpeechTime := lastSpeechTime c |}.
Definition set_connectionTimeout (v : bool) (c : Closure) : Closure :=
  {| connectionId := connectionId c; callSession := callSession c; streamSid := streamSid c;
     connectionTimeout := v; deepgramConnection := deepgramConnection c;
     conversationBuffer := conversationBuffer c; lastSpeechTime := lastSpeechTime c |}.
Definition set_deepgramConnection (v : option nat) (c : Closure) : Closure :=
  {| connectionId := connectionId c; callSession := callSession c; streamSid := streamSid c;
     connectionTimeout := connectionTimeout c; deepgramConnection := v;
     conversationBuffer := conversationBuffer c; lastSpeechTime := lastSpeechTime c |}.
Definition set_conversationBuffer (v : string) (c : Closure) : Closure :=
  {| connectionId := connectionId c; callSession := callSession c; streamSid := streamSid c;
     connectionTimeout := connectionTimeout c; deepgramConnection := deepgramConnection c;
     conversationBuffer := v; lastSpeechTime := lastSpeechTime c |}.
Definition set_lastSpeechTime (v : Z) (c : Closure) : Closure :=
  {| connectionId := connectionId c; callSession := callSession c; streamSid := streamSid c;
     connectionTimeout := connectionTimeout c; deepgramConnection := deepgramConnection c;
     conversationBuffer := conversationBuffer c; lastSpeechTime := v |}.

Definition set_activeCalls (v : gmap string nat) (w : World) : World :=
  {| activeCalls := v; activeConnections := activeConnections w; sessions := sessions w;
     ai := ai w; connection := connection w |}.
Definition set_activeConnections (v : gmap string nat) (w : World) : World :=
  {| activeCalls := activeCalls w; activeConnections := v; sessions := sessions w;
     ai := ai w; connection := connection w |}.
Definition set_sessions (v : list CallSession) (w : World) : World :=
  {| activeCalls := activeCalls w; activeConnections := activeConnections w; sessions := v;
     ai := ai w; connection := connection w |}.
Definition set_ai (v : AI.Service) (w : World) : World :=
  {| activeCalls := activeCalls w; activeConnections := activeConnections w;
     sessions := sessions w; ai := v; connection := connection w |}.
Definition set_connection (v : Connection) (w : World) : World :=
  {| activeCalls := activeCalls w; activeConnections := activeConnections w;
     sessions := sessions w; ai := ai w; connection := v |}.

Definition set_transcriptHandlers (v : bool) (l : Loop) : Loop :=
  {| transcriptHandlers := v; quietTimers := quietTimers l; greetingTimers := greetingTimers l;
     tasks := tasks l; acks := acks l; next_id := next_id l; trace := trace l |}.
Definition set_quietTimers (v : list Z) (l : Loop) : Loop :=
  {| transcriptHandlers := transcriptHandlers l; quietTimers := v;
     greetingTimers := greetingTimers l;
     tasks := tasks l; acks := acks l; next_id := next_id l; trace := trace l |}.
Definition set_greetingTimers (v : nat) (l : Loop) : Loop :=
  {| transcriptHandlers := transcriptHandlers l; quietTimers := quietTimers l;
     greetingTimers := v;
     tasks := tasks l; acks := acks l; next_id := next_id l; trace := trace l |}.
Definition set_tasks (v : list (nat * Phase)) (l : Loop) : Loop :=
  {| transcriptHandlers := transcriptHandlers l; quietTimers := quietTimers l;
     greetingTimers := greetingTimers l;
     tasks := v; acks := acks l; next_id := next_id l; trace := trace l |}.
Definition set_acks (v : list (nat * Ack.PendingAck)) (l : Loop) : Loop :=
  {| transcriptHandlers := transcriptHandlers l; quietTimers := quietTimers l;
     greetingTimers := greetingTimers l;
     tasks := tasks l; acks := v; next_id := next_id l; trace := trace l |}.
Definition set_next_id (v : nat) (l : Loop) : Loop :=
  {| transcriptHandlers := transcriptHandlers l; quietTimers := quietTimers l;
     greetingTimers := greetingTimers l;
     tasks := tasks l; acks := acks l; next_id := v; trace := trace l |}.
Definition set_trace (v : list Effect) (l : Loop) : Loop :=
  {| transcriptHandlers := transcriptHandlers l; quietTimers := quietTimers l;
     greetingTimers := greetingTimers l;
     tasks := tasks l; acks := acks l; next_id := next_id l; trace := v |}.

(** *** Small helpers *)

Definition log (es : list Effect) (s : State) : State :=
  upd_lp (fun l => set_trace (trace l ++ es) l) s.

Fixpoint assoc_get {A} (id : nat) (l : list (nat * A)) : option A :=
  match l with
  | [] => None
  | (k, x) :: r => if k =? id then Some x else assoc_get id r
  end.

Fixpoint assoc_set {A} (id : nat) (v : A) (l : list (nat * A)) : list (nat * A) :=
  match l with
  | [] => []
  | (k, x) :: r => if k =? id then (k, v) :: r else (k, x) :: assoc_set id v r
  end.

Definition assoc_del {A} (id : nat) (l : list (nat * A)) : list (nat * A) :=
  List.filter (fun p => negb (fst p =? id)) l.

Definition phase_of (id : nat) (s : State) : option Phase := assoc_get id (tasks (lp s)).

Definition set_phase (id : nat) (ph : Phase) (s : State) : State :=
  upd_lp (fun l => set_tasks (assoc_set id ph (tasks l)) l) s.

(** A new suspended call; its identifier is fresh. *)
Definition spawn (ph : Phase) (s : State) : nat * State :=
  let id := next_id (lp s) in
  (id, upd_lp (fun l => set_next_id (S id) (set_tasks (tasks l ++ [(id, ph)]) l)) s).

Definition drop_task (id : nat) (s : State) : State :=
  upd_lp (fun l => set_tasks (assoc_del id (tasks l)) l) s.

(** The acknowledgment of the orchestration [id] is created. *)
Definition add_ack (id : nat) (pa : Ack.PendingAck) (s : State) : State :=
  upd_lp (fun l => set_acks (acks l ++ [(id, pa)]) l) s.

Definition set_ack (id : nat) (pa : Ack.PendingAck) (s : State) : State :=
  upd_lp (fun l => set_acks (assoc_set id pa (acks l)) l) s.

(** The object the variable [callSession] refers to. *)
Definition session_of (s : State) : option CallSession :=
  match callSession (cl s) with
  | Some r => sessions (world s) !! r
  | None => None
  end.

(** [callSession.callSid]. *)
Definition current_callSid (s : State) : string :=
  match session_of s with
  | Some cs => callSid cs
  | None => ""
  end.

(** An in-place update of the object [callSession] refers to. *)
Definition upd_session (f : CallSession -> CallSession) (s : State) : State :=
  match callSession (cl s) with
  | Some r => upd_world (fun w => set_sessions (alter f r (sessions w)) w) s
  | None => s
  end.

Definition push_transcript (e : TranscriptEntry) (cs : CallSession) : CallSession :=
  {| callSid := callSid cs; phoneNumber := phoneNumber cs; status := status cs;
     startTime := startTime cs; endTime := endTime cs;
     transcripts := transcripts cs ++ [e]; aiResponses := aiResponses cs |}.

Definition push_response (e : ResponseEntry) (cs : CallSession) : CallSession :=
  {| callSid := callSid cs; phoneNumber := phoneNumber cs; status := status cs;
     startTime := startTime cs; endTime := endTime cs;
     transcripts := transcripts cs; aiResponses := aiResponses cs ++ [e] |}.

Definition end_session (now : Z) (cs : CallSession) : CallSession :=
  {| callSid := callSid cs; phoneNumber := phoneNumber cs; status := ENDED;
     startTime := startTime cs; endTime := Some now;
     transcripts := transcripts cs; aiResponses := aiResponses cs |}.

(** *** [sendAudioToTwilio] inside the closure *)

Definition send_audio (now : Z) (audio : list byte) (mark : option string)
    (s : State) : State * bool :=
  let r := sendAudioToTwilio (connection (world s)) (streamSid (cl s)) now audio mark in
  (log (map EffSend (emitted r)) (upd_world (set_connection (conn_after r)) s), threw r).

(** *** [cleanup] (lines 616-638) *)

Definition cleanup (s : State) : State :=
  let s1 :=
    if connectionTimeout (cl s)
    then log [EffClearIdle] (upd_cl (set_connectionTimeout false) s)
    else s in
  let s2 :=
    match deepgramConnection (cl s1) with
    | Some h => log [EffDeepgramClose h] (upd_cl (set_deepgramConnection None) s1)
    | None => s1
    end in
  let s3 :=
    log [EffDelConnection (connectionId (cl s2))]
      (upd_world (fun w => set_activeConnections
                             (delete (connectionId (cl s2)) (activeConnections w)) w) s2) in
  match callSession (cl s3) with
  | Some _ =>
      log [EffDelCall (current_callSid s3)]
        (upd_world (fun w => set_activeCalls
                               (delete (current_callSid s3) (activeCalls w)) w) s3)
  | None => s3
  end.

(** *** [handleCallStart] (lines 160-261) *)

Definition new_session (sid : string) (now : Z) : CallSession :=
  {| callSid := sid; phoneNumber := ""; status := CONNECTED; startTime := now;
     endTime := None; transcripts := []; aiResponses := [] |}.

(** [deepgramOk]: whether [createLiveTranscription] returns or throws. *)
Definition handleCallStart (now : Z) (msgStreamSid sid : string) (deepgramOk : bool)
    (s : State) : State :=
  let s1 := upd_cl (set_streamSid (Some msgStreamSid)) s in
  let s2 :=
    if connectionTimeout (cl s1)
    then log [EffClearIdle] (upd_cl (set_connectionTimeout false) s1)
    else s1 in
  let r := length (sessions (world s2)) in
  let s3 :=
    upd_cl (set_callSession (Some r))
      (upd_world (fun w => set_activeCalls (<[sid := r]> (activeCalls w))
                             (set_sessions (sessions w ++ [new_session sid now]) w)) s2) in
  let s4 :=
    if deepgramOk then
      let h := next_id (lp s3) in
      log [EffDeepgramOpen h]
        (upd_lp (fun l => set_transcriptHandlers true (set_next_id (S h) l))
           (upd_cl (set_deepgramConnection (Some h)) s3))
    else s3 in
  upd_lp (fun l => set_greetingTimers (S (greetingTimers l)) l) s4.

(** *** [handleMediaData] (lines 263-280) *)

Definition handleMediaData (payload : string) (s : State) : State :=
  match JS.truthy (streamSid (cl s)), deepgramConnection (cl s) with
  | Some _, Some h => log [EffDeepgramAudio h payload] s
  | _, _ => s
  end.

(** *** [handleCallStop] (lines 589-614) *)

Definition handleCallStop (now : Z) (sid : string) (s : State) : State :=
  let s1 :=
    match callSession (cl s) with
    | Some _ =>
        log [EffClearHistory sid]
          (upd_world (fun w => set_ai (clearConversationHistory sid (ai w)) w)
             (upd_session (end_session now) s))
    | None => s
    end in
  cleanup s1.

(** *** [processConversation] (lines 282-522) *)

Definition nl : string := String (ascii_of_nat 10) EmptyString.
Definition dquote : string := String (ascii_of_nat 34) EmptyString.

Fixpoint join (sep : string) (l : list string) : string :=
  match l with
  | [] => EmptyString
  | [x] => x
  | x :: r => x +:+ sep +:+ join sep r
  end.

(** One element of the follow-up prompt.  [executeToolCall] returns
    [{ success, message }] only, so [r.data] is [undefined] and the
    menu branch of the template is never taken. *)
Definition render_result (r : ToolResultEntry) : string :=
  "Tool: " +:+ tool r +:+ nl +:+
  "Status: " +:+ (if tr_success r then "Success" else "Failed") +:+ nl +:+
  "Message: " +:+ tr_message r +:+ nl.

Definition followUpPrompt (userMessage : string) (rs : list ToolResultEntry) : string :=
  "You are a helpful restaurant assistant. The user asked: " +:+
  dquote +:+ userMessage +:+ dquote +:+ nl +:+ nl +:+
  "Here is our restaurant's menu information:" +:+ nl +:+ nl +:+
  join (nl +:+ nl) (map render_result rs).

Definition apology : string :=
  "I'm sorry, I didn't catch that. Could you please repeat?".

Definition greeting : string :=
  "Hello! Welcome to our automated restaurant booking service. How can I help you today?".

Definition HANG_UP : string := "hang_up_call".

(** The end of [processConversation]: the [await] in the quiet-window
    callback returns and the callback clears the buffer (line 223). *)
Definition finish (id : nat) (s : State) : State :=
  upd_cl (set_conversationBuffer EmptyString) (drop_task id s).

(** The [catch] block: the apology is synthesised. *)
Definition fallback (id : nat) (s : State) : State :=
  log [EffTTS id apology] (set_phase id AwaitFallbackTTS s).

(** After the tool loop (lines 413-500). *)
Definition after_tools (now : Z) (id : nat) (userMessage : string)
    (rs : list ToolResultEntry) (s : State) : State :=
  match rs with
  | [] => finish id s
  | _ :: _ =>
      let prompt := followUpPrompt userMessage rs in
      let sid := current_callSid s in
      let '(h, ai') := generateResponse_begin prompt sid now (ai (world s)) in
      log [EffAIPlain id sid prompt]
        (set_phase id (AwaitFollowUpAI sid h) (upd_world (set_ai ai') s))
  end.

(** The head of the [for] loop over the tool calls (line 390). *)
Definition next_tool (now : Z) (id : nat) (userMessage : string)
    (rest : list ToolCall) (rs : list ToolResultEntry) (s : State) : State :=
  match rest with
  | tc :: rest' =>
      log [EffToolExec id (current_callSid s) tc]
        (set_phase id (AwaitTool userMessage tc rest' rs) s)
  | [] => after_tools now id userMessage rs s
  end.

(** The continuation of [await audioPlaybackComplete]. *)
Definition resume (now : Z) (id : nat) (s : State) : State :=
  match phase_of id s with
  | Some (AwaitAck userMessage calls) => next_tool now id userMessage calls [] s
  | _ => s
  end.

(** One callback of the acknowledgment [id] runs; when it settles the
    promise, the orchestration that awaits it continues. *)
Definition ack_react (now : Z) (id : nat)
    (f : Ack.PendingAck -> Ack.PendingAck * list Ack.AckEffect) (s : State) : State :=
  match assoc_get id (acks (lp s)) with
  | None => s
  | Some pa =>
      let '(pa', es) := f pa in
      let s1 := log (map (EffAck id) es) (set_ack id pa' s) in
      if existsb Ack.settles es then resume now id s1 else s1
  end.

(** The body up to the first [await]; [None] when it returns at once. *)
Definition processConversation (userMessage : string) (s : State) : option nat * State :=
  let s0 := log [EffProcess userMessage] s in
  match callSession (cl s0), JS.truthy (streamSid (cl s0)) with
  | Some _, Some _ =>
      let sid := current_callSid s0 in
      let '(h, ai') := generateResponseWithTools_begin sid (ai (world s0)) in
      let '(id, s1) := spawn (AwaitAI userMessage sid h) (upd_world (set_ai ai') s0) in
      (Some id, log [EffAIWithTools id sid userMessage] s1)
  | _, _ => (None, s0)
  end.

(** The reply of [generateResponseWithTools] arrives (lines 308-327). *)
Definition on_ai_reply (now : Z) (id : nat) (userMessage callId : string) (history : nat)
    (out : ChatOutcome) (parsed : Parsed) (s : State) : State :=
  let '(res, ai') :=
    generateResponseWithTools_end history userMessage callId out parsed (ai (world s)) in
  let s1 := upd_world (set_ai ai') s in
  match res with
  | Thrown => fallback id s1
  | Returned r =>
      match text r with
      | None => fallback id s1   (* [aiResponse.text.substring] throws *)
      | Some txt =>
          let s2 :=
            upd_session
              (push_response {| re_text := txt; re_timestamp := now; re_processingTime := 0 |})
              s1 in
          log [EffTTS id txt] (set_phase id (AwaitTTS userMessage (toolCalls r)) s2)
      end
  end.

(** The first audio is ready (lines 334-384 and 501-504). *)
Definition on_initial_audio (now : Z) (id : nat) (userMessage : string)
    (calls : option (list ToolCall)) (audio : list byte) (s : State) : State :=
  match calls with
  | Some (tc :: more) =>
      let pa := Ack.create now in
      let s1 :=
        set_phase id (AwaitAck userMessage (tc :: more)) (add_ack id pa s) in
      let '(s2, failed) := send_audio now audio (Some (Ack.markName pa)) s1 in
      if failed then ack_react now id Ack.on_send_failure s2 else s2
  | _ =>
      let '(s1, failed) := send_audio now audio None s in
      if failed then fallback id s1 else finish id s1
  end.

(** The reply of [generateResponse] for the follow-up arrives. *)
Definition on_followup_reply (now : Z) (id : nat) (callId : string) (history : nat)
    (out : ChatOutcome) (s : State) : State :=
  let '(res, ai') := generateResponse_end history callId now out (ai (world s)) in
  let s1 := upd_world (set_ai ai') s in
  match res with
  | Thrown => fallback id s1
  | Returned txt => log [EffTTS id txt] (set_phase id AwaitFollowUpTTS s1)
  end.

(** *** The event loop *)

Inductive Event :=
| EvMessage (m : Inbound) (deepgramOk : bool)
| EvClose
| EvError
| EvIdleTimeout
| EvTranscript (txt : string) (isFinal : bool) (confidence : option Z)
| EvQuietTimer
| EvGreetingTimer
| EvAI (id : nat) (out : ChatOutcome) (parsed : Parsed)
| EvTTS (id : nat) (audio : option (list byte))   (* [None]: [textToSpeech] rejects *)
| EvTool (id : nat) (result : ToolResult)
| EvAckDeadline (id : nat).

Definition QUIET_MS : Z := 1000.

(** [onTranscript] (lines 192-227). *)
Definition onTranscript (now : Z) (txt : string) (isFinal : bool) (confidence : option Z)
    (s : State) : State :=
  if isFinal && JS.nonblank txt then
    let s1 :=
      upd_session
        (push_transcript {| te_text := txt; te_timestamp := now; te_isFinal := isFinal;
                            te_confidence := default 0%Z confidence; te_speaker := "user" |})
        s in
    let s2 :=
      upd_cl (fun c => set_lastSpeechTime now
                         (set_conversationBuffer (conversationBuffer c +:+ txt +:+ " ") c)) s1 in
    upd_lp (fun l => set_quietTimers (quietTimers l ++ [(now + QUIET_MS)%Z]) l) s2
  else s.

(** The callback of the quiet-window timer (lines 220-225). *)
Definition quiet_callback (now : Z) (s : State) : State :=
  if (QUIET_MS <=? now - lastSpeechTime (cl s))%Z
     && JS.nonblank (conversationBuffer (cl s))
  then
    match processConversation (JS.trim (conversationBuffer (cl s))) s with
    | (Some _, s1) => s1
    | (None, s1) => upd_cl (set_conversationBuffer EmptyString) s1
    end
  else s.

(** Every [markHandler] that is a listener when the message is
    dispatched is called, in registration order. *)
Definition mark_handlers (now : Z) (m : Inbound) (s : State) : State :=
  fold_left (fun st p => ack_react now (fst p) (Ack.on_message m) st) (acks (lp s)) s.

(** The main [message] listener (lines 69-141). *)
Definition on_message (now : Z) (m : Inbound) (deepgramOk : bool) (s : State) : State :=
  match m with
  | InStart ssid sid => handleCallStart now ssid sid deepgramOk s
  | InMedia payload => handleMediaData payload s
  | InStop sid => handleCallStop now sid s
  | InConnected | InMark _ | InOther _ | InMalformed | InBinary => s
  end.

Definition on_tts (now : Z) (id : nat) (audio : option (list byte)) (s : State) : State :=
  match phase_of id s with
  | Some (AwaitTTS userMessage calls) =>
      match audio with
      | None => fallback id s
      | Some a => on_initial_audio now id userMessage calls a s
      end
  | Some AwaitFollowUpTTS =>
      match audio with
      | None => fallback id s
      | Some a =>
          let '(s1, failed) := send_audio now a None s in
          if failed then fallback id s1 else finish id s1
      end
  | Some AwaitFallbackTTS =>
      match audio with
      | None => finish id s
      | Some a => finish id (fst (send_audio now a None s))
      end
  | Some AwaitGreetingTTS =>
      match audio with
      | None => drop_task id s
      | Some a => drop_task id (fst (send_audio now a None s))
      end
  | _ => s
  end.

Definition on_tool (now : Z) (id : nat) (result : ToolResult) (s : State) : State :=
  match phase_of id s with
  | Some (AwaitTool userMessage tc rest rs) =>
      let rs' := rs ++ [{| tool := tc_name tc; tr_success := success result;
                           tr_message := message result |}] in
      if String.eqb (tc_name tc) HANG_UP && success result
      then finish id s
      else next_tool now id userMessage rest rs' s
  | _ => s
  end.

Definition step (now : Z) (e : Event) (s : State) : State :=
  match e with
  | EvMessage m deepgramOk => mark_handlers now m (on_message now m deepgramOk s)
  | EvClose =>
      cleanup (upd_world (fun w => set_connection (set_conn_state StClosed (connection w)) w) s)
  | EvError => cleanup s
  | EvIdleTimeout =>
      if connectionTimeout (cl s) then
        log [EffConnClose]
          (upd_world
             (fun w => set_connection
                         (if is_open (connection w)
                          then set_conn_state StEnding (connection w)
                          else connection w) w)
             (cleanup s))
      else s
  | EvTranscript txt isFinal confidence =>
      if transcriptHandlers (lp s) then onTranscript now txt isFinal confidence s else s
  | EvQuietTimer =>
      match quietTimers (lp s) with
      | [] => s
      | _ :: later => quiet_callback now (upd_lp (set_quietTimers later) s)
      end
  | EvGreetingTimer =>
      match greetingTimers (lp s) with
      | 0 => s
      | S n =>
          let '(id, s1) := spawn AwaitGreetingTTS (upd_lp (set_greetingTimers n) s) in
          log [EffTTS id greeting] s1
      end
  | EvAI id out parsed =>
      match phase_of id s with
      | Some (AwaitAI userMessage callId history) =>
          on_ai_reply now id userMessage callId history out parsed s
      | Some (AwaitFollowUpAI callId history) =>
          on_followup_reply now id callId history out s
      | _ => s
      end
  | EvTTS id audio => on_tts now id audio s
  | EvTool id result => on_tool now id result s
  | EvAckDeadline id => ack_react now id Ack.on_deadline s
  end.

Fixpoint run (evs : list (Z * Event)) (s : State) : State :=
  match evs with
  | [] => s
  | (now, e) :: r => run r (step now e s)
  end.

(** The request handler up to the registration of the listeners
    (lines 42-66): the connection is accepted, registered, and the
    2 minute timer is started. *)
Definition accept (now : Z) (handle : nat) (conn : Connection)
    (calls conns : gmap string nat) (objs : list CallSession) (svc : AI.Service) : State :=
  {| cl := {| connectionId := JS.string_of_Z now; callSession := None; streamSid := None;
              connectionTimeout := true; deepgramConnection := None;
              conversationBuffer := EmptyString; lastSpeechTime := now |};
     world := {| activeCalls := calls;
                 activeConnections := <[JS.string_of_Z now := handle]> conns;
                 sessions := objs; ai := svc; connection := conn |};
     lp := {| transcriptHandlers := false; quietTimers := []; greetingTimers := 0;
              tasks := []; acks := []; next_id := 0; trace := [] |} |}.

End Session.

(** ** Definitions used by the statements and proofs below *)

Module Support.
Import Base64 Audio.

(** The numbers below [n], for exhaustive checks of byte arithmetic. *)
Definition below (n : nat) : list N := map N.of_nat (seq 0 n).

Definition sextet_ok (n : N) : bool :=
  match dec6 (enc6 n) with
  | Some m => (m =? n)%N
  | None => false
  end && negb (Ascii.eqb (enc6 n) pad).

(** Two octets against the sextets they produce. *)
Definition pair_ok (x y : N) : bool :=
  (sext1 x <? 64)%N && (sext2 x y <? 64)%N && (sext3 x y <? 64)%N && (sext4 x <? 64)%N
  && (oct1 (sext1 x) (sext2 x y) =? x)%N
  && (oct3 (sext3 x y) (sext4 y) =? y)%N.

Definition mid_ok (a y : N) : bool :=
  forallb (fun c =>
    (oct2 (N.lor (N.shiftl a 4) (N.shiftr y 4)) (N.lor (N.shiftl (N.land y 15) 2) c) =? y)%N)
    (below 4).

Definition low_ok (x : N) : bool := (N.land x 3 <? 4)%N && (N.shiftr x 6 <? 4)%N.

Definition demo_conn : Connection := {| conn_state := StOpen; conn_fail_after := None |}.

Import Session Protocol.

(** The failures inside the [try] of [generateResponseWithTools]. *)
Definition ai_failure (out : ChatOutcome) (parsed : Parsed) : bool :=
  match out with
  | ChatRejected | ChatNoContent => true
  | ChatContent EmptyString => true
  | ChatContent _ => match parsed with JSONNull => true | _ => false end
  end.

Definition user_msg : ConversationMessage :=
  {| role := RUser; content := Some "x"; timestamp := None |}.
Definition svc20 : Service :=
  {| conversationHistory := {["CA1" := 0]}; arrays := [repeat user_msg 20] |}.

(** The state without the log of calls. *)
Definition observable (s : State) : Closure * World * Loop :=
  (cl s, world s, set_trace [] (lp s)).

(** The calls one run of [cleanup] makes, in order. *)
Definition cleanup_calls (s : State) : list Effect :=
  (if connectionTimeout (cl s) then [EffClearIdle] else [])
  ++ match deepgramConnection (cl s) with Some h => [EffDeepgramClose h] | None => [] end
  ++ [EffDelConnection (connectionId (cl s))]
  ++ match callSession (cl s) with Some _ => [EffDelCall (current_callSid s)] | None => [] end.

Definition resolved (id : nat) (tr : list Effect) : Prop :=
  exists c, In (EffAck id (Ack.Resolve c true)) tr.

Definition tools_after_resolution (tr : list Effect) : Prop :=
  forall pre id sid tc post,
    tr = pre ++ EffToolExec id sid tc :: post -> resolved id pre.

Definition is_tool_exec (e : Effect) : bool :=
  match e with EffToolExec _ _ _ => true | _ => false end.

Definition early (ph : Phase) : bool :=
  match ph with AwaitAI _ _ _ | AwaitTTS _ _ => true | _ => false end.

Definition in_tool (ph : Phase) : bool :=
  match ph with AwaitTool _ _ _ _ => true | _ => false end.

Definition in_ack (ph : Phase) : bool :=
  match ph with AwaitAck _ _ => true | _ => false end.

Definition acks_settled (id : nat) (s : State) : Prop :=
  forall pa, In (id, pa) (acks (lp s)) -> Ack.settled pa = true.

Record Inv (s : State) : Prop := {
  inv_tools : tools_after_resolution (trace (lp s));
  inv_tool_phase :
    forall id ph, phase_of id s = Some ph -> in_tool ph = true -> resolved id (trace (lp s));
  inv_fresh_tasks : forall id, In id (map fst (tasks (lp s))) -> id < next_id (lp s);
  inv_fresh_acks : forall id, In id (map fst (acks (lp s))) -> id < next_id (lp s);
  inv_nodup_acks : List.NoDup (map fst (acks (lp s)));
  inv_outstanding :
    forall id pa, In (id, pa) (acks (lp s)) -> Ack.settled pa = false ->
      exists ph, phase_of id s = Some ph /\ in_ack ph = true;
  inv_early :
    forall id ph, phase_of id s = Some ph -> early ph = true ->
      ~ In id (map fst (acks (lp s)))
}.

(** What the three callbacks of an acknowledgment have in common. *)
Definition good_reaction (f : Ack.PendingAck -> Ack.PendingAck * list Ack.AckEffect) : Prop :=
  forall pa,
    (Ack.settled pa = true -> Ack.settled (fst (f pa)) = true)
    /\ (existsb Ack.settles (snd (f pa)) = true ->
        Ack.settled (fst (f pa)) = true /\ exists c, In (Ack.Resolve c true) (snd (f pa))).

(** Tool executions and AI requests of the orchestration [id]. *)
Definition about (id : nat) (e : Effect) : bool :=
  match e with
  | EffToolExec i _ _ | EffAIWithTools i _ _ | EffAIPlain i _ _ => i =? id
  | _ => false
  end.

Definition gone (id : nat) (s : State) : Prop :=
  id < next_id (lp s) /\ ~ In id (map fst (tasks (lp s))).

(** From [s0] to [s] nothing was done on behalf of [id], and [id] is gone in [s]. *)
Definition Silent (id : nat) (s0 s : State) : Prop :=
  gone id s
  /\ exists es, trace (lp s) = trace (lp s0) ++ es /\ Forall (fun e => about id e = false) es.

(** *** Concrete sessions used by the examples *)

Definition svc0 : Service := {| conversationHistory := ∅; arrays := [] |}.

(** A connection whose next write throws. *)
Definition failing_conn : Connection := {| conn_state := StOpen; conn_fail_after := Some 0 |}.

Definition hang_up : ToolCall :=
  {| tc_name := "hang_up_call"; tc_args := [("reason", "user_requested")] |}.

Definition transfer : ToolCall :=
  {| tc_name := "transfer_call"; tc_args := [("destination", "+1234567890")] |}.

Definition bye_reply : AIResponse := {| text := Some "Goodbye"; toolCalls := Some [hang_up] |}.

Definition two_tools_reply : AIResponse :=
  {| text := Some "Goodbye"; toolCalls := Some [hang_up; transfer] |}.

(** A call that starts, hears one utterance, and gets a reply with a
    tool call and its audio. *)
Definition until_audio (reply : AIResponse) : list (Z * Event) :=
  [(5010, EvMessage (InStart "MZ1" "CA1") true);
   (6000, EvTranscript "goodbye" true None);
   (7000, EvQuietTimer);
   (7500, EvAI 1 (ChatContent "{}") (JSONObject reply));
   (7800, EvTTS 1 (Some [x01; x02; x03; x04]))]%Z.

Definition waiting_state : State :=
  run (until_audio bye_reply) (accept 5000 7 demo_conn ∅ ∅ [] svc0).

(** Two utterances one second apart while the first reply is still
    waiting for its mark. *)
Definition overlapping : list (Z * Event) :=
  (until_audio bye_reply ++
   [(8000, EvTranscript "wait" true None);
    (9000, EvQuietTimer);
    (9500, EvAI 2 (ChatContent "{}") (JSONObject bye_reply));
    (9800, EvTTS 2 (Some [x05; x06]))])%Z.

(** Two final fragments in the same millisecond. *)
Definition same_instant : list (Z * Event) :=
  [(5010, EvMessage (InStart "MZ1" "CA1") true);
   (6000, EvTranscript "good" true None);
   (6000, EvTranscript "bye" true None);
   (7000, EvQuietTimer);
   (7000, EvQuietTimer)]%Z.

(** The call of [until_audio], with the mark echoed. *)
Definition until_tool (reply : AIResponse) : list (Z * Event) :=
  (until_audio reply ++ [(7900, EvMessage (InMark (Some "audio_7800")) false)])%Z.

(** *** The quiet window *)

(** The state after the start event of the call [CA1]. *)
Definition started : State :=
  run [(5010, EvMessage (InStart "MZ1" "CA1") true)]%Z (accept 5000 7 demo_conn ∅ ∅ [] svc0).








(** What the steps of the quiet window leave alone. *)
Definition same_context (s s' : State) : Prop :=
  transcriptHandlers (lp s') = transcriptHandlers (lp s)
  /\ callSession (cl s') = callSession (cl s)
  /\ streamSid (cl s') = streamSid (cl s)
  /\ current_callSid s' = current_callSid s
  /\ next_id (lp s') = next_id (lp s)
  /\ trace (lp s') = trace (lp s).

(** *** The history store *)

(** Every reference held by the map points to an array. *)
Definition refs_ok (sv : Service) : Prop :=
  forall k r, conversationHistory sv !! k = Some r -> r < length (arrays sv).

(** *** The acknowledgment in isolation *)

Import Ack.

(** Number of calls of [resolve()] that settle the promise. *)
Definition settle_count (es : list AckEffect) : nat := length (List.filter settles es).

(** A log made of the bodies of the three callbacks. *)
Inductive Blocks : list AckEffect -> Prop :=
| blocks_nil : Blocks []
| blocks_handler c b es : Blocks es -> Blocks (RemoveListener :: Resolve c b :: es)
| blocks_catch c b es : Blocks es -> Blocks (ClearTimeout :: RemoveListener :: Resolve c b :: es).

End Support.

(** ** Strings as sequences of UTF-16 code units *)

Module UTF16.

(** A JavaScript string is a sequence of 16-bit code units, and its
    [length] is their number.  This is the representation of the texts
    whose length or white space the code inspects beyond ASCII. *)
Definition JSString := list N.

(** A string literal of the source whose characters are all ASCII. *)
Definition literal (s : string) : JSString := map N_of_ascii (list_ascii_of_string s).

(** The code units [String.prototype.trim] removes: the WhiteSpace of
    ECMAScript (TAB, VT, FF, the space separators of Unicode and the
    byte-order mark) and its LineTerminator (LF, CR, LS, PS).  All of
    them are single code units. *)
Definition is_white_space (u : N) : bool :=
  ((u =? 9) || (u =? 10) || (u =? 11) || (u =? 12) || (u =? 13) || (u =? 32)
   || (u =? 160) || (u =? 5760) || ((8192 <=? u) && (u <=? 8202))
   || (u =? 8232) || (u =? 8233) || (u =? 8239) || (u =? 8287) || (u =? 12288)
   || (u =? 65279))%N.

Fixpoint trim_start (s : JSString) : JSString :=
  match s with
  | u :: rest => if is_white_space u then trim_start rest else s
  | [] => []
  end.

Definition trim_end (s : JSString) : JSString := rev (trim_start (rev s)).

(** [s.trim()]. *)
Definition trim (s : JSString) : JSString := trim_end (trim_start s).

End UTF16.

(** ** The tool service: class [ToolService] *)

Module Tools.
Import Session.

(** A value caught by [catch (error)]: an [Error] with its message, or
    anything else. *)
Inductive Caught :=
| ErrorObject (message : string)
| OtherValue.

(** [error instanceof Error ? error.message : 'Unknown error']. *)
Definition error_text (e : Caught) : string :=
  match e with
  | ErrorObject m => m
  | OtherValue => "Unknown error"
  end.

(** Outcome of a request to the telephony service: the promise resolves
    or rejects.  A service object without the method called rejects in
    the same way, since the call is made inside the [try]. *)
Inductive Outcome :=
| Resolved
| Rejected (e : Caught).

(** The requests the tool service makes. *)
Inductive Request :=
| EndCall (callSid : string)
| TransferCall (callSid : string) (destination : option string).

(** A parameter of a tool, as [getAvailableTools] declares it. *)
Record ParameterSpec := {
  p_name : string;
  p_type : string;
  p_required : bool
}.

(** [ToolDefinition], without the descriptions. *)
Record ToolDefinition := {
  td_name : string;
  td_properties : list ParameterSpec;
  td_required : list string
}.

(** [getAvailableTools()]. *)
Definition getAvailableTools : list ToolDefinition :=
  [ {| td_name := "hang_up_call";
       td_properties := [ {| p_name := "reason"; p_type := "string"; p_required := true |} ];
       td_required := ["reason"] |};
    {| td_name := "transfer_call";
       td_properties := [ {| p_name := "destination"; p_type := "string"; p_required := true |};
                          {| p_name := "reason"; p_type := "string"; p_required := true |} ];
       td_required := ["destination"; "reason"] |} ].

(** [args.k] on the object [args]: of two entries with the same key the
    later one is the property. *)
Fixpoint arg (k : string) (args : list (string * string)) : option string :=
  match args with
  | [] => None
  | (k', v) :: r =>
      match arg k r with
      | Some v' => Some v'
      | None => if String.eqb k' k then Some v else None
      end
  end.

(** [`${x}`] for a string that may be [undefined]. *)
Definition render (o : option string) : string :=
  match o with
  | Some s => s
  | None => "undefined"
  end.

(** [hangUpCall(callSid, reason)], from the outcome of [endCall]. *)
Definition hangUpCall (reason : option string) (twilio : Outcome) : ToolResult :=
  match twilio with
  | Resolved => {| success := true; message := "Call ended: " +:+ render reason |}
  | Rejected e => {| success := false; message := "Failed to end call: " +:+ error_text e |}
  end.

(** [transferCall(callSid, destination, reason)], from the outcome of
    [twilioService.transferCall]. *)
Definition transferCall (destination reason : option string) (twilio : Outcome) : ToolResult :=
  match twilio with
  | Resolved =>
      {| success := true;
         message := "Call transferred to " +:+ render destination +:+ ": " +:+ render reason |}
  | Rejected e => {| success := false; message := "Failed to transfer call: " +:+ error_text e |}
  end.

(** The request [executeToolCall] makes before it suspends, if any.
    [args] is [None] when the tool call has no [args] object; reading a
    property of it then throws inside the [try]. *)
Definition request (callSid name : string) (args : option (list (string * string)))
    : option Request :=
  match args with
  | None => None
  | Some a =>
      if String.eqb name "hang_up_call" then Some (EndCall callSid)
      else if String.eqb name "transfer_call" then
        Some (TransferCall callSid (arg "destination" a))
      else None
  end.

(** [executeToolCall(callSid, toolCall)].  [type_error] is the message
    of the [TypeError] the engine throws for a property read on
    [undefined]; [twilio] is the outcome of the request, when one is
    made. *)
Definition executeToolCall (type_error : string) (callSid name : string)
    (args : option (list (string * string))) (twilio : Outcome) : ToolResult :=
  if String.eqb name "hang_up_call" then
    match args with
    | Some a => hangUpCall (arg "reason" a) twilio
    | None => {| success := false; message := "Tool execution failed: " +:+ type_error |}
    end
  else if String.eqb name "transfer_call" then
    match args with
    | Some a => transferCall (arg "destination" a) (arg "reason" a) twilio
    | None => {| success := false; message := "Tool execution failed: " +:+ type_error |}
    end
  else {| success := false; message := "Unknown tool: " +:+ name |}.

(** The call the orchestrator makes (line 396): the tool call is the
    element of [aiResponse.toolCalls]. *)
Definition execute (type_error : string) (callSid : string) (tc : ToolCall)
    (twilio : Outcome) : ToolResult :=
  executeToolCall type_error callSid (tc_name tc) (Some (tc_args tc)) twilio.

(** A call whose reply asked to hang up and then to transfer, when the
    first tool call is under way. *)
Definition awaiting_hang_up : State :=
  run (Support.until_tool Support.two_tools_reply)
      (accept 5000 7 Support.demo_conn ∅ ∅ [] Support.svc0).

End Tools.

(** ** The other methods of [AIService] *)

Module AIService.
Import Session Support.

(** *** [generateStreamingResponse] *)

(** Outcome of the streaming request: it rejects, or it yields chunks
    whose [choices[0]?.delta?.content] are listed in order; [breaks]
    tells whether the iteration throws after them. *)
Inductive StreamOutcome :=
| StreamRejected
| Stream (contents : list (option string)) (breaks : bool).

(** The [for await] loop: [fullResponse] and the calls of [onChunk]. *)
Fixpoint consume (contents : list (option string)) (fullResponse : string)
    (delivered : list string) : string * list string :=
  match contents with
  | [] => (fullResponse, delivered)
  | c :: r =>
      match JS.truthy c with
      | Some content => consume r (fullResponse +:+ content) (delivered ++ [content])
      | None => consume r fullResponse delivered
      end
  end.

Record StreamResult := {
  sr_result : Completion string;
  sr_chunks : list string;       (* arguments of the calls of [onChunk], in order *)
  sr_service : Service
}.

(** [generateStreamingResponse]; [t_user] and [t_reply] are the times
    of the two [new Date()]. *)
Definition generateStreamingResponse (userMessage callId : string) (t_user t_reply : Z)
    (out : StreamOutcome) (sv : Service) : StreamResult :=
  let '(history, sv1) := generateResponse_begin userMessage callId t_user sv in
  match out with
  | StreamRejected => {| sr_result := Thrown; sr_chunks := []; sr_service := sv1 |}
  | Stream contents breaks =>
      let '(fullResponse, delivered) := consume contents EmptyString [] in
      if breaks then {| sr_result := Thrown; sr_chunks := delivered; sr_service := sv1 |}
      else
        let sv2 :=
          push history
            [{| role := RAssistant; content := Some fullResponse; timestamp := Some t_reply |}]
            sv1 in
        let '(r, sv3) := alloc (JS.slice_last HISTORY_WINDOW (array_of history sv2)) sv2 in
        {| sr_result := Returned (JS.trim fullResponse); sr_chunks := delivered;
           sr_service := set_history callId r sv3 |}
  end.

(** *** [getConversationSummary] *)

Definition role_text (r : Role) : string :=
  match r with
  | RUser => "user"
  | RAssistant => "assistant"
  | RSystem => "system"
  end.

(** [`${msg.role}: ${msg.content}`]. *)
Definition summary_line (m : ConversationMessage) : string :=
  role_text (role m) +:+ ": " +:+ match content m with Some c => c | None => "undefined" end.

Definition summary_prompt (history : list ConversationMessage) : string :=
  "Summarize this conversation in 2-3 sentences:" +:+ nl +:+ nl +:+
  join nl (map summary_line history) +:+ nl +:+ nl +:+ "Summary:".

(** The method up to its [await]: it returns at once, or asks the
    backend with a prompt. *)
Inductive SummaryStep :=
| SummaryDone (summary : UTF16.JSString)
| SummaryAsk (prompt : string).

(** [completion.choices[0]?.message?.content], or the rejection of the
    request.  The content is inspected for white space, so it is a
    sequence of code units. *)
Inductive SummaryOutcome :=
| SummaryRejected
| SummaryNoContent
| SummaryContent (content : UTF16.JSString).

Definition getConversationSummary_begin (callId : string) (sv : Service) : SummaryStep :=
  let history := getConversationHistory callId sv in
  if length history =? 0 then SummaryDone (UTF16.literal "No conversation to summarize")
  else SummaryAsk (summary_prompt history).

(** From the completion of the backend call. *)
Definition getConversationSummary_end (out : SummaryOutcome) : UTF16.JSString :=
  match out with
  | SummaryRejected => UTF16.literal "Error generating summary"
  | SummaryNoContent => UTF16.trim (UTF16.literal "Unable to generate summary")
  | SummaryContent content =>
      let summary :=
        match content with
        | [] => UTF16.literal "Unable to generate summary"
        | _ :: _ => content
        end in
      UTF16.trim summary
  end.

Definition getConversationSummary (callId : string) (out : SummaryOutcome) (sv : Service)
    : UTF16.JSString :=
  match getConversationSummary_begin callId sv with
  | SummaryDone s => s
  | SummaryAsk _ => getConversationSummary_end out
  end.

(** *** [getStats] *)

Record AIStats := {
  activeConversations : nat;
  totalMessages : nat
}.

Definition getStats (sv : Service) : AIStats :=
  {| activeConversations := size (conversationHistory sv);
     totalMessages :=
       map_fold (fun _ r total => total + length (array_of r sv)) 0 (conversationHistory sv) |}.

(** *** [cleanupOldConversations] *)

Definition MS_PER_HOUR : Z := 60 * 60 * 1000.

(** The largest time value of a [Date]: 100 million days on either side
    of the epoch, in milliseconds. *)
Definition MAX_TIME : Z := 8640000000000000.

(** [new Date(v)] for an integer [v]: the time value of the date, or
    [None] for the Invalid Date that a value beyond [MAX_TIME] gives. *)
Definition new_Date (v : Z) : option Z :=
  if (Z.abs v <=? MAX_TIME)%Z then Some v else None.

(** [lastMessage?.timestamp && lastMessage.timestamp < cutoffTime].  A
    timestamp is the time value of a date made by [new Date()]; the
    comparison with an Invalid Date is false. *)
Definition stale (cutoffTime : option Z) (history : list ConversationMessage) : bool :=
  match last history with
  | Some lastMessage =>
      match timestamp lastMessage, cutoffTime with
      | Some t, Some c => (t <? c)%Z
      | _, _ => false
      end
  | None => false
  end.

(** The loop over [conversationHistory.entries()], deleting as it goes.
    The cut-off of line 990 is computed on numbers; it is the integer
    below when the clock reads a time value and the age limit is a whole
    number of hours whose milliseconds are a safe integer (at most
    [Number.MAX_SAFE_INTEGER], 9007199254740991): the difference is then
    exact up to that bound and beyond [MAX_TIME] above it. *)
Definition cleanupOldConversations (now maxAgeHours : Z) (sv : Service) : Service :=
  let cutoffTime := new_Date (now - maxAgeHours * MS_PER_HOUR) in
  map_fold
    (fun callId history acc =>
       if stale cutoffTime (array_of history sv) then clearConversationHistory callId acc
       else acc)
    sv (conversationHistory sv).

(** A request that fails before anything is stored. *)
Definition request_fails (out : ChatOutcome) : bool :=
  match out with
  | ChatRejected | ChatNoContent | ChatContent EmptyString => true
  | ChatContent _ => false
  end.

(** A conversation through [generateResponseWithTools]: the user
    messages with the outcomes of the backend calls. *)
Fixpoint converse (callId : string) (turns : list (string * ChatOutcome * Parsed))
    (sv : Service) : Service :=
  match turns with
  | [] => sv
  | (userMessage, out, parsed) :: rest =>
      converse callId rest (snd (generateResponseWithTools userMessage callId out parsed sv))
  end.

(** *** Well-formed stores *)

(** No two call identifiers hold the same array. *)
Definition distinct_refs (sv : Service) : Prop :=
  forall k1 k2 r,
    conversationHistory sv !! k1 = Some r -> conversationHistory sv !! k2 = Some r -> k1 = k2.

Definition store_ok (sv : Service) : Prop := refs_ok sv /\ distinct_refs sv.

(** The array [r] exists and no call identifier but [callId] holds it. *)
Definition owned (callId : string) (r : nat) (sv : Service) : Prop :=
  store_ok sv /\ r < length (arrays sv)
  /\ forall k, conversationHistory sv !! k = Some r -> k = callId.

End AIService.

(** ** The speech synthesis service: [ElevenLabsService.validateText] *)

Module ElevenLabs.

Record TextValidationResult := {
  isValid : bool;
  errors : list string
}.

Definition maxLength : Z := 5000.

(** [result.isValid = false; result.errors.push(e)]. *)
Definition reject (e : string) (result : TextValidationResult) : TextValidationResult :=
  {| isValid := false; errors := errors result ++ [e] |}.

(** [validateText(text)] for a string [text], a sequence of code units. *)
Definition validateText (text : UTF16.JSString) : TextValidationResult :=
  let result := {| isValid := true; errors := [] |} in
  let result :=
    match text with
    | [] => reject "Text must be a non-empty string" result
    | _ :: _ => result
    end in
  let result :=
    if (maxLength <? Z.of_nat (length text))%Z
    then reject ("Text length (" +:+ JS.string_of_Z (Z.of_nat (length text))
                 +:+ ") exceeds maximum (" +:+ JS.string_of_Z maxLength +:+ ")") result
    else result in
  if length (UTF16.trim text) =? 0
  then reject "Text cannot be empty or only whitespace" result else result.

End ElevenLabs.

(** ** What a step of the event loop may change *)

Module Frame.
Import Session Protocol.

(** A session object later in its life: identity and start are fixed,
    the two logs only grow, and [ENDED] is not left. *)
Definition grows (cs cs' : CallSession) : Prop :=
  callSid cs' = callSid cs
  /\ phoneNumber cs' = phoneNumber cs
  /\ startTime cs' = startTime cs
  /\ (exists more, transcripts cs' = transcripts cs ++ more)
  /\ (exists more, aiResponses cs' = aiResponses cs ++ more)
  /\ (status cs' = status cs \/ status cs' = ENDED).

Definition is_send (e : Effect) : bool :=
  match e with EffSend _ => true | _ => false end.

Definition is_deepgram_audio (e : Effect) : bool :=
  match e with EffDeepgramAudio _ _ => true | _ => false end.

Definition is_deepgram_open (e : Effect) : bool :=
  match e with EffDeepgramOpen _ => true | _ => false end.

Definition is_conn_close (e : Effect) : bool :=
  match e with EffConnClose => true | _ => false end.

(** Calls that are neither a write on the socket or its closing, nor a
    call on the speech backend's connection. *)
Definition plain (e : Effect) : bool :=
  negb (is_send e) && negb (is_deepgram_audio e) && negb (is_deepgram_open e)
  && negb (is_conn_close e).

(** From [s] to [s']: the session objects grow, the calls logged extend
    the log, a socket that is not open stays so and is not written to,
    audio is forwarded only to a speech connection that exists, the
    socket is closed by the server only while the idle timer is armed,
    and an entry of [activeCalls] is an old one or refers to a session
    with the call identifier it is filed under. *)
Record Moves (s s' : State) : Prop := {
  mv_sessions :
    forall r cs, sessions (world s) !! r = Some cs ->
      exists cs', sessions (world s') !! r = Some cs' /\ grows cs cs';
  mv_closed :
    is_open (connection (world s)) = false -> is_open (connection (world s')) = false;
  mv_trace :
    exists es,
      trace (lp s') = trace (lp s) ++ es
      /\ (is_open (connection (world s)) = false -> Forall (fun e => is_send e = false) es)
      /\ (deepgramConnection (cl s) = None ->
          Forall (fun e => is_deepgram_open e = false) es ->
          Forall (fun e => is_deepgram_audio e = false) es
          /\ deepgramConnection (cl s') = None)
      /\ (connectionTimeout (cl s) = false ->
          Forall (fun e => is_conn_close e = false) es
          /\ connectionTimeout (cl s') = false);
  mv_calls :
    forall k r, activeCalls (world s') !! k = Some r ->
      activeCalls (world s) !! k = Some r
      \/ exists cs, sessions (world s') !! r = Some cs /\ callSid cs = k
}.

(** Every entry of [state.activeCalls] refers to a session object that
    carries the call identifier it is filed under. *)
Definition registry_ok (s : State) : Prop :=
  forall k r, activeCalls (world s) !! k = Some r ->
    exists cs, sessions (world s) !! r = Some cs /\ callSid cs = k.

(** The events that close the socket: the close event of the
    connection, and the idle timeout while its timer is armed. *)
Definition closes (e : Event) (s : State) : Prop :=
  e = EvClose \/ (e = EvIdleTimeout /\ connectionTimeout (cl s) = true).

End Frame.

(** ** How far an orchestration is from its end *)

Module Progress.
Import Session Protocol.

(** An upper bound on the number of times the task can still be
    resumed; [None] while the reply, and with it the number of tool
    calls, is not known. *)
Definition remaining (ph : Phase) : option nat :=
  match ph with
  | AwaitAI _ _ _ => None
  | AwaitTTS _ calls => Some (6 + length (default [] calls))
  | AwaitAck _ calls => Some (5 + length calls)
  | AwaitTool _ _ rest _ => Some (4 + length rest)
  | AwaitFollowUpAI _ _ => Some 3
  | AwaitFollowUpTTS => Some 2
  | AwaitFallbackTTS => Some 1
  | AwaitGreetingTTS => Some 1
  end.

(** The phase has more than [n] resumptions left. *)
Definition above (n : nat) (ph : Phase) : Prop :=
  match remaining ph with
  | Some m => n < m
  | None => True
  end.

(** [ph'] is strictly nearer the end than [ph]. *)
Definition nearer (ph' ph : Phase) : Prop :=
  match remaining ph' with
  | Some n => above n ph
  | None => False
  end.

(** From [s] to [s'] no task known in [s] moves away from its end, and
    a task that has ended does not come back. *)
Definition Advances (s s' : State) : Prop :=
  next_id (lp s) <= next_id (lp s')
  /\ forall id, id < next_id (lp s) ->
       match phase_of id s' with
       | None => True
       | Some ph' =>
           match phase_of id s with
           | Some ph => ph' = ph \/ nearer ph' ph
           | None => False
           end
       end.

(** From [s] to [s'] the task [id] has ended or is strictly nearer its
    end. *)
Definition Resumed (id : nat) (s s' : State) : Prop :=
  Advances s s'
  /\ match phase_of id s' with
     | None => True
     | Some ph' => forall ph, phase_of id s = Some ph -> nearer ph' ph
     end.

(** The event is the completion the task [id] in phase [ph] awaits. *)
Definition completes (e : Event) (id : nat) (ph : Phase) : bool :=
  match e, ph with
  | EvAI i _ _, (AwaitAI _ _ _ | AwaitFollowUpAI _ _) => i =? id
  | EvTTS i _, (AwaitTTS _ _ | AwaitFollowUpTTS | AwaitFallbackTTS | AwaitGreetingTTS) => i =? id
  | EvTool i _, AwaitTool _ _ _ _ => i =? id
  | _, _ => false
  end.

(** The number of events of a run that are the completion the task
    [id] awaits when they arrive. *)
Fixpoint completions (id : nat) (evs : list (Z * Event)) (s : State) : nat :=
  match evs with
  | [] => 0
  | (now, e) :: rest =>
      match phase_of id s with
      | Some ph => if completes e id ph then 1 else 0
      | None => 0
      end + completions id rest (step now e s)
  end.

(** The task [id] has ended or has at most [n] resumptions left. *)
Definition within (id n : nat) (s : State) : Prop :=
  match phase_of id s with
  | Some ph =>
      match remaining ph with
      | Some m => m <= n
      | None => False
      end
  | None => True
  end.

End Progress.

(** ** What is left in the buffer when a reply is over *)

Module Drain.
Import Session Protocol Support.

(** The phases of [processConversation]; the greeting is spoken by its
    own timer callback. *)
Definition utterance (ph : Phase) : bool :=
  match ph with
  | AwaitGreetingTTS => false
  | _ => true
  end.

(** From [s] to [s'] an orchestration of an utterance that ends leaves
    the buffer empty, no greeting is started, and an empty buffer stays
    empty. *)
Record Drains (s s' : State) : Prop := {
  dr_ended :
    forall id ph, phase_of id s = Some ph -> utterance ph = true ->
      phase_of id s' = None -> conversationBuffer (cl s') = "";
  dr_phases :
    forall id ph', phase_of id s' = Some ph' ->
      utterance ph' = true \/ phase_of id s = Some ph';
  dr_empty :
    conversationBuffer (cl s) = "" -> conversationBuffer (cl s') = ""
}.

(** The quiet-window timers that fire at the times [ts]. *)
Definition quiet_timers (ts : list Z) : list (Z * Event) :=
  map (fun t => (t, EvQuietTimer)) ts.

(** The request for the first reply is rejected; a second fragment is
    heard while the apology of the service is synthesised. *)
Definition heard_meanwhile : State :=
  run [(5010, EvMessage (InStart "MZ1" "CA1") true);
       (6000, EvTranscript "a table for two" true None);
       (7000, EvQuietTimer);
       (7500, EvAI 1 ChatRejected NotJSON);
       (7600, EvTranscript "tonight at eight" true None)]%Z
      (accept 5000 7 demo_conn ∅ ∅ [] svc0).

End Drain.

(** * Properties *)

Import Support Base64 Audio Protocol Session.

(** ** Base64 and the audio output pipeline *)

Lemma forallb_below (P : N -> bool) (n : nat) :
  forallb P (below n) = true -> forall x, (x < N.of_nat n)%N -> P x = true.
Proof.
  intros H x Hx. rewrite forallb_forall in H. apply H.
  unfold below. apply in_map_iff. exists (N.to_nat x). split.
  - apply N2Nat.id.
  - apply in_seq. lia.
Qed.

Lemma sextet_ok_all : forallb sextet_ok (below 64) = true.
Proof. vm_compute. reflexivity. Qed.

Lemma dec6_enc6 n : (n < 64)%N -> dec6 (enc6 n) = Some n.
Proof.
  intros H. pose proof (forallb_below _ 64 sextet_ok_all n H) as E.
  unfold sextet_ok in E. apply andb_true_iff in E as [E _].
  destruct (dec6 (enc6 n)) as [m|]; [|discriminate].
  apply N.eqb_eq in E. congruence.
Qed.

Lemma enc6_not_pad n : (n < 64)%N -> Ascii.eqb (enc6 n) pad = false.
Proof.
  intros H. pose proof (forallb_below _ 64 sextet_ok_all n H) as E.
  unfold sextet_ok in E. apply andb_true_iff in E as [_ E].
  now apply negb_true_iff in E.
Qed.

Lemma pair_ok_all : forallb (fun x => forallb (pair_ok x) (below 256)) (below 256) = true.
Proof. vm_compute. reflexivity. Qed.

Lemma mid_ok_all : forallb (fun a => forallb (mid_ok a) (below 256)) (below 4) = true.
Proof. vm_compute. reflexivity. Qed.

Lemma low_ok_all : forallb low_ok (below 256) = true.
Proof. vm_compute. reflexivity. Qed.

Lemma byte_lt (b : byte) : (Byte.to_N b < N.of_nat 256)%N.
Proof. pose proof (Byte.to_N_bounded b). lia. Qed.

Lemma pair_facts (a b : byte) :
  let x := Byte.to_N a in
  let y := Byte.to_N b in
  (sext1 x < 64)%N /\ (sext2 x y < 64)%N /\ (sext3 x y < 64)%N /\ (sext4 x < 64)%N
  /\ oct1 (sext1 x) (sext2 x y) = x /\ oct3 (sext3 x y) (sext4 y) = y.
Proof.
  intros x y.
  pose proof (forallb_below _ 256 pair_ok_all x (byte_lt a)) as H. cbv beta in H.
  pose proof (forallb_below _ 256 H y (byte_lt b)) as E.
  unfold pair_ok in E.
  repeat (apply andb_true_iff in E as [E ?]).
  repeat match goal with
         | H : (_ <? _)%N = true |- _ => apply N.ltb_lt in H
         | H : (_ =? _)%N = true |- _ => apply N.eqb_eq in H
         end.
  repeat split; assumption.
Qed.

Lemma mid_fact (a b c : byte) :
  oct2 (sext2 (Byte.to_N a) (Byte.to_N b)) (sext3 (Byte.to_N b) (Byte.to_N c)) = Byte.to_N b.
Proof.
  pose proof (forallb_below _ 256 low_ok_all _ (byte_lt a)) as Ha.
  pose proof (forallb_below _ 256 low_ok_all _ (byte_lt c)) as Hc.
  unfold low_ok in Ha, Hc.
  apply andb_true_iff in Ha as [Ha _]. apply andb_true_iff in Hc as [_ Hc].
  apply N.ltb_lt in Ha, Hc.
  pose proof (forallb_below _ 4 mid_ok_all _ Ha) as H1. cbv beta in H1.
  pose proof (forallb_below _ 256 H1 _ (byte_lt b)) as H2. unfold mid_ok in H2.
  pose proof (forallb_below _ 4 H2 _ Hc) as H3. cbv beta in H3.
  apply N.eqb_eq in H3. exact H3.
Qed.

Lemma zero_byte : Byte.to_N x00 = 0%N.
Proof. reflexivity. Qed.

Lemma decode_group c1 c2 c3 c4 rest :
  decode (String c1 (String c2 (String c3 (String c4 rest)))) =
    (s1 ← dec6 c1;
     s2 ← dec6 c2;
     b1 ← Byte.of_N (oct1 s1 s2);
     if Ascii.eqb c3 pad then
       if Ascii.eqb c4 pad && is_empty rest then Some [b1] else None
     else
       s3 ← dec6 c3;
       b2 ← Byte.of_N (oct2 s2 s3);
       if Ascii.eqb c4 pad then
         if is_empty rest then Some [b1; b2] else None
       else
         s4 ← dec6 c4;
         b3 ← Byte.of_N (oct3 s3 s4);
         tl ← decode rest;
         Some (b1 :: b2 :: b3 :: tl)).
Proof. reflexivity. Qed.

Lemma list_ind3 {A} (P : list A -> Prop) :
  P [] -> (forall a, P [a]) -> (forall a b, P [a; b]) ->
  (forall a b c r, P r -> P (a :: b :: c :: r)) ->
  forall l, P l.
Proof.
  intros H0 H1 H2 H3.
  fix IH 1. intros [|a [|b [|c r]]].
  - exact H0.
  - apply H1.
  - apply H2.
  - apply H3, IH.
Qed.

Lemma decode_encode (bs : list byte) : decode (encode bs) = Some bs.
Proof.
  induction bs as [|a|a b|a b c r IH] using list_ind3.
  - reflexivity.
  - destruct (pair_facts a x00) as (h1 & h2 & _ & _ & e1 & _).
    rewrite zero_byte in *.
    cbn [encode]. rewrite decode_group.
    rewrite !dec6_enc6 by assumption. cbn [mbind option_bind].
    rewrite e1, Byte.of_to_N. reflexivity.
  - destruct (pair_facts a b) as (h1 & h2 & _ & _ & e1 & _).
    destruct (pair_facts b x00) as (_ & _ & h3 & _ & _ & _).
    pose proof (mid_fact a b x00) as e2.
    rewrite zero_byte in *.
    cbn [encode]. rewrite decode_group.
    rewrite !dec6_enc6 by assumption. cbn [mbind option_bind].
    rewrite e1, Byte.of_to_N. cbn [mbind option_bind].
    rewrite (enc6_not_pad _ h3).
    rewrite e2, Byte.of_to_N. reflexivity.
  - destruct (pair_facts a b) as (h1 & h2 & _ & _ & e1 & _).
    destruct (pair_facts b c) as (_ & _ & h3 & _ & _ & e3).
    destruct (pair_facts c c) as (_ & _ & _ & h4 & _ & _).
    pose proof (mid_fact a b c) as e2.
    cbn [encode]. rewrite decode_group.
    rewrite !dec6_enc6 by assumption. cbn [mbind option_bind].
    rewrite e1, Byte.of_to_N. cbn [mbind option_bind].
    rewrite (enc6_not_pad _ h3), (enc6_not_pad _ h4).
    rewrite e2, Byte.of_to_N. cbn [mbind option_bind].
    rewrite e3, Byte.of_to_N. cbn [mbind option_bind].
    rewrite IH. reflexivity.
Qed.


Lemma ceil_div_zero d : 0 < d -> ceil_div 0 d = 0.
Proof. intros H. unfold ceil_div. apply Nat.div_small. lia. Qed.

Lemma ceil_div_step n d : 0 < d -> 0 < n -> ceil_div n d = S (ceil_div (n - d) d).
Proof.
  intros Hd Hn. unfold ceil_div.
  destruct (Nat.le_gt_cases n d) as [Hle|Hgt].
  - replace (n - d) with 0 by lia. rewrite (Nat.div_small (0 + (d - 1)) d) by lia.
    replace (n + (d - 1)) with ((n - 1) + 1 * d) by lia.
    rewrite Nat.div_add by lia. rewrite Nat.div_small by lia. reflexivity.
  - replace (n + (d - 1)) with ((n - d + (d - 1)) + 1 * d) by lia.
    rewrite Nat.div_add by lia. lia.
Qed.



(** The names the closure generates are never empty. *)
Lemma fresh_mark_nonempty now : fresh_mark now <> EmptyString.
Proof. unfold fresh_mark. discriminate. Qed.





Example two_chunks :
  let r := sendAudioToTwilio demo_conn (Some "MZ1") 7 (repeat x41 4001) None in
  length (emitted r) = 3 /\ last (emitted r) = Some (MarkFrame "MZ1" "audio_7")
  /\ Base64.decode_all (media_payloads (emitted r)) = Some (repeat x41 4001).
Proof. vm_compute. repeat split; reflexivity. Qed.

(** ** The AI-response collaborator *)

(** C10.  [generateResponseWithTools] always returns a reply, whatever the
    backend does.  When the backend call rejects, the completion has no
    content, or the parsed JSON value has no properties ([null]), the
    reply is the fixed text asking the user to repeat, with no tool
    calls, and the history of the call is left as it was; the
    orchestrator then goes on to synthesise that text instead of taking
    its own failure branch. *)
Theorem generateResponseWithTools_never_raises
    (userMessage callId : string) (out : ChatOutcome) (parsed : Parsed) (sv : Service)
    (now : Z) (id history : nat) (s : State) :
  (exists r, fst (generateResponseWithTools userMessage callId out parsed sv) = Returned r)
  /\ (if ai_failure out parsed then
        fst (generateResponseWithTools userMessage callId out parsed sv)
          = Returned {| text := Some "I'm sorry, I encountered an error. Could you please repeat that?";
                        toolCalls := None |}
        /\ conversationHistory (snd (generateResponseWithTools userMessage callId out parsed sv))
             = conversationHistory sv
        /\ getConversationHistory callId (snd (generateResponseWithTools userMessage callId out parsed sv))
             = getConversationHistory callId sv
        /\ on_ai_reply now id userMessage callId history out parsed s
             = log [EffTTS id fallback_text]
                 (set_phase id (AwaitTTS userMessage None)
                    (upd_session
                       (push_response {| re_text := fallback_text; re_timestamp := now;
                                         re_processingTime := 0 |}) s))
      else True).
Proof.
  unfold generateResponseWithTools, generateResponseWithTools_begin.
  destruct (get_or_new callId sv) as [r sv1] eqn:G.
  split.
  - unfold generateResponseWithTools_end.
    destruct out as [| |[|a c]]; cbn; eauto.
    destruct parsed; cbn; eauto.
  - destruct (ai_failure out parsed) eqn:F; [|exact I].
    assert (E : forall h sv', generateResponseWithTools_end h userMessage callId out parsed sv'
                = (Returned fallback_response, sv')).
    { intros h sv'. unfold generateResponseWithTools_end.
      destruct out as [| |c]; try reflexivity.
      destruct c as [|a c]; [reflexivity|]. cbn in F |- *.
      destruct parsed; try discriminate. reflexivity. }
    rewrite E. cbn [fst snd].
    assert (Hc : conversationHistory sv1 = conversationHistory sv
                 /\ getConversationHistory callId sv1 = getConversationHistory callId sv).
    { unfold get_or_new in G. unfold getConversationHistory.
      destruct (conversationHistory sv !! callId) as [r0|] eqn:L.
      - inversion G; subst. rewrite L. auto.
      - inversion G; subst. cbn. rewrite L. auto. }
    destruct Hc as [Hc1 Hc2].
    repeat split; auto.
    unfold on_ai_reply. rewrite E. cbn.
    destruct s as [c w l]. destruct w. reflexivity.
Qed.

(** C8, at the failing input.  With 20 messages stored for the call,
    a successful [generateResponseWithTools] leaves 22 messages in the
    history, while the same call through [generateResponse] leaves 20. *)
Theorem history_exceeds_window_after_tools :
  length (getConversationHistory "CA1" svc20) = 20
  /\ length (getConversationHistory "CA1"
       (snd (generateResponseWithTools "hello" "CA1" (ChatContent "Hi there") NotJSON svc20))) = 22
  /\ length (getConversationHistory "CA1"
       (snd (generateResponse "hello" "CA1" 0 (ChatContent "Hi there") svc20))) = 20.
Proof. vm_compute. repeat split; reflexivity. Qed.

Example generateResponse_failure_leaves_push :
  length (getConversationHistory "CA1"
       (snd (generateResponse "hello" "CA1" 0 ChatRejected svc20))) = 21.
Proof. vm_compute. reflexivity. Qed.





(** ** Record updates of the closure state *)

Ltac state_cbv :=
  cbv beta iota zeta delta
    [log upd_cl upd_world upd_lp
     set_callSession set_streamSid set_connectionTimeout set_deepgramConnection
     set_conversationBuffer set_lastSpeechTime
     set_activeCalls set_activeConnections set_sessions set_ai set_connection
     set_transcriptHandlers set_quietTimers set_greetingTimers set_tasks set_acks
     set_next_id set_trace
     cl world lp
     connectionId callSession streamSid connectionTimeout deepgramConnection
     conversationBuffer lastSpeechTime
     activeCalls activeConnections sessions ai connection
     transcriptHandlers quietTimers greetingTimers tasks acks next_id trace
     current_callSid session_of].

(** ** Cleanup *)

Lemma cleanup_eq (s : State) :
  cleanup s =
    {| cl := set_deepgramConnection None (set_connectionTimeout false (cl s));
       world :=
         set_activeCalls
           match callSession (cl s) with
           | Some _ => delete (current_callSid s) (activeCalls (world s))
           | None => activeCalls (world s)
           end
           (set_activeConnections
              (delete (connectionId (cl s)) (activeConnections (world s))) (world s));
       lp := set_trace (trace (lp s) ++ cleanup_calls s) (lp s) |}.
Proof.
  destruct s as [[cid cs ssid ct dg buf lst] [calls conns objs svc conn] [th qt gt ts aks nid tr]].
  unfold cleanup, cleanup_calls.
  destruct ct, dg as [h|], cs as [r|].
  all: state_cbv.
  all: cbn [app].
  all: rewrite <- ?app_assoc.
  all: reflexivity.
Qed.

(** C7.  Running [cleanup] a second time leaves the closure variables,
    the registries and the event loop as the first run left them.  One
    run makes its calls in this order: [clearTimeout] when the idle
    timer handle is set, the close request to the speech backend when a
    connection to it exists, the removal of the connection from the
    registry, and the removal of the call from the session map when a
    session exists.  A second run repeats only the two removals, which
    find nothing to remove.  The key removed from the session map is the
    call identifier of the session object the closure holds: that entry
    is gone afterwards and every other entry is kept. *)
Theorem cleanup_idempotent_and_ordered (s : State) :
  observable (cleanup (cleanup s)) = observable (cleanup s)
  /\ trace (lp (cleanup s)) =
       trace (lp s)
       ++ (if connectionTimeout (cl s) then [EffClearIdle] else [])
       ++ match deepgramConnection (cl s) with Some h => [EffDeepgramClose h] | None => [] end
       ++ [EffDelConnection (connectionId (cl s))]
       ++ match callSession (cl s) with Some _ => [EffDelCall (current_callSid s)] | None => [] end
  /\ trace (lp (cleanup (cleanup s))) =
       trace (lp (cleanup s))
       ++ [EffDelConnection (connectionId (cl s))]
       ++ match callSession (cl s) with Some _ => [EffDelCall (current_callSid s)] | None => [] end
  /\ connectionTimeout (cl (cleanup s)) = false
  /\ deepgramConnection (cl (cleanup s)) = None
  /\ activeConnections (world (cleanup s)) = delete (connectionId (cl s)) (activeConnections (world s))
  /\ activeCalls (world (cleanup s)) =
       match callSession (cl s) with
       | Some _ => delete (current_callSid s) (activeCalls (world s))
       | None => activeCalls (world s)
       end
  /\ (forall r session,
        callSession (cl s) = Some r -> sessions (world s) !! r = Some session ->
        current_callSid s = callSid session
        /\ last (trace (lp (cleanup s))) = Some (EffDelCall (callSid session))
        /\ activeCalls (world (cleanup s)) !! callSid session = None
        /\ (forall k, k <> callSid session ->
              activeCalls (world (cleanup s)) !! k = activeCalls (world s) !! k)
        /\ sessions (world (cleanup s)) = sessions (world s))
  /\ (callSession (cl s) = None ->
        activeCalls (world (cleanup s)) = activeCalls (world s)
        /\ last (trace (lp (cleanup s))) = Some (EffDelConnection (connectionId (cl s)))).
Proof.
  rewrite (cleanup_eq (cleanup s)). rewrite !(cleanup_eq s).
  destruct s as [[cid cs ssid ct dg buf lst] [calls conns objs svc conn] [th qt gt ts aks nid tr]].
  unfold observable, cleanup_calls. state_cbv. rewrite !delete_delete_eq.
  split; [destruct cs; rewrite ?delete_delete_eq; reflexivity|].
  do 6 (split; [destruct cs; reflexivity|]).
  split.
  - intros r session -> L. rewrite L.
    split; [reflexivity|]. split; [rewrite !app_assoc; apply last_snoc|].
    split; [apply lookup_delete_eq|]. split; [|reflexivity].
    intros k Hk. apply lookup_delete_ne. congruence.
  - intros ->. split; [reflexivity|]. rewrite app_nil_r, !app_assoc. apply last_snoc.
Qed.

(** ** Projections of the state updates *)

Create Rewrite HintDb st.

Lemma cl_log es s : cl (log es s) = cl s.
Proof. reflexivity. Qed.

Lemma world_log es s : world (log es s) = world s.
Proof. reflexivity. Qed.

Lemma transcriptHandlers_log es s : transcriptHandlers (lp (log es s)) = transcriptHandlers (lp s).
Proof. reflexivity. Qed.

Lemma quietTimers_log es s : quietTimers (lp (log es s)) = quietTimers (lp s).
Proof. reflexivity. Qed.

Lemma greetingTimers_log es s : greetingTimers (lp (log es s)) = greetingTimers (lp s).
Proof. reflexivity. Qed.

Lemma tasks_log es s : tasks (lp (log es s)) = tasks (lp s).
Proof. reflexivity. Qed.

Lemma acks_log es s : acks (lp (log es s)) = acks (lp s).
Proof. reflexivity. Qed.

Lemma next_id_log es s : next_id (lp (log es s)) = next_id (lp s).
Proof. reflexivity. Qed.

Lemma trace_log es s : trace (lp (log es s)) = trace (lp s) ++ es.
Proof. reflexivity. Qed.

Lemma cl_set_phase id ph s : cl (set_phase id ph s) = cl s.
Proof. reflexivity. Qed.

Lemma world_set_phase id ph s : world (set_phase id ph s) = world s.
Proof. reflexivity. Qed.

Lemma transcriptHandlers_set_phase id ph s : transcriptHandlers (lp (set_phase id ph s)) = transcriptHandlers (lp s).
Proof. reflexivity. Qed.

Lemma quietTimers_set_phase id ph s : quietTimers (lp (set_phase id ph s)) = quietTimers (lp s).
Proof. reflexivity. Qed.

Lemma greetingTimers_set_phase id ph s : greetingTimers (lp (set_phase id ph s)) = greetingTimers (lp s).
Proof. reflexivity. Qed.

Lemma tasks_set_phase id ph s : tasks (lp (set_phase id ph s)) = assoc_set id ph (tasks (lp s)).
Proof. reflexivity. Qed.

Lemma acks_set_phase id ph s : acks (lp (set_phase id ph s)) = acks (lp s).
Proof. reflexivity. Qed.

Lemma next_id_set_phase id ph s : next_id (lp (set_phase id ph s)) = next_id (lp s).
Proof. reflexivity. Qed.

Lemma trace_set_phase id ph s : trace (lp (set_phase id ph s)) = trace (lp s).
Proof. reflexivity. Qed.

Lemma cl_drop_task id s : cl (drop_task id s) = cl s.
Proof. reflexivity. Qed.

Lemma world_drop_task id s : world (drop_task id s) = world s.
Proof. reflexivity. Qed.

Lemma transcriptHandlers_drop_task id s : transcriptHandlers (lp (drop_task id s)) = transcriptHandlers (lp s).
Proof. reflexivity. Qed.

Lemma quietTimers_drop_task id s : quietTimers (lp (drop_task id s)) = quietTimers (lp s).
Proof. reflexivity. Qed.

Lemma greetingTimers_drop_task id s : greetingTimers (lp (drop_task id s)) = greetingTimers (lp s).
Proof. reflexivity. Qed.

Lemma tasks_drop_task id s : tasks (lp (drop_task id s)) = assoc_del id (tasks (lp s)).
Proof. reflexivity. Qed.

Lemma acks_drop_task id s : acks (lp (drop_task id s)) = acks (lp s).
Proof. reflexivity. Qed.

Lemma next_id_drop_task id s : next_id (lp (drop_task id s)) = next_id (lp s).
Proof. reflexivity. Qed.

Lemma trace_drop_task id s : trace (lp (drop_task id s)) = trace (lp s).
Proof. reflexivity. Qed.

Lemma cl_add_ack id pa s : cl (add_ack id pa s) = cl s.
Proof. reflexivity. Qed.

Lemma world_add_ack id pa s : world (add_ack id pa s) = world s.
Proof. reflexivity. Qed.

Lemma transcriptHandlers_add_ack id pa s : transcriptHandlers (lp (add_ack id pa s)) = transcriptHandlers (lp s).
Proof. reflexivity. Qed.

Lemma quietTimers_add_ack id pa s : quietTimers (lp (add_ack id pa s)) = quietTimers (lp s).
Proof. reflexivity. Qed.

Lemma greetingTimers_add_ack id pa s : greetingTimers (lp (add_ack id pa s)) = greetingTimers (lp s).
Proof. reflexivity. Qed.

Lemma tasks_add_ack id pa s : tasks (lp (add_ack id pa s)) = tasks (lp s).
Proof. reflexivity. Qed.

Lemma acks_add_ack id pa s : acks (lp (add_ack id pa s)) = acks (lp s) ++ [(id, pa)].
Proof. reflexivity. Qed.

Lemma next_id_add_ack id pa s : next_id (lp (add_ack id pa s)) = next_id (lp s).
Proof. reflexivity. Qed.

Lemma trace_add_ack id pa s : trace (lp (add_ack id pa s)) = trace (lp s).
Proof. reflexivity. Qed.

Lemma cl_set_ack id pa s : cl (set_ack id pa s) = cl s.
Proof. reflexivity. Qed.

Lemma world_set_ack id pa s : world (set_ack id pa s) = world s.
Proof. reflexivity. Qed.

Lemma transcriptHandlers_set_ack id pa s : transcriptHandlers (lp (set_ack id pa s)) = transcriptHandlers (lp s).
Proof. reflexivity. Qed.

Lemma quietTimers_set_ack id pa s : quietTimers (lp (set_ack id pa s)) = quietTimers (lp s).
Proof. reflexivity. Qed.

Lemma greetingTimers_set_ack id pa s : greetingTimers (lp (set_ack id pa s)) = greetingTimers (lp s).
Proof. reflexivity. Qed.

Lemma tasks_set_ack id pa s : tasks (lp (set_ack id pa s)) = tasks (lp s).
Proof. reflexivity. Qed.

Lemma acks_set_ack id pa s : acks (lp (set_ack id pa s)) = assoc_set id pa (acks (lp s)).
Proof. reflexivity. Qed.

Lemma next_id_set_ack id pa s : next_id (lp (set_ack id pa s)) = next_id (lp s).
Proof. reflexivity. Qed.

Lemma trace_set_ack id pa s : trace (lp (set_ack id pa s)) = trace (lp s).
Proof. reflexivity. Qed.

Lemma cl_upd_cl f s : cl (upd_cl f s) = f (cl s).
Proof. reflexivity. Qed.

Lemma world_upd_cl f s : world (upd_cl f s) = world s.
Proof. reflexivity. Qed.

Lemma lp_upd_cl f s : lp (upd_cl f s) = lp s.
Proof. reflexivity. Qed.

Lemma cl_upd_world f s : cl (upd_world f s) = cl s.
Proof. reflexivity. Qed.

Lemma world_upd_world f s : world (upd_world f s) = f (world s).
Proof. reflexivity. Qed.

Lemma lp_upd_world f s : lp (upd_world f s) = lp s.
Proof. reflexivity. Qed.

Lemma cl_upd_lp f s : cl (upd_lp f s) = cl s.
Proof. reflexivity. Qed.

Lemma world_upd_lp f s : world (upd_lp f s) = world s.
Proof. reflexivity. Qed.

Lemma lp_upd_lp f s : lp (upd_lp f s) = f (lp s).
Proof. reflexivity. Qed.

#[global] Hint Rewrite
  cl_log world_log transcriptHandlers_log quietTimers_log greetingTimers_log
  tasks_log acks_log next_id_log trace_log cl_set_phase
  world_set_phase transcriptHandlers_set_phase quietTimers_set_phase greetingTimers_set_phase tasks_set_phase
  acks_set_phase next_id_set_phase trace_set_phase cl_drop_task world_drop_task
  transcriptHandlers_drop_task quietTimers_drop_task greetingTimers_drop_task tasks_drop_task acks_drop_task
  next_id_drop_task trace_drop_task cl_add_ack world_add_ack transcriptHandlers_add_ack
  quietTimers_add_ack greetingTimers_add_ack tasks_add_ack acks_add_ack next_id_add_ack
  trace_add_ack cl_set_ack world_set_ack transcriptHandlers_set_ack quietTimers_set_ack
  greetingTimers_set_ack tasks_set_ack acks_set_ack next_id_set_ack trace_set_ack
  cl_upd_cl world_upd_cl lp_upd_cl cl_upd_world world_upd_world
  lp_upd_world cl_upd_lp world_upd_lp lp_upd_lp
  : st.

(** ** Association lists keyed by task identifiers *)

Section Assoc.
Context {A : Type}.
Implicit Types (l : list (nat * A)) (id k : nat) (v x : A).

Lemma assoc_get_In id l x : assoc_get id l = Some x -> In (id, x) l.
Proof.
  induction l as [|[k y] l IH]; cbn; [discriminate|].
  destruct (Nat.eqb_spec k id) as [->|Hne].
  - intros [= ->]. auto.
  - auto.
Qed.

Lemma assoc_get_fst id l x : assoc_get id l = Some x -> In id (map fst l).
Proof. intros H. apply assoc_get_In in H. apply (in_map fst) in H. exact H. Qed.

Lemma assoc_get_None id l : ~ In id (map fst l) -> assoc_get id l = None.
Proof.
  destruct (assoc_get id l) eqn:E; [|reflexivity].
  intros H. destruct H. eapply assoc_get_fst; eauto.
Qed.

Lemma assoc_get_nodup id l x : List.NoDup (map fst l) -> In (id, x) l -> assoc_get id l = Some x.
Proof.
  induction l as [|[k y] l IH]; cbn; [tauto|].
  intros Hnd [E|Hin].
  - injection E as -> ->. now rewrite Nat.eqb_refl.
  - apply List.NoDup_cons_iff in Hnd as [Hk Hnd].
    destruct (Nat.eqb_spec k id) as [->|Hne]; [|auto].
    destruct Hk. apply (in_map fst) in Hin. exact Hin.
Qed.

Lemma assoc_get_app id l l' :
  assoc_get id (l ++ l') =
    match assoc_get id l with Some x => Some x | None => assoc_get id l' end.
Proof.
  induction l as [|[k y] l IH]; cbn; [reflexivity|].
  destruct (k =? id); auto.
Qed.

Lemma map_fst_assoc_set id v l : map fst (assoc_set id v l) = map fst l.
Proof.
  induction l as [|[k y] l IH]; cbn; [reflexivity|].
  destruct (Nat.eqb_spec k id) as [->|Hne]; cbn; congruence.
Qed.

Lemma assoc_get_set id k v l :
  assoc_get k (assoc_set id v l) =
    if k =? id then match assoc_get id l with Some _ => Some v | None => None end
    else assoc_get k l.
Proof.
  induction l as [|[j y] l IH]; cbn.
  - destruct (k =? id); reflexivity.
  - destruct (Nat.eqb_spec j id) as [->|Hne]; cbn.
    + destruct (Nat.eqb_spec k id) as [->|Hk].
      * now rewrite Nat.eqb_refl.
      * destruct (Nat.eqb_spec id k); [congruence|reflexivity].
    + destruct (Nat.eqb_spec j k) as [->|Hjk].
      * destruct (Nat.eqb_spec k id); [congruence|reflexivity].
      * exact IH.
Qed.

Lemma in_assoc_set id v l k x :
  In (k, x) (assoc_set id v l) ->
  In (k, x) l \/ (k = id /\ x = v /\ exists y, assoc_get id l = Some y).
Proof.
  induction l as [|[j y] l IH]; cbn; [tauto|].
  destruct (Nat.eqb_spec j id) as [->|Hne]; cbn.
  - intros [E|H]; [injection E as -> ->|]; eauto 6.
  - intros [E|H]; [auto|]. destruct (IH H); auto.
Qed.

Lemma in_assoc_set_nodup id v l x :
  List.NoDup (map fst l) -> In (id, x) (assoc_set id v l) -> x = v.
Proof.
  induction l as [|[j y] l IH]; cbn; [tauto|].
  intros Hnd. apply List.NoDup_cons_iff in Hnd as [Hj Hnd].
  destruct (Nat.eqb_spec j id) as [->|Hne]; cbn.
  - intros [E|H]; [now injection E|].
    destruct Hj. apply (in_map fst) in H. exact H.
  - intros [E|H]; [injection E; congruence | auto].
Qed.

Lemma assoc_get_del id k l :
  assoc_get k (assoc_del id l) = if k =? id then None else assoc_get k l.
Proof.
  unfold assoc_del. induction l as [|[j y] l IH]; cbn.
  - destruct (k =? id); reflexivity.
  - destruct (Nat.eqb_spec j id) as [->|Hne]; cbn.
    + rewrite IH. destruct (Nat.eqb_spec k id) as [->|Hk]; [reflexivity|].
      destruct (Nat.eqb_spec id k); [congruence|reflexivity].
    + rewrite IH. destruct (Nat.eqb_spec j k) as [->|Hjk]; [|reflexivity].
      destruct (Nat.eqb_spec k id); [congruence|reflexivity].
Qed.

Lemma in_fst_assoc_del id k l :
  In k (map fst (assoc_del id l)) -> In k (map fst l) /\ k <> id.
Proof.
  unfold assoc_del. rewrite in_map_iff. intros ([j y] & <- & H).
  apply filter_In in H as [H1 H2]. cbn in *. split.
  - apply (in_map fst) in H1. exact H1.
  - apply negb_true_iff, Nat.eqb_neq in H2. exact H2.
Qed.

End Assoc.

(** ** Invariants of the event loop *)

Lemma resolved_app id tr es : resolved id tr -> resolved id (tr ++ es).
Proof. intros [c H]. exists c. apply in_or_app. auto. Qed.

Lemma resolved_here id c tr es :
  In (Ack.Resolve c true) es -> resolved id (tr ++ map (EffAck id) es).
Proof.
  intros H. exists c. apply in_or_app. right. apply in_map_iff. eauto.
Qed.

Lemma tools_app_quiet tr es :
  tools_after_resolution tr -> Forall (fun e => is_tool_exec e = false) es ->
  tools_after_resolution (tr ++ es).
Proof.
  intros Ht Hq pre id sid tc post E.
  apply app_eq_app in E as [l [[E1 E2]|[E1 E2]]].
  - destruct l as [|e l].
    + cbn in E2. subst es. apply Forall_inv in Hq. discriminate.
    + injection E2 as <- _. eapply Ht. exact E1.
  - rewrite List.Forall_forall in Hq.
    specialize (Hq (EffToolExec id sid tc)). discriminate Hq.
    rewrite E2. apply in_or_app. right. left. reflexivity.
Qed.

Lemma tools_app_tool tr id sid tc :
  tools_after_resolution tr -> resolved id tr ->
  tools_after_resolution (tr ++ [EffToolExec id sid tc]).
Proof.
  intros Ht Hr pre id' sid' tc' post E.
  apply app_eq_app in E as [l [[E1 E2]|[E1 E2]]].
  - destruct l as [|e l].
    + cbn in E2. injection E2 as <- _ _ _. rewrite app_nil_r in E1. subst pre. exact Hr.
    + injection E2 as <- _. eapply Ht. exact E1.
  - destruct l as [|e l].
    + cbn in E2. injection E2 as -> _ _ _. rewrite app_nil_r in E1. subst pre. exact Hr.
    + injection E2 as _ E2. destruct l; discriminate.
Qed.

Lemma in_ack_not_tool ph : in_ack ph = true -> in_tool ph = false.
Proof. destruct ph; cbn; congruence. Qed.

Lemma in_ack_not_early ph : in_ack ph = true -> early ph = false.
Proof. destruct ph; cbn; congruence. Qed.

Ltac inv_start :=
  let H1 := fresh "Htools" in let H2 := fresh "Htool" in let H3 := fresh "Hft" in
  let H4 := fresh "Hfa" in let H5 := fresh "Hnd" in let H6 := fresh "Hout" in
  let H7 := fresh "Hearly" in
  intros [H1 H2 H3 H4 H5 H6 H7].

Lemma Inv_log es s :
  Inv s -> Forall (fun e => is_tool_exec e = false) es -> Inv (log es s).
Proof.
  inv_start. intros Hq.
  constructor; unfold phase_of in *; autorewrite with st; auto.
  - now apply tools_app_quiet.
  - intros. eapply resolved_app; eauto.
Qed.

Lemma Inv_log_tool id sid tc s :
  Inv s -> resolved id (trace (lp s)) -> Inv (log [EffToolExec id sid tc] s).
Proof.
  inv_start. intros Hr.
  constructor; unfold phase_of in *; autorewrite with st; auto.
  - now apply tools_app_tool.
  - intros. eapply resolved_app; eauto.
Qed.

Lemma Inv_upd_cl f s : Inv s -> Inv (upd_cl f s).
Proof. inv_start. constructor; unfold phase_of in *; autorewrite with st; auto. Qed.

Lemma Inv_upd_world f s : Inv s -> Inv (upd_world f s).
Proof. inv_start. constructor; unfold phase_of in *; autorewrite with st; auto. Qed.

Lemma Inv_upd_session f s : Inv s -> Inv (upd_session f s).
Proof. intros H. unfold upd_session. destruct (callSession (cl s)); [apply Inv_upd_world|]; exact H. Qed.

Lemma Inv_upd_lp f s :
  Inv s ->
  tasks (f (lp s)) = tasks (lp s) -> acks (f (lp s)) = acks (lp s) ->
  trace (f (lp s)) = trace (lp s) -> next_id (lp s) <= next_id (f (lp s)) ->
  Inv (upd_lp f s).
Proof.
  inv_start. intros E1 E2 E3 E4.
  constructor; unfold phase_of in *; autorewrite with st; rewrite ?E1, ?E2, ?E3; auto.
  - intros id H. apply Hft in H. lia.
  - intros id H. apply Hfa in H. lia.
Qed.

Lemma Inv_set_phase id ph' s :
  Inv s ->
  (in_tool ph' = true -> resolved id (trace (lp s))) ->
  (in_ack ph' = true \/ acks_settled id s) ->
  (early ph' = true -> ~ In id (map fst (acks (lp s)))) ->
  Inv (set_phase id ph' s).
Proof.
  inv_start. intros Ht Ha He.
  constructor; unfold phase_of in *; autorewrite with st; auto.
  - intros id0 ph0. rewrite assoc_get_set.
    destruct (Nat.eqb_spec id0 id) as [->|Hne]; [|apply Htool].
    destruct (assoc_get id (tasks (lp s))); [|discriminate].
    intros [= <-]. exact Ht.
  - rewrite map_fst_assoc_set. exact Hft.
  - intros id0 pa Hin Hs. destruct (Hout id0 pa Hin Hs) as (ph0 & E & A).
    rewrite assoc_get_set. destruct (Nat.eqb_spec id0 id) as [->|Hne]; [|eauto].
    rewrite E. exists ph'. split; [reflexivity|]. destruct Ha as [Ha|Ha]; [exact Ha|].
    rewrite (Ha pa Hin) in Hs. discriminate.
  - intros id0 ph0. rewrite assoc_get_set.
    destruct (Nat.eqb_spec id0 id) as [->|Hne]; [|apply Hearly].
    destruct (assoc_get id (tasks (lp s))); [|discriminate].
    intros [= <-]. exact He.
Qed.

Lemma tasks_spawn ph s : tasks (lp (snd (spawn ph s))) = tasks (lp s) ++ [(next_id (lp s), ph)].
Proof. reflexivity. Qed.
Lemma acks_spawn ph s : acks (lp (snd (spawn ph s))) = acks (lp s).
Proof. reflexivity. Qed.
Lemma next_id_spawn ph s : next_id (lp (snd (spawn ph s))) = S (next_id (lp s)).
Proof. reflexivity. Qed.
Lemma trace_spawn ph s : trace (lp (snd (spawn ph s))) = trace (lp s).
Proof. reflexivity. Qed.
Lemma cl_spawn ph s : cl (snd (spawn ph s)) = cl s.
Proof. reflexivity. Qed.
Lemma world_spawn ph s : world (snd (spawn ph s)) = world s.
Proof. reflexivity. Qed.
Lemma fst_spawn ph s : fst (spawn ph s) = next_id (lp s).
Proof. reflexivity. Qed.
#[global] Hint Rewrite tasks_spawn acks_spawn next_id_spawn trace_spawn cl_spawn world_spawn fst_spawn : st.

Lemma Inv_spawn ph s :
  Inv s -> in_tool ph = false -> Inv (snd (spawn ph s)).
Proof.
  inv_start. intros Hph.
  constructor; unfold phase_of in *; autorewrite with st; auto.
  - intros id0 ph0. rewrite assoc_get_app. destruct (assoc_get id0 (tasks (lp s))) eqn:E.
    + intros [= <-]. eauto.
    + cbn. destruct (next_id (lp s) =? id0); [|discriminate]. intros [= <-]. congruence.
  - intros id0. rewrite map_app, in_app_iff. cbn. intros [H|[<-|[]]]; [apply Hft in H|]; lia.
  - intros id0 H. apply Hfa in H. lia.
  - intros id0 pa Hin Hs. destruct (Hout id0 pa Hin Hs) as (ph0 & E & A).
    exists ph0. rewrite assoc_get_app, E. auto.
  - intros id0 ph0. rewrite assoc_get_app. destruct (assoc_get id0 (tasks (lp s))) eqn:E.
    + intros [= <-]. eauto.
    + cbn. destruct (Nat.eqb_spec (next_id (lp s)) id0) as [<-|]; [|discriminate].
      intros _ _ H. apply Hfa in H. lia.
Qed.

Lemma Inv_drop id s : Inv s -> acks_settled id s -> Inv (drop_task id s).
Proof.
  inv_start. intros Hs.
  constructor; unfold phase_of in *; autorewrite with st; auto.
  - intros id0 ph0. rewrite assoc_get_del. destruct (id0 =? id); [discriminate|apply Htool].
  - intros id0 H. apply in_fst_assoc_del in H as [H _]. auto.
  - intros id0 pa Hin Hu. destruct (Hout id0 pa Hin Hu) as (ph0 & E & A).
    rewrite assoc_get_del. destruct (Nat.eqb_spec id0 id) as [->|Hne]; [|eauto].
    rewrite (Hs pa Hin) in Hu. discriminate.
  - intros id0 ph0. rewrite assoc_get_del. destruct (id0 =? id); [discriminate|apply Hearly].
Qed.

Lemma NoDup_snoc {A} (l : list A) (x : A) : List.NoDup l -> ~ In x l -> List.NoDup (l ++ [x]).
Proof.
  induction 1 as [|y l Hy Hl IH]; cbn; intros Hx.
  - constructor; [tauto|constructor].
  - constructor.
    + rewrite in_app_iff. cbn. intros [H|[->|[]]]; tauto.
    + apply IH. tauto.
Qed.

Lemma Inv_add_ack id pa ph' s :
  Inv s -> ~ In id (map fst (acks (lp s))) -> is_Some (phase_of id s) ->
  in_ack ph' = true ->
  Inv (set_phase id ph' (add_ack id pa s)).
Proof.
  inv_start. intros Hid [ph Hph] Hph'.
  constructor; unfold phase_of in *; autorewrite with st; auto.
  - intros id0 ph0. rewrite assoc_get_set.
    destruct (Nat.eqb_spec id0 id) as [->|Hne]; [|apply Htool].
    rewrite Hph. intros [= <-]. rewrite in_ack_not_tool by assumption. discriminate.
  - rewrite map_fst_assoc_set. exact Hft.
  - intros id0. rewrite map_app, in_app_iff. cbn. intros [H|[<-|[]]]; [auto|].
    apply Hft. eapply assoc_get_fst; eauto.
  - rewrite map_app. apply NoDup_snoc; assumption.
  - intros id0 pa0. rewrite in_app_iff. cbn. rewrite assoc_get_set.
    intros [Hin|[[= <- <-]|[]]] Hu.
    + destruct (Hout id0 pa0 Hin Hu) as (ph0 & E & A).
      destruct (Nat.eqb_spec id0 id) as [->|Hne]; [|eauto].
      destruct Hid. apply (in_map fst) in Hin. exact Hin.
    + rewrite Nat.eqb_refl, Hph. eauto.
  - intros id0 ph0. rewrite assoc_get_set.
    destruct (Nat.eqb_spec id0 id) as [->|Hne].
    + rewrite Hph. intros [= <-]. rewrite in_ack_not_early by assumption. discriminate.
    + intros E He. rewrite map_app, in_app_iff. cbn. intros [H|[H|[]]]; [|congruence].
      eapply Hearly; eauto.
Qed.

Lemma Inv_set_ack id pa' s :
  Inv s ->
  (forall pa, assoc_get id (acks (lp s)) = Some pa ->
     Ack.settled pa = true -> Ack.settled pa' = true) ->
  Inv (set_ack id pa' s).
Proof.
  inv_start. intros Hmono.
  constructor; unfold phase_of in *; autorewrite with st; rewrite ?map_fst_assoc_set; auto.
  intros id0 pa0 Hin Hu. apply in_assoc_set in Hin as [Hin|(-> & -> & pa & E)]; [eauto|].
  apply (Hout id pa); [now apply assoc_get_In|].
  destruct (Ack.settled pa) eqn:S; [|reflexivity].
  rewrite (Hmono pa E S) in Hu. discriminate.
Qed.

Lemma lp_upd_session f s : lp (upd_session f s) = lp s.
Proof. unfold upd_session. destruct (callSession (cl s)); reflexivity. Qed.
Lemma cl_upd_session f s : cl (upd_session f s) = cl s.
Proof. unfold upd_session. destruct (callSession (cl s)); reflexivity. Qed.
Lemma lp_send_audio now audio mark s :
  lp (fst (send_audio now audio mark s)) =
    set_trace (trace (lp s)
               ++ map EffSend (emitted (sendAudioToTwilio (connection (world s))
                                          (streamSid (cl s)) now audio mark))) (lp s).
Proof. reflexivity. Qed.
Lemma cl_send_audio now audio mark s : cl (fst (send_audio now audio mark s)) = cl s.
Proof. reflexivity. Qed.
#[global] Hint Rewrite lp_upd_session cl_upd_session cl_send_audio : st.

Lemma quiet_sends fs : Forall (fun e => is_tool_exec e = false) (map EffSend fs).
Proof. induction fs; cbn; constructor; auto. Qed.

Lemma quiet_acks id es : Forall (fun e => is_tool_exec e = false) (map (EffAck id) es).
Proof. induction es; cbn; constructor; auto. Qed.

Ltac quiet := solve [repeat constructor | apply quiet_sends | apply quiet_acks].

Ltac inv_frames :=
  repeat first
    [ assumption
    | apply Inv_upd_cl
    | apply Inv_upd_world
    | apply Inv_upd_session
    | apply Inv_log; [|quiet]
    | apply Inv_upd_lp; [|reflexivity|reflexivity|reflexivity|cbn; lia] ].

Lemma acks_settled_frame id s s' :
  acks (lp s') = acks (lp s) -> acks_settled id s -> acks_settled id s'.
Proof. unfold acks_settled. intros ->. auto. Qed.

Lemma settled_not_ack id ph s :
  Inv s -> phase_of id s = Some ph -> in_ack ph = false -> acks_settled id s.
Proof.
  intros H E A pa Hin. destruct (Ack.settled pa) eqn:S; [reflexivity|].
  destruct (inv_outstanding s H id pa Hin S) as (ph0 & E0 & A0). congruence.
Qed.

Lemma Inv_send_audio now audio mark s : Inv s -> Inv (fst (send_audio now audio mark s)).
Proof. intros H. unfold send_audio. cbn [fst]. inv_frames. Qed.

Lemma Inv_fallback id s : Inv s -> acks_settled id s -> Inv (fallback id s).
Proof.
  intros H Hs. unfold fallback. inv_frames.
  apply Inv_set_phase; auto; discriminate.
Qed.

Lemma Inv_finish id s : Inv s -> acks_settled id s -> Inv (finish id s).
Proof. intros H Hs. unfold finish. inv_frames. now apply Inv_drop. Qed.

Lemma Inv_after_tools now id um rs s :
  Inv s -> acks_settled id s -> Inv (after_tools now id um rs s).
Proof.
  intros H Hs. unfold after_tools. destruct rs; [now apply Inv_finish|].
  destruct (generateResponse_begin _ _ _ _) as [h ai']. inv_frames.
  apply Inv_set_phase; [inv_frames | discriminate | right | discriminate].
  eapply acks_settled_frame; [|exact Hs]. reflexivity.
Qed.

Lemma Inv_next_tool now id um rest rs s :
  Inv s -> acks_settled id s -> resolved id (trace (lp s)) ->
  Inv (next_tool now id um rest rs s).
Proof.
  intros H Hs Hr. unfold next_tool. destruct rest as [|tc rest]; [now apply Inv_after_tools|].
  apply Inv_log_tool; [|exact Hr].
  apply Inv_set_phase; auto; discriminate.
Qed.

Lemma Inv_resume now id s :
  Inv s -> acks_settled id s -> resolved id (trace (lp s)) -> Inv (resume now id s).
Proof.
  intros H Hs Hr. unfold resume. destruct (phase_of id s) as [[]|]; auto.
  now apply Inv_next_tool.
Qed.

Lemma Inv_ack_react now id f s : Inv s -> good_reaction f -> Inv (ack_react now id f s).
Proof.
  intros H Hf. unfold ack_react. destruct (assoc_get id (acks (lp s))) as [pa|] eqn:E; [|exact H].
  destruct (Hf pa) as [Hmono Hset]. destruct (f pa) as [pa' es]. cbn [fst snd] in *.
  assert (H1 : Inv (log (map (EffAck id) es) (set_ack id pa' s))).
  { inv_frames. apply Inv_set_ack; [exact H|].
    intros pa0 E0 S. rewrite E in E0. injection E0 as <-. auto. }
  destruct (existsb Ack.settles es) eqn:X; [|exact H1].
  destruct (Hset eq_refl) as [Hs [c Hc]].
  apply Inv_resume; [exact H1| |].
  - intros x Hx. autorewrite with st in Hx.
    apply in_assoc_set_nodup in Hx; [congruence|]. apply H.
  - autorewrite with st. eapply resolved_here; eauto.
Qed.

Lemma good_on_message m : good_reaction (Ack.on_message m).
Proof.
  intros pa. unfold Ack.on_message.
  destruct (Ack.attached pa); [|cbn; split; [auto|discriminate]].
  destruct m as [| | | |[name|]| | |]; cbn; try (split; [auto|discriminate]).
  destruct (String.eqb name (Ack.markName pa)); cbn; [|split; [auto|discriminate]].
  split; [auto|]. destruct (Ack.settled pa); cbn; [discriminate|]. eauto.
Qed.

Lemma good_on_deadline : good_reaction Ack.on_deadline.
Proof.
  intros pa. unfold Ack.on_deadline.
  destruct (Ack.armed pa); cbn; [|split; [auto|discriminate]].
  split; [auto|]. destruct (Ack.settled pa); cbn; [discriminate|]. eauto.
Qed.

Lemma good_on_send_failure : good_reaction Ack.on_send_failure.
Proof.
  intros pa. unfold Ack.on_send_failure. cbn.
  split; [auto|]. destruct (Ack.settled pa); cbn; [discriminate|]. eauto 6.
Qed.

Lemma Inv_mark_handlers now m s : Inv s -> Inv (mark_handlers now m s).
Proof.
  unfold mark_handlers. generalize (acks (lp s)) as l. intros l. revert s.
  induction l as [|p l IH]; intros s H; cbn [fold_left]; [exact H|].
  apply IH. apply Inv_ack_react; [exact H|apply good_on_message].
Qed.

Lemma Inv_processConversation um s : Inv s -> Inv (snd (processConversation um s)).
Proof.
  intros H. unfold processConversation.
  destruct (callSession (cl (log [EffProcess um] s))); [|cbn [snd]; inv_frames].
  destruct (JS.truthy _); [|cbn [snd]; inv_frames].
  destruct (generateResponseWithTools_begin _ _) as [h ai'].
  destruct (spawn _ _) as [id s1] eqn:E. cbn [snd].
  assert (E1 : s1 = snd (spawn (AwaitAI um (current_callSid (log [EffProcess um] s)) h)
                       (upd_world (set_ai ai') (log [EffProcess um] s)))) by now rewrite E.
  subst s1. inv_frames. apply Inv_spawn; [inv_frames|reflexivity].
Qed.

Lemma phase_of_upd_world id f s : phase_of id (upd_world f s) = phase_of id s.
Proof. reflexivity. Qed.
Lemma phase_of_upd_cl id f s : phase_of id (upd_cl f s) = phase_of id s.
Proof. reflexivity. Qed.
Lemma phase_of_log id es s : phase_of id (log es s) = phase_of id s.
Proof. reflexivity. Qed.
Lemma phase_of_upd_session id f s : phase_of id (upd_session f s) = phase_of id s.
Proof. unfold phase_of. now rewrite lp_upd_session. Qed.
Lemma phase_of_send_audio id now audio mark s :
  phase_of id (fst (send_audio now audio mark s)) = phase_of id s.
Proof. reflexivity. Qed.
Lemma acks_send_audio now audio mark s :
  acks (lp (fst (send_audio now audio mark s))) = acks (lp s).
Proof. reflexivity. Qed.
#[global] Hint Rewrite phase_of_upd_world phase_of_upd_cl phase_of_log phase_of_upd_session
  phase_of_send_audio acks_send_audio : st.

Lemma Inv_on_ai_reply now id um callId h out parsed s :
  Inv s -> phase_of id s = Some (AwaitAI um callId h) ->
  Inv (on_ai_reply now id um callId h out parsed s).
Proof.
  intros H E. unfold on_ai_reply.
  destruct (generateResponseWithTools_end _ _ _ _ _ _) as [res ai'].
  assert (Hs : acks_settled id (upd_world (set_ai ai') s)).
  { eapply acks_settled_frame; [|eapply settled_not_ack; eauto]; reflexivity. }
  destruct res as [r|]; [|apply Inv_fallback; [inv_frames|exact Hs]].
  destruct (text r) as [txt|]; [|apply Inv_fallback; [inv_frames|exact Hs]].
  inv_frames. apply Inv_set_phase; [inv_frames|discriminate|right|].
  - eapply acks_settled_frame; [|exact Hs]. now rewrite lp_upd_session.
  - intros _. rewrite lp_upd_session. cbn. eapply (inv_early s H); eauto.
Qed.

Lemma Inv_send_plain now id audio s :
  Inv s -> acks_settled id s ->
  Inv (let '(s1, failed) := send_audio now audio None s in
       if failed then fallback id s1 else finish id s1).
Proof.
  intros H Hs. destruct (send_audio now audio None s) as [s1 failed] eqn:S.
  assert (E1 : s1 = fst (send_audio now audio None s)) by now rewrite S.
  subst s1.
  assert (Hs1 : acks_settled id (fst (send_audio now audio None s))).
  { eapply acks_settled_frame; [|exact Hs]. reflexivity. }
  destruct failed; [apply Inv_fallback|apply Inv_finish]; auto using Inv_send_audio.
Qed.

Lemma Inv_on_initial_audio now id um calls audio s :
  Inv s -> phase_of id s = Some (AwaitTTS um calls) ->
  Inv (on_initial_audio now id um calls audio s).
Proof.
  intros H E. unfold on_initial_audio.
  assert (Hs : acks_settled id s) by (eapply settled_not_ack; eauto).
  destruct calls as [[|tc more]|]; try (now apply Inv_send_plain).
  destruct (send_audio _ _ _ _) as [s2 failed] eqn:S.
  match type of S with send_audio ?a ?b ?c ?d = _ =>
    assert (E2 : s2 = fst (send_audio a b c d)) by now rewrite S end.
  subst s2.
  assert (H2 : Inv (fst (send_audio now audio (Some (Ack.markName (Ack.create now)))
                      (set_phase id (AwaitAck um (tc :: more)) (add_ack id (Ack.create now) s))))).
  { apply Inv_send_audio. apply Inv_add_ack; eauto.
    eapply (inv_early s H); eauto. }
  destruct failed; [|exact H2].
  apply Inv_ack_react; [exact H2|apply good_on_send_failure].
Qed.

Lemma Inv_on_followup_reply now id callId h out s :
  Inv s -> phase_of id s = Some (AwaitFollowUpAI callId h) ->
  Inv (on_followup_reply now id callId h out s).
Proof.
  intros H E. unfold on_followup_reply.
  destruct (generateResponse_end _ _ _ _ _) as [res ai'].
  assert (Hs : acks_settled id (upd_world (set_ai ai') s)).
  { eapply acks_settled_frame; [|eapply settled_not_ack; eauto]; reflexivity. }
  destruct res as [txt|]; [|apply Inv_fallback; [inv_frames|exact Hs]].
  inv_frames. apply Inv_set_phase; [inv_frames|discriminate|right; exact Hs|discriminate].
Qed.

Lemma Inv_drop_task_plain id ph s :
  Inv s -> phase_of id s = Some ph -> in_ack ph = false -> Inv (drop_task id s).
Proof. intros H E A. apply Inv_drop; [exact H|]. eapply settled_not_ack; eauto. Qed.

Lemma Inv_on_tts now id audio s : Inv s -> Inv (on_tts now id audio s).
Proof.
  intros H. unfold on_tts. destruct (phase_of id s) as [ph|] eqn:E; [|exact H].
  destruct ph; try exact H.
  - destruct audio as [a|].
    + now apply Inv_on_initial_audio.
    + apply Inv_fallback; [exact H|]. eapply settled_not_ack; eauto.
  - assert (Hs : acks_settled id s) by (eapply settled_not_ack; eauto).
    destruct audio as [a|]; [now apply Inv_send_plain|now apply Inv_fallback].
  - assert (Hs : acks_settled id s) by (eapply settled_not_ack; eauto).
    destruct audio as [a|]; apply Inv_finish; auto using Inv_send_audio.
  - destruct audio as [a|].
    + eapply Inv_drop_task_plain; [apply Inv_send_audio; exact H| |]; [exact E|reflexivity].
    + eapply Inv_drop_task_plain; eauto.
Qed.

Lemma Inv_on_tool now id result s : Inv s -> Inv (on_tool now id result s).
Proof.
  intros H. unfold on_tool. destruct (phase_of id s) as [ph|] eqn:E; [|exact H].
  destruct ph; try exact H.
  assert (Hs : acks_settled id s) by (eapply settled_not_ack; eauto).
  destruct (_ && _); [now apply Inv_finish|].
  apply Inv_next_tool; auto. eapply (inv_tool_phase s H); eauto.
Qed.

Lemma Inv_cleanup s : Inv s -> Inv (cleanup s).
Proof.
  intros H. unfold cleanup.
  repeat match goal with
         | |- Inv (match ?x with _ => _ end) => destruct x
         | |- Inv (if ?x then _ else _) => destruct x
         | _ => progress inv_frames
         end.
Qed.

Lemma Inv_on_message now m dg s : Inv s -> Inv (on_message now m dg s).
Proof.
  intros H. destruct m; cbn [on_message]; auto.
  - unfold handleCallStart.
    repeat match goal with
           | |- Inv (match ?x with _ => _ end) => destruct x
           | |- Inv (if ?x then _ else _) => destruct x
           | _ => progress inv_frames
           end.
  - unfold handleMediaData.
    destruct (JS.truthy (streamSid (cl s))), (deepgramConnection (cl s)); inv_frames.
  - unfold handleCallStop. apply Inv_cleanup. destruct (callSession (cl s)); inv_frames.
Qed.

Lemma Inv_step now e s : Inv s -> Inv (step now e s).
Proof.
  intros H. destruct e; cbn [step].
  - apply Inv_mark_handlers, Inv_on_message, H.
  - apply Inv_cleanup. inv_frames.
  - now apply Inv_cleanup.
  - destruct (connectionTimeout (cl s)); [|exact H]. inv_frames. now apply Inv_cleanup.
  - destruct (transcriptHandlers (lp s)); [|exact H]. unfold onTranscript.
    destruct (_ && _); inv_frames.
  - destruct (quietTimers (lp s)) as [|t later]; [exact H|]. unfold quiet_callback.
    destruct (_ && _); [|inv_frames].
    destruct (processConversation _ _) as [[id|] s1] eqn:P;
      match type of P with processConversation ?a ?b = _ =>
        assert (E1 : s1 = snd (processConversation a b)) by now rewrite P end;
      subst s1; inv_frames; apply Inv_processConversation; inv_frames.
  - destruct (greetingTimers (lp s)) as [|n]; [exact H|].
    destruct (spawn _ _) as [id s1] eqn:E.
    match type of E with spawn ?a ?b = _ =>
      assert (E1 : s1 = snd (spawn a b)) by now rewrite E end.
    subst s1. inv_frames. apply Inv_spawn; [inv_frames|reflexivity].
  - destruct (phase_of id s) as [ph|] eqn:E; [|exact H]. destruct ph; try exact H.
    + now apply Inv_on_ai_reply.
    + now apply Inv_on_followup_reply.
  - now apply Inv_on_tts.
  - now apply Inv_on_tool.
  - apply Inv_ack_react; [exact H|apply good_on_deadline].
Qed.

Lemma Inv_accept now handle conn calls conns objs svc :
  Inv (accept now handle conn calls conns objs svc).
Proof.
  constructor; cbn; try tauto; try discriminate.
  - intros pre id sid tc post E. destruct pre; discriminate.
  - constructor.
Qed.

Lemma Inv_run evs : forall s, Inv s -> Inv (run evs s).
Proof.
  induction evs as [|[now e] evs IH]; intros s H; cbn [run]; [exact H|].
  apply IH, Inv_step, H.
Qed.





(** ** An orchestration that has ended stays silent *)

Lemma Silent_init id s : gone id s -> Silent id s s.
Proof. intros H. split; [exact H|]. exists []. rewrite app_nil_r. auto. Qed.

Lemma Silent_not_live id s0 s id' :
  Silent id s0 s -> is_Some (phase_of id' s) -> id' <> id.
Proof.
  intros [[_ Hg] _] [ph E] ->. apply Hg. eapply assoc_get_fst. exact E.
Qed.

Lemma Silent_fresh id s0 s : Silent id s0 s -> next_id (lp s) <> id.
Proof. intros [[Hlt _] _]. lia. Qed.

Lemma Silent_log id s0 s es :
  Silent id s0 s -> Forall (fun e => about id e = false) es -> Silent id s0 (log es s).
Proof.
  intros [Hg (es0 & E & F)] Hq. split; [exact Hg|].
  exists (es0 ++ es). autorewrite with st. rewrite E, app_assoc. split; [reflexivity|].
  apply Forall_app; auto.
Qed.

Lemma Silent_upd_cl id s0 s f : Silent id s0 s -> Silent id s0 (upd_cl f s).
Proof. intros H. exact H. Qed.

Lemma Silent_upd_world id s0 s f : Silent id s0 s -> Silent id s0 (upd_world f s).
Proof. intros H. exact H. Qed.

Lemma Silent_upd_session id s0 s f : Silent id s0 s -> Silent id s0 (upd_session f s).
Proof. intros H. unfold upd_session. destruct (callSession (cl s)); exact H. Qed.

Lemma Silent_upd_lp id s0 s f :
  Silent id s0 s ->
  tasks (f (lp s)) = tasks (lp s) -> trace (f (lp s)) = trace (lp s) ->
  next_id (lp s) <= next_id (f (lp s)) ->
  Silent id s0 (upd_lp f s).
Proof.
  intros [[Hlt Hg] Ht] E1 E2 E3. unfold Silent, gone. autorewrite with st.
  rewrite E1, E2. repeat split; auto. lia.
Qed.

Lemma Silent_set_phase id s0 s id' ph : Silent id s0 s -> Silent id s0 (set_phase id' ph s).
Proof.
  intros [[Hlt Hg] Ht]. unfold Silent, gone. autorewrite with st.
  rewrite map_fst_assoc_set. auto.
Qed.

Lemma Silent_drop id s0 s id' : Silent id s0 s -> Silent id s0 (drop_task id' s).
Proof.
  intros [[Hlt Hg] Ht]. unfold Silent, gone. autorewrite with st.
  repeat split; auto. intros H. apply in_fst_assoc_del in H as [H _]. auto.
Qed.

Lemma Silent_add_ack id s0 s id' pa : Silent id s0 s -> Silent id s0 (add_ack id' pa s).
Proof. intros H. exact H. Qed.

Lemma Silent_set_ack id s0 s id' pa : Silent id s0 s -> Silent id s0 (set_ack id' pa s).
Proof. intros H. exact H. Qed.

Lemma Silent_spawn id s0 s ph : Silent id s0 s -> Silent id s0 (snd (spawn ph s)).
Proof.
  intros [[Hlt Hg] Ht]. unfold Silent, gone. autorewrite with st.
  repeat split; auto. rewrite map_app, in_app_iff. cbn. intros [H|[H|[]]]; [auto|lia].
Qed.

Lemma silent_sends id fs : Forall (fun e => about id e = false) (map EffSend fs).
Proof. induction fs; cbn; constructor; auto. Qed.

Lemma silent_acks id id' es : Forall (fun e => about id e = false) (map (EffAck id') es).
Proof. induction es; cbn; constructor; auto. Qed.

Ltac silent :=
  solve [ apply silent_sends | apply silent_acks
        | repeat (constructor; cbn [about]; try reflexivity; try (apply Nat.eqb_neq; assumption)) ].

Ltac silent_frames :=
  repeat first
    [ assumption
    | apply Silent_upd_cl
    | apply Silent_upd_world
    | apply Silent_upd_session
    | apply Silent_set_phase
    | apply Silent_drop
    | apply Silent_add_ack
    | apply Silent_set_ack
    | apply Silent_log; [|silent]
    | apply Silent_upd_lp; [|reflexivity|reflexivity|cbn; lia] ].

Lemma Silent_send_audio id s0 s now audio mark :
  Silent id s0 s -> Silent id s0 (fst (send_audio now audio mark s)).
Proof. intros H. unfold send_audio. cbn [fst]. silent_frames. Qed.

Lemma Silent_fallback id s0 s id' : Silent id s0 s -> Silent id s0 (fallback id' s).
Proof. intros H. unfold fallback. silent_frames. Qed.

Lemma Silent_finish id s0 s id' : Silent id s0 s -> Silent id s0 (finish id' s).
Proof. intros H. unfold finish. silent_frames. Qed.

Lemma Silent_after_tools id s0 s now id' um rs :
  Silent id s0 s -> id' <> id -> Silent id s0 (after_tools now id' um rs s).
Proof.
  intros H Hne. unfold after_tools. destruct rs; [now apply Silent_finish|].
  destruct (generateResponse_begin _ _ _ _) as [h ai']. silent_frames.
Qed.

Lemma Silent_next_tool id s0 s now id' um rest rs :
  Silent id s0 s -> id' <> id -> Silent id s0 (next_tool now id' um rest rs s).
Proof.
  intros H Hne. unfold next_tool. destruct rest; [now apply Silent_after_tools|].
  silent_frames.
Qed.

Lemma Silent_resume id s0 s now id' : Silent id s0 s -> Silent id s0 (resume now id' s).
Proof.
  intros H. unfold resume. destruct (phase_of id' s) as [ph|] eqn:E; [|exact H].
  destruct ph; try exact H. apply Silent_next_tool; [exact H|].
  eapply Silent_not_live; eauto.
Qed.

Lemma Silent_ack_react id s0 s now id' f :
  Silent id s0 s -> Silent id s0 (ack_react now id' f s).
Proof.
  intros H. unfold ack_react. destruct (assoc_get id' (acks (lp s))); [|exact H].
  destruct (f p) as [pa' es]. destruct (existsb Ack.settles es).
  - apply Silent_resume. silent_frames.
  - silent_frames.
Qed.

Lemma Silent_mark_handlers id s0 s now m :
  Silent id s0 s -> Silent id s0 (mark_handlers now m s).
Proof.
  unfold mark_handlers. generalize (acks (lp s)) as l. intros l. revert s.
  induction l as [|p l IH]; intros s H; cbn [fold_left]; [exact H|].
  apply IH. now apply Silent_ack_react.
Qed.

Lemma Silent_processConversation id s0 s um :
  Silent id s0 s -> Silent id s0 (snd (processConversation um s)).
Proof.
  intros H. unfold processConversation.
  destruct (callSession (cl (log [EffProcess um] s))); [|cbn [snd]; silent_frames].
  destruct (JS.truthy _); [|cbn [snd]; silent_frames].
  destruct (generateResponseWithTools_begin _ _) as [h ai'].
  destruct (spawn _ _) as [id' st1] eqn:E. cbn [snd].
  assert (E1 : st1 = snd (spawn (AwaitAI um (current_callSid (log [EffProcess um] s)) h)
                       (upd_world (set_ai ai') (log [EffProcess um] s)))) by now rewrite E.
  assert (E2 : id' = next_id (lp s)) by (apply (f_equal fst) in E; symmetry; exact E).
  subst st1. pose proof (Silent_fresh _ _ _ H) as Hf. rewrite <- E2 in Hf.
  apply Silent_log; [|silent]. apply Silent_spawn. silent_frames.
Qed.

Lemma Silent_on_initial_audio id s0 s now id' um calls audio :
  Silent id s0 s -> Silent id s0 (on_initial_audio now id' um calls audio s).
Proof.
  intros H. unfold on_initial_audio.
  assert (Hplain :
    Silent id s0 (let '(s1, failed) := send_audio now audio None s in
                  if failed then fallback id' s1 else finish id' s1)).
  { destruct (send_audio now audio None s) as [s1 failed] eqn:S.
    assert (E1 : s1 = fst (send_audio now audio None s)) by now rewrite S.
    subst s1. destruct failed; [apply Silent_fallback|apply Silent_finish];
      now apply Silent_send_audio. }
  destruct calls as [[|tc more]|]; try exact Hplain. clear Hplain.
  destruct (send_audio _ _ _ _) as [s2 failed] eqn:S.
  match type of S with send_audio ?a ?b ?c ?d = _ =>
    assert (E2 : s2 = fst (send_audio a b c d)) by now rewrite S end.
  subst s2.
  destruct failed; [apply Silent_ack_react|]; apply Silent_send_audio; silent_frames.
Qed.

Lemma Silent_on_tts id s0 s now id' audio :
  Silent id s0 s -> Silent id s0 (on_tts now id' audio s).
Proof.
  intros H. unfold on_tts. destruct (phase_of id' s) as [ph|] eqn:E; [|exact H].
  destruct ph; try exact H.
  - destruct audio; [now apply Silent_on_initial_audio|now apply Silent_fallback].
  - destruct audio as [a|]; [|now apply Silent_fallback].
    destruct (send_audio now a None s) as [s1 failed] eqn:S.
    assert (E1 : s1 = fst (send_audio now a None s)) by now rewrite S. subst s1.
    destruct failed; [apply Silent_fallback|apply Silent_finish]; now apply Silent_send_audio.
  - destruct audio; apply Silent_finish; [apply Silent_send_audio|]; exact H.
  - destruct audio; apply Silent_drop; [apply Silent_send_audio|]; exact H.
Qed.

Lemma Silent_on_tool id s0 s now id' result :
  Silent id s0 s -> Silent id s0 (on_tool now id' result s).
Proof.
  intros H. unfold on_tool. destruct (phase_of id' s) as [ph|] eqn:E; [|exact H].
  destruct ph; try exact H.
  destruct (_ && _); [now apply Silent_finish|].
  apply Silent_next_tool; [exact H|]. eapply Silent_not_live; eauto.
Qed.

Lemma Silent_cleanup id s0 s : Silent id s0 s -> Silent id s0 (cleanup s).
Proof.
  intros H. unfold cleanup.
  repeat match goal with
         | |- Silent _ _ (match ?x with _ => _ end) => destruct x
         | |- Silent _ _ (if ?x then _ else _) => destruct x
         | _ => progress silent_frames
         end.
Qed.

Lemma Silent_on_message id s0 s now m dg :
  Silent id s0 s -> Silent id s0 (on_message now m dg s).
Proof.
  intros H. destruct m; cbn [on_message]; auto.
  - unfold handleCallStart.
    repeat match goal with
           | |- Silent _ _ (match ?x with _ => _ end) => destruct x
           | |- Silent _ _ (if ?x then _ else _) => destruct x
           | _ => progress silent_frames
           end.
  - unfold handleMediaData.
    destruct (JS.truthy (streamSid (cl s))), (deepgramConnection (cl s)); silent_frames.
  - unfold handleCallStop. apply Silent_cleanup. destruct (callSession (cl s)); silent_frames.
Qed.

Lemma Silent_step id s0 s now e : Silent id s0 s -> Silent id s0 (step now e s).
Proof.
  intros H. destruct e; cbn [step].
  - apply Silent_mark_handlers, Silent_on_message, H.
  - apply Silent_cleanup. silent_frames.
  - now apply Silent_cleanup.
  - destruct (connectionTimeout (cl s)); [|exact H].
    apply Silent_log; [|silent]. apply Silent_upd_world. now apply Silent_cleanup.
  - destruct (transcriptHandlers (lp s)); [|exact H]. unfold onTranscript.
    destruct (_ && _); silent_frames.
  - destruct (quietTimers (lp s)) as [|t later]; [exact H|]. unfold quiet_callback.
    destruct (_ && _); [|silent_frames].
    destruct (processConversation _ _) as [[id'|] s1] eqn:P;
      match type of P with processConversation ?a ?b = _ =>
        assert (E1 : s1 = snd (processConversation a b)) by now rewrite P end;
      subst s1; try apply Silent_upd_cl; apply Silent_processConversation; silent_frames.
  - destruct (greetingTimers (lp s)) as [|n]; [exact H|].
    destruct (spawn _ _) as [id' s1] eqn:E.
    match type of E with spawn ?a ?b = _ =>
      assert (E1 : s1 = snd (spawn a b)) by now rewrite E end.
    subst s1. apply Silent_log; [|silent]. apply Silent_spawn. silent_frames.
  - destruct (phase_of id0 s) as [ph|] eqn:E; [|exact H]. destruct ph; try exact H.
    + unfold on_ai_reply. destruct (generateResponseWithTools_end _ _ _ _ _ _) as [res ai'].
      destruct res as [r|]; [|apply Silent_fallback; silent_frames].
      destruct (text r); [|apply Silent_fallback; silent_frames]. silent_frames.
    + unfold on_followup_reply. destruct (generateResponse_end _ _ _ _ _) as [res ai'].
      destruct res; [|apply Silent_fallback; silent_frames]. silent_frames.
  - now apply Silent_on_tts.
  - now apply Silent_on_tool.
  - now apply Silent_ack_react.
Qed.

Lemma Silent_run id s0 evs : forall s, Silent id s0 s -> Silent id s0 (run evs s).
Proof.
  induction evs as [|[now e] evs IH]; intros s H; cbn [run]; [exact H|].
  apply IH, Silent_step, H.
Qed.

(** ** Tool calls wait for the acknowledgment (C1) *)

Lemma deadline_resumes now id um tc more mark att s :
  phase_of id s = Some (AwaitAck um (tc :: more)) ->
  assoc_get id (acks (lp s))
    = Some {| Ack.markName := mark; Ack.attached := att; Ack.armed := true;
              Ack.settled := false |} ->
  step now (EvAckDeadline id) s =
    log [EffToolExec id (current_callSid s) tc]
      (set_phase id (AwaitTool um tc more [])
         (log [EffAck id Ack.RemoveListener; EffAck id (Ack.Resolve Ack.ByTimeout true)]
            (set_ack id {| Ack.markName := mark; Ack.attached := false; Ack.armed := false;
                           Ack.settled := true |} s))).
Proof.
  intros Hph Hack. cbn [step]. unfold ack_react. rewrite Hack.
  cbn. unfold resume. autorewrite with st. unfold phase_of in *. autorewrite with st.
  rewrite Hph. reflexivity.
Qed.

(** C1, amended.  In every run of a session, each execution of a tool
    call of an orchestration comes after the call of [resolve()] that
    settled the acknowledgment of that orchestration; the promise is
    settled by the matching mark echo, by the 10 s timer, or by the
    failure handler of the audio send.  When the timer of a pending
    acknowledgment fires, the listener is removed, the promise is
    resolved and the first tool call is executed in the same step. *)
Theorem tools_wait_for_acknowledgment
    (now0 : Z) (handle : nat) (conn : Connection) (calls conns : gmap string nat)
    (objs : list CallSession) (svc : Service) (evs : list (Z * Event))
    (s : State) (now : Z) (id : nat) (um : string) (tc : ToolCall) (more : list ToolCall)
    (mark : string) (att : bool) :
  (forall pre i sid t post,
     trace (lp (run evs (accept now0 handle conn calls conns objs svc)))
       = pre ++ EffToolExec i sid t :: post ->
     exists c, In (EffAck i (Ack.Resolve c true)) pre
               /\ (c = Ack.ByEcho \/ c = Ack.ByTimeout \/ c = Ack.BySendFailure))
  /\ (phase_of id s = Some (AwaitAck um (tc :: more)) ->
      assoc_get id (acks (lp s))
        = Some {| Ack.markName := mark; Ack.attached := att; Ack.armed := true;
                  Ack.settled := false |} ->
      trace (lp (step now (EvAckDeadline id) s))
        = trace (lp s)
          ++ [EffAck id Ack.RemoveListener; EffAck id (Ack.Resolve Ack.ByTimeout true);
              EffToolExec id (current_callSid s) tc]
      /\ phase_of id (step now (EvAckDeadline id) s) = Some (AwaitTool um tc more [])).
Proof.
  split.
  - intros pre i sid t post E.
    pose proof (Inv_run evs _ (Inv_accept now0 handle conn calls conns objs svc)) as H.
    destruct (inv_tools _ H pre i sid t post E) as [c Hc].
    exists c. split; [exact Hc|]. destruct c; auto.
  - intros Hph Hack. rewrite (deadline_resumes now id um tc more mark att s Hph Hack).
    unfold phase_of in *. autorewrite with st. split.
    + rewrite <- app_assoc. reflexivity.
    + rewrite assoc_get_set, Nat.eqb_refl, Hph. reflexivity.
Qed.

(** C1, at a call whose reply asks to hang up and whose mark is never
    echoed: the timer fires at 17800 and the tool is executed. *)
Lemma tools_wait_for_acknowledgment_witness :
  trace (lp (step 17800 (EvAckDeadline 1) waiting_state))
    = trace (lp waiting_state)
      ++ [EffAck 1 Ack.RemoveListener; EffAck 1 (Ack.Resolve Ack.ByTimeout true);
          EffToolExec 1 "CA1" hang_up]
  /\ phase_of 1 (step 17800 (EvAckDeadline 1) waiting_state)
       = Some (AwaitTool "goodbye" hang_up [] []).
Proof.
  refine (proj2 (tools_wait_for_acknowledgment 5000 7 demo_conn ∅ ∅ [] svc0 []
                   waiting_state 17800 1 "goodbye" hang_up [] "audio_7800" true) _ _).
  - vm_compute. reflexivity.
  - vm_compute. reflexivity.
Defined.

(** C1 as stated fails: when the first write of the audio throws, the
    tool call is executed although no mark was echoed and the timer has
    not fired. *)
Lemma tools_run_after_send_failure :
  trace (lp (run (until_audio bye_reply) (accept 5000 7 failing_conn ∅ ∅ [] svc0)))
    = [EffClearIdle; EffDeepgramOpen 0; EffProcess "goodbye";
       EffAIWithTools 1 "CA1" "goodbye"; EffTTS 1 "Goodbye";
       EffAck 1 Ack.ClearTimeout; EffAck 1 Ack.RemoveListener;
       EffAck 1 (Ack.Resolve Ack.BySendFailure true);
       EffToolExec 1 "CA1" hang_up]
  /\ ~ In (EffAck 1 (Ack.Resolve Ack.ByEcho true))
         (trace (lp (run (until_audio bye_reply) (accept 5000 7 failing_conn ∅ ∅ [] svc0))))
  /\ ~ In (EffAck 1 (Ack.Resolve Ack.ByTimeout true))
         (trace (lp (run (until_audio bye_reply) (accept 5000 7 failing_conn ∅ ∅ [] svc0)))).
Proof.
  assert (E : trace (lp (run (until_audio bye_reply) (accept 5000 7 failing_conn ∅ ∅ [] svc0)))
    = [EffClearIdle; EffDeepgramOpen 0; EffProcess "goodbye";
       EffAIWithTools 1 "CA1" "goodbye"; EffTTS 1 "Goodbye";
       EffAck 1 Ack.ClearTimeout; EffAck 1 Ack.RemoveListener;
       EffAck 1 (Ack.Resolve Ack.BySendFailure true);
       EffToolExec 1 "CA1" hang_up]) by (vm_compute; reflexivity).
  rewrite E. split; [reflexivity|].
  split; cbn; intros H; repeat (destruct H as [H|H]; [discriminate H|]); exact H.
Qed.

(** ** One acknowledgment per waiting orchestration (C5) *)

(** C5, amended.  In every reachable state an orchestration has at most
    one acknowledgment, and every acknowledgment that is not yet
    resolved belongs to an orchestration suspended in its mark wait. *)
Theorem outstanding_acks_belong_to_waiting_orchestrations
    (now0 : Z) (handle : nat) (conn : Connection) (calls conns : gmap string nat)
    (objs : list CallSession) (svc : Service) (evs : list (Z * Event)) :
  List.NoDup (map fst (acks (lp (run evs (accept now0 handle conn calls conns objs svc)))))
  /\ forall id pa,
       In (id, pa) (acks (lp (run evs (accept now0 handle conn calls conns objs svc)))) ->
       Ack.settled pa = false ->
       exists um calls',
         phase_of id (run evs (accept now0 handle conn calls conns objs svc))
           = Some (AwaitAck um calls').
Proof.
  pose proof (Inv_run evs _ (Inv_accept now0 handle conn calls conns objs svc)) as H.
  split; [apply H|].
  intros id pa Hin Hs. destruct (inv_outstanding _ H id pa Hin Hs) as (ph & E & A).
  destruct ph; try discriminate. eauto.
Qed.

(** C5, amended, at the second of two overlapping orchestrations. *)
Lemma outstanding_acks_belong_to_waiting_orchestrations_witness :
  exists um calls', phase_of 2 (run overlapping (accept 5000 7 demo_conn ∅ ∅ [] svc0))
                      = Some (AwaitAck um calls').
Proof.
  refine (proj2 (outstanding_acks_belong_to_waiting_orchestrations
                   5000 7 demo_conn ∅ ∅ [] svc0 overlapping) 2
            {| Ack.markName := "audio_9800"; Ack.attached := true; Ack.armed := true;
               Ack.settled := false |} _ _).
  - vm_compute. auto.
  - reflexivity.
Defined.

(** C5 as stated fails: a second utterance flushed while the first reply
    waits for its mark starts a second orchestration, and two
    acknowledgments are outstanding. *)
Lemma two_orchestrations_in_flight :
  tasks (lp (run overlapping (accept 5000 7 demo_conn ∅ ∅ [] svc0)))
    = [(1, AwaitAck "goodbye" [hang_up]); (2, AwaitAck "goodbye wait" [hang_up])]
  /\ acks (lp (run overlapping (accept 5000 7 demo_conn ∅ ∅ [] svc0)))
    = [(1, {| Ack.markName := "audio_7800"; Ack.attached := true; Ack.armed := true;
              Ack.settled := false |});
       (2, {| Ack.markName := "audio_9800"; Ack.attached := true; Ack.armed := true;
              Ack.settled := false |})].
Proof. vm_compute. split; reflexivity. Qed.

(** ** A successful hang-up ends the orchestration (C6) *)

Lemma hang_up_finishes now id um tc rest rs msg s :
  phase_of id s = Some (AwaitTool um tc rest rs) ->
  tc_name tc = "hang_up_call" ->
  step now (EvTool id {| success := true; message := msg |}) s = finish id s.
Proof.
  intros Hph Hname. cbn [step]. unfold on_tool. rewrite Hph, Hname. reflexivity.
Qed.

(** C6.  When the tool call being executed is [hang_up_call] and its
    result reports success, the orchestration ends in that step without
    any further call, and nothing that happens later executes one of
    its remaining tool calls or issues an AI request for it. *)
Theorem hang_up_ends_orchestration
    (now0 : Z) (handle : nat) (conn : Connection) (calls conns : gmap string nat)
    (objs : list CallSession) (svc : Service) (evs later : list (Z * Event))
    (now : Z) (id : nat) (um msg : string) (tc : ToolCall) (rest : list ToolCall)
    (rs : list ToolResultEntry) :
  phase_of id (run evs (accept now0 handle conn calls conns objs svc))
    = Some (AwaitTool um tc rest rs) ->
  tc_name tc = "hang_up_call" ->
  phase_of id (step now (EvTool id {| success := true; message := msg |})
                 (run evs (accept now0 handle conn calls conns objs svc))) = None
  /\ trace (lp (step now (EvTool id {| success := true; message := msg |})
                  (run evs (accept now0 handle conn calls conns objs svc))))
     = trace (lp (run evs (accept now0 handle conn calls conns objs svc)))
  /\ exists es,
       trace (lp (run later
                    (step now (EvTool id {| success := true; message := msg |})
                       (run evs (accept now0 handle conn calls conns objs svc)))))
         = trace (lp (run evs (accept now0 handle conn calls conns objs svc))) ++ es
       /\ forall e, In e es ->
            match e with
            | EffToolExec i _ _ | EffAIWithTools i _ _ | EffAIPlain i _ _ => i <> id
            | _ => True
            end.
Proof.
  intros Hph Hname.
  pose proof (Inv_run evs _ (Inv_accept now0 handle conn calls conns objs svc)) as H.
  set (s := run evs (accept now0 handle conn calls conns objs svc)) in *.
  rewrite (hang_up_finishes now id um tc rest rs msg s Hph Hname).
  assert (Hgone : gone id (finish id s)).
  { split.
    - apply (inv_fresh_tasks s H). eapply assoc_get_fst. exact Hph.
    - unfold finish. autorewrite with st. intros Hin.
      apply in_fst_assoc_del in Hin as [_ Hne]. congruence. }
  split; [|split].
  - unfold phase_of, finish. autorewrite with st. rewrite assoc_get_del, Nat.eqb_refl. reflexivity.
  - reflexivity.
  - destruct (Silent_run id (finish id s) later _ (Silent_init _ _ Hgone)) as [_ (es & E & F)].
    exists es. split; [exact E|].
    intros e He. rewrite List.Forall_forall in F. specialize (F e He).
    destruct e; cbn in F; try exact I; apply Nat.eqb_neq; exact F.
Qed.

(** C6, at a reply with the tool calls [hang_up_call; transfer_call]. *)
Lemma hang_up_ends_orchestration_witness :
  phase_of 1 (step 8000 (EvTool 1 {| success := true; message := "Call ended" |})
                (run (until_tool two_tools_reply) (accept 5000 7 demo_conn ∅ ∅ [] svc0))) = None
  /\ trace (lp (step 8000 (EvTool 1 {| success := true; message := "Call ended" |})
                  (run (until_tool two_tools_reply) (accept 5000 7 demo_conn ∅ ∅ [] svc0))))
     = trace (lp (run (until_tool two_tools_reply) (accept 5000 7 demo_conn ∅ ∅ [] svc0)))
  /\ exists es,
       trace (lp (run [(17800, EvAckDeadline 1);
                       (18000, EvTool 1 {| success := true; message := "again" |})]%Z
                    (step 8000 (EvTool 1 {| success := true; message := "Call ended" |})
                       (run (until_tool two_tools_reply) (accept 5000 7 demo_conn ∅ ∅ [] svc0)))))
         = trace (lp (run (until_tool two_tools_reply) (accept 5000 7 demo_conn ∅ ∅ [] svc0))) ++ es
       /\ forall e, In e es ->
            match e with
            | EffToolExec i _ _ | EffAIWithTools i _ _ | EffAIPlain i _ _ => i <> 1
            | _ => True
            end.
Proof.
  refine (hang_up_ends_orchestration 5000 7 demo_conn ∅ ∅ [] svc0
            (until_tool two_tools_reply)
            [(17800, EvAckDeadline 1);
             (18000, EvTool 1 {| success := true; message := "again" |})]%Z
            8000 1 "goodbye" "Call ended" hang_up [transfer] [] _ _).
  - vm_compute. reflexivity.
  - reflexivity.
Defined.

Example hang_up_skips_transfer :
  trace (lp (run (until_tool two_tools_reply ++
                  [(8000, EvTool 1 {| success := true; message := "Call ended" |})])%Z
               (accept 5000 7 demo_conn ∅ ∅ [] svc0)))
    = [EffClearIdle; EffDeepgramOpen 0; EffProcess "goodbye";
       EffAIWithTools 1 "CA1" "goodbye"; EffTTS 1 "Goodbye";
       EffSend (MediaFrame "MZ1" "AQIDBA=="); EffSend (MarkFrame "MZ1" "audio_7800");
       EffAck 1 Ack.RemoveListener; EffAck 1 (Ack.Resolve Ack.ByEcho true);
       EffToolExec 1 "CA1" hang_up]
  /\ tasks (lp (run (until_tool two_tools_reply ++
                  [(8000, EvTool 1 {| success := true; message := "Call ended" |})])%Z
               (accept 5000 7 demo_conn ∅ ∅ [] svc0))) = [].
Proof. vm_compute. split; reflexivity. Qed.

(** ** The quiet-window callback (C3) *)

(** C3, at the failing input.  Two final fragments stamped with the same
    millisecond start two timers that fire together; both find the quiet
    window elapsed and the buffer still full, so the utterance is handed
    to the orchestrator twice. *)
Theorem same_instant_fragments_flush_twice :
  trace (lp (run same_instant (accept 5000 7 demo_conn ∅ ∅ [] svc0)))
    = [EffClearIdle; EffDeepgramOpen 0;
       EffProcess "good bye"; EffAIWithTools 1 "CA1" "good bye";
       EffProcess "good bye"; EffAIWithTools 2 "CA1" "good bye"]
  /\ conversationBuffer (cl (run same_instant (accept 5000 7 demo_conn ∅ ∅ [] svc0)))
     = "good bye ".
Proof. vm_compute. split; reflexivity. Qed.

Example blank_and_interim_fragments_are_ignored :
  let s := run [(5010, EvMessage (InStart "MZ1" "CA1") true);
                (6000, EvTranscript "hello" true None);
                (7000, EvQuietTimer);
                (7100, EvAI 1 ChatRejected NotJSON);
                (7200, EvTTS 1 None);
                (7300, EvTranscript "   " true None);
                (7400, EvTranscript "partial" false None)]%Z
               (accept 5000 7 demo_conn ∅ ∅ [] svc0) in
  conversationBuffer (cl s) = "hello " /\ quietTimers (lp s) = [].
Proof. vm_compute. split; reflexivity. Qed.

Lemma empty_buffer_no_flush now s :
  conversationBuffer (cl s) = EmptyString -> quiet_callback now s = s.
Proof.
  intros E. unfold quiet_callback. rewrite E. cbn. rewrite andb_false_r. reflexivity.
Qed.

Example spaced_fragments_flush_once :
  trace (lp (run [(5010, EvMessage (InStart "MZ1" "CA1") true);
                  (6000, EvTranscript "good" true None);
                  (6500, EvTranscript "bye" true None);
                  (7000, EvQuietTimer);
                  (7500, EvQuietTimer)]%Z
               (accept 5000 7 demo_conn ∅ ∅ [] svc0)))
    = [EffClearIdle; EffDeepgramOpen 0;
       EffProcess "good bye"; EffAIWithTools 1 "CA1" "good bye"].
Proof. vm_compute. reflexivity. Qed.

(** *** Fragments that arrive one after the other *)







Lemma same_context_refl s : same_context s s.
Proof. repeat split. Qed.











(** ** Session status (C9) *)






(** ** The history is deleted on the stop event *)





(** ** The tool service *)

Section ToolServiceProperties.
Import Tools.

Lemma advertised_names name :
  In name (map td_name getAvailableTools) <-> name = "hang_up_call" \/ name = "transfer_call".
Proof. cbn. intuition congruence. Qed.

Ltac tool_cases name args :=
  destruct (String.eqb_spec name "hang_up_call") as [->|?];
    [|destruct (String.eqb_spec name "transfer_call") as [->|?]];
    destruct args as [?|];
    cbn [hangUpCall transferCall success message].

Lemma success_characterised type_error callSid name args twilio :
  success (executeToolCall type_error callSid name args twilio) = true
  <-> (name = "hang_up_call" \/ name = "transfer_call") /\ args <> None /\ twilio = Resolved.
Proof.
  unfold executeToolCall. tool_cases name args; try destruct twilio; cbn;
    intuition (try congruence; try discriminate).
Qed.

Lemma request_characterised callSid name args :
  request callSid name args <> None
  <-> (name = "hang_up_call" \/ name = "transfer_call") /\ args <> None.
Proof. unfold request. tool_cases name args; intuition (try congruence; try discriminate). Qed.

Lemma request_shape callSid name args q :
  request callSid name args = Some q ->
  match q with
  | EndCall sid => sid = callSid /\ name = "hang_up_call"
  | TransferCall sid d =>
      sid = callSid /\ name = "transfer_call" /\ exists a, args = Some a /\ d = arg "destination" a
  end.
Proof.
  unfold request. tool_cases name args; intros [= <-]; repeat split; eauto.
Qed.

Lemma no_request_no_dependence type_error callSid name args twilio twilio' :
  request callSid name args = None ->
  executeToolCall type_error callSid name args twilio'
  = executeToolCall type_error callSid name args twilio.
Proof.
  unfold executeToolCall, request. tool_cases name args; intros H; try discriminate H; reflexivity.
Qed.

Lemma unknown_tool type_error callSid name args twilio :
  ~ (name = "hang_up_call" \/ name = "transfer_call") ->
  executeToolCall type_error callSid name args twilio
  = {| success := false; message := "Unknown tool: " +:+ name |}.
Proof.
  unfold executeToolCall. tool_cases name args; intros H; try reflexivity; exfalso; auto.
Qed.

(** X4.  [executeToolCall] reports success exactly when the tool is one
    of those [getAvailableTools] advertises, the call carries an [args]
    object, and the request to the telephony service resolves.  It makes
    such a request exactly for an advertised tool with an [args] object,
    for the call identifier it was given; in every other case the result
    is a failure that does not depend on the telephony service, and for
    a name that is not advertised the message is [Unknown tool: <name>]. *)
Theorem executeToolCall_outcomes (type_error callSid name : string)
    (args : option (list (string * string))) (twilio : Outcome) :
  (success (executeToolCall type_error callSid name args twilio) = true
     <-> In name (map td_name getAvailableTools) /\ args <> None /\ twilio = Resolved)
  /\ (request callSid name args <> None
     <-> In name (map td_name getAvailableTools) /\ args <> None)
  /\ (forall q, request callSid name args = Some q ->
        match q with EndCall sid => sid = callSid /\ name = "hang_up_call"
                   | TransferCall sid d =>
                       sid = callSid /\ name = "transfer_call"
                       /\ exists a, args = Some a /\ d = arg "destination" a
        end)
  /\ (request callSid name args = None ->
        forall twilio',
          executeToolCall type_error callSid name args twilio'
          = executeToolCall type_error callSid name args twilio)
  /\ (~ In name (map td_name getAvailableTools) ->
        executeToolCall type_error callSid name args twilio
        = {| success := false; message := "Unknown tool: " +:+ name |}).
Proof.
  rewrite advertised_names.
  split; [apply success_characterised|].
  split; [apply request_characterised|].
  split; [intros q; apply request_shape|].
  split; [intros H twilio'; now apply no_request_no_dependence|].
  apply unknown_tool.
Qed.

(** X5.  A [hang_up_call] whose request to end the call is rejected does
    not end the orchestration: the failure is recorded in [toolResults]
    with the message [Failed to end call: <error>], and the loop goes on
    to the next tool call, which is executed. *)
Theorem rejected_hang_up_continues (type_error : string) (now : Z) (id : nat)
    (userMessage : string) (tc next : ToolCall) (rest : list ToolCall)
    (rs : list ToolResultEntry) (e : Caught) (s : State) :
  phase_of id s = Some (AwaitTool userMessage tc (next :: rest) rs) ->
  tc_name tc = "hang_up_call" ->
  let r := execute type_error (current_callSid s) tc (Rejected e) in
  let failure := {| tool := "hang_up_call"; tr_success := false;
                    tr_message := "Failed to end call: " +:+ error_text e |} in
  step now (EvTool id r) s
    = log [EffToolExec id (current_callSid s) next]
        (set_phase id (AwaitTool userMessage next rest (rs ++ [failure])) s)
  /\ phase_of id (step now (EvTool id r) s)
     = Some (AwaitTool userMessage next rest (rs ++ [failure])).
Proof.
  intros P N r failure. subst r failure.
  assert (E : step now (EvTool id (execute type_error (current_callSid s) tc (Rejected e))) s
              = log [EffToolExec id (current_callSid s) next]
                  (set_phase id (AwaitTool userMessage next rest
                     (rs ++ [{| tool := "hang_up_call"; tr_success := false;
                                tr_message := "Failed to end call: " +:+ error_text e |}])) s)).
  { cbn [step]. unfold on_tool. rewrite P.
    unfold execute, executeToolCall. rewrite N. cbn [String.eqb Ascii.eqb Bool.eqb].
    unfold hangUpCall. cbn [success message andb]. rewrite andb_false_r.
    cbn [next_tool]. reflexivity. }
  split; [exact E|]. rewrite E.
  unfold phase_of. rewrite tasks_log, tasks_set_phase.
  rewrite assoc_get_set, Nat.eqb_refl. unfold phase_of in P. rewrite P. reflexivity.
Qed.

(** X5, at a call whose reply asked to hang up and then to transfer. *)
Lemma rejected_hang_up_continues_witness :
  phase_of 1 awaiting_hang_up = Some (AwaitTool "goodbye" hang_up [transfer] [])
  /\ tc_name hang_up = "hang_up_call"
  /\ step 8000 (EvTool 1 (execute "" (current_callSid awaiting_hang_up) hang_up
                            (Rejected (ErrorObject "not found")))) awaiting_hang_up
     = log [EffToolExec 1 (current_callSid awaiting_hang_up) transfer]
         (set_phase 1
            (AwaitTool "goodbye" transfer []
               [{| tool := "hang_up_call"; tr_success := false;
                   tr_message := "Failed to end call: not found" |}])
            awaiting_hang_up).
Proof.
  assert (P : phase_of 1 awaiting_hang_up = Some (AwaitTool "goodbye" hang_up [transfer] []))
    by (vm_compute; reflexivity).
  split; [exact P|]. split; [reflexivity|].
  exact (proj1 (rejected_hang_up_continues "" 8000 1 "goodbye" hang_up transfer [] []
                  (ErrorObject "not found") awaiting_hang_up P eq_refl)).
Defined.

End ToolServiceProperties.

(** ** The history store of the AI service *)

Section AIServiceProperties.
Import AIService.







Lemma get_or_new_map callId sv :
  conversationHistory (snd (get_or_new callId sv)) = conversationHistory sv.
Proof. unfold get_or_new. destruct (conversationHistory sv !! callId); reflexivity. Qed.

Lemma array_of_push_same r msgs sv :
  r < length (arrays sv) -> array_of r (push r msgs sv) = array_of r sv ++ msgs.
Proof.
  intros H. unfold array_of, push. cbn [arrays]. rewrite list_lookup_alter_eq.
  destruct (lookup_lt_is_Some_2 (arrays sv) r H) as [a E]. rewrite E. reflexivity.
Qed.

Lemma array_of_push_other r r' msgs sv :
  r' <> r -> array_of r' (push r msgs sv) = array_of r' sv.
Proof.
  intros H. unfold array_of, push. cbn [arrays]. rewrite list_lookup_alter_ne by congruence.
  reflexivity.
Qed.

Lemma length_arrays_push r msgs sv : length (arrays (push r msgs sv)) = length (arrays sv).
Proof. unfold push. cbn [arrays]. apply length_alter. Qed.

Lemma owned_get_or_new callId sv :
  store_ok sv ->
  owned callId (fst (get_or_new callId sv)) (snd (get_or_new callId sv))
  /\ conversationHistory (snd (get_or_new callId sv)) = conversationHistory sv
  /\ array_of (fst (get_or_new callId sv)) (snd (get_or_new callId sv))
     = getConversationHistory callId sv
  /\ (forall other, getConversationHistory other (snd (get_or_new callId sv))
                    = getConversationHistory other sv)
  /\ (conversationHistory sv !! callId = None ->
      forall k, conversationHistory sv !! k <> Some (fst (get_or_new callId sv))).
Proof.
  intros [R D]. unfold get_or_new, getConversationHistory.
  destruct (conversationHistory sv !! callId) as [r|] eqn:L; cbn [fst snd alloc].
  - split; [|split; [|split; [|split]]]; auto.
    + split; [split; assumption|]. split; [eapply R; eauto|].
      intros k Hk. eapply D; eauto.
  - assert (F : forall k, conversationHistory sv !! k <> Some (length (arrays sv))).
    { intros k Hk. apply R in Hk. lia. }
    split; [|split; [|split; [|split]]]; auto.
    + split; [split|split].
      * intros k r Hk. cbn [conversationHistory arrays] in *. rewrite length_app. cbn.
        apply R in Hk. lia.
      * exact D.
      * cbn [arrays]. rewrite length_app. cbn. lia.
      * intros k Hk. cbn [conversationHistory] in Hk. exfalso. eapply F; eauto.
    + unfold array_of. cbn [arrays]. rewrite lookup_app_r by lia.
      rewrite Nat.sub_diag. reflexivity.
    + intros other. cbn [conversationHistory].
      destruct (conversationHistory sv !! other) as [r|] eqn:Lo; [|reflexivity].
      unfold array_of. cbn [arrays]. rewrite lookup_app_l by (eapply R; eauto). reflexivity.
Qed.

Lemma owned_push callId r msgs sv :
  owned callId r sv ->
  owned callId r (push r msgs sv)
  /\ conversationHistory (push r msgs sv) = conversationHistory sv
  /\ array_of r (push r msgs sv) = array_of r sv ++ msgs
  /\ (forall other, other <> callId ->
        getConversationHistory other (push r msgs sv) = getConversationHistory other sv)
  /\ (forall k, conversationHistory sv !! k = Some r ->
        getConversationHistory k (push r msgs sv) = getConversationHistory k sv ++ msgs)
  /\ (conversationHistory sv !! callId = None ->
        getConversationHistory callId (push r msgs sv) = []).
Proof.
  intros ([R D] & Hr & O).
  assert (A := array_of_push_same r msgs sv Hr).
  split; [|split; [|split; [|split; [|split]]]]; auto.
  - split; [split|split].
    + intros k r' Hk. rewrite length_arrays_push. eapply R; eauto.
    + exact D.
    + rewrite length_arrays_push. exact Hr.
    + exact O.
  - intros other Hne. unfold getConversationHistory. cbn [push conversationHistory].
    destruct (conversationHistory sv !! other) as [r'|] eqn:L; [|reflexivity].
    apply array_of_push_other. intros ->. apply Hne. apply O. exact L.
  - intros k Hk. unfold getConversationHistory. cbn [push conversationHistory].
    rewrite Hk. exact A.
  - intros N. unfold getConversationHistory. cbn [push conversationHistory]. rewrite N. reflexivity.
Qed.

Lemma store_ok_set_history_owned callId r sv :
  owned callId r sv ->
  store_ok (set_history callId r sv)
  /\ getConversationHistory callId (set_history callId r sv) = array_of r sv
  /\ forall other, other <> callId ->
       getConversationHistory other (set_history callId r sv) = getConversationHistory other sv.
Proof.
  intros ([R D] & Hr & O). unfold set_history, getConversationHistory, store_ok, refs_ok, distinct_refs.
  cbn [conversationHistory arrays]. split; [split|split].
  - intros k r'. destruct (decide (k = callId)) as [->|Hne].
    + rewrite lookup_insert_eq. intros [= <-]. exact Hr.
    + rewrite lookup_insert_ne by congruence. apply R.
  - intros k1 k2 r'.
    destruct (decide (k1 = callId)) as [->|H1], (decide (k2 = callId)) as [->|H2];
      rewrite ?lookup_insert_eq, ?lookup_insert_ne by congruence; auto.
    + intros [= <-] H. symmetry. auto.
    + intros H [= <-]. auto.
    + apply D.
  - rewrite lookup_insert_eq. reflexivity.
  - intros other Hne. rewrite lookup_insert_ne by congruence. reflexivity.
Qed.

Lemma store_ok_alloc_set callId a sv :
  store_ok sv ->
  let sv' := set_history callId (fst (alloc a sv)) (snd (alloc a sv)) in
  store_ok sv'
  /\ getConversationHistory callId sv' = a
  /\ forall other, other <> callId ->
       getConversationHistory other sv' = getConversationHistory other sv.
Proof.
  intros [R D]. unfold alloc, set_history, getConversationHistory, store_ok, refs_ok, distinct_refs.
  cbn [fst snd conversationHistory arrays]. split; [split|split].
  - intros k r'. rewrite length_app. cbn. destruct (decide (k = callId)) as [->|Hne].
    + rewrite lookup_insert_eq. intros [= <-]. lia.
    + rewrite lookup_insert_ne by congruence. intros H. apply R in H. lia.
  - intros k1 k2 r'.
    destruct (decide (k1 = callId)) as [->|H1], (decide (k2 = callId)) as [->|H2];
      rewrite ?lookup_insert_eq, ?lookup_insert_ne by congruence; auto.
    + intros [= <-] H. apply R in H. lia.
    + intros H [= <-]. apply R in H. lia.
    + apply D.
  - rewrite lookup_insert_eq. unfold array_of. cbn [arrays].
    rewrite lookup_app_r by lia. rewrite Nat.sub_diag. reflexivity.
  - intros other Hne. rewrite lookup_insert_ne by congruence.
    destruct (conversationHistory sv !! other) as [r|] eqn:L; [|reflexivity].
    unfold array_of. cbn [arrays]. rewrite lookup_app_l by (eapply R; eauto). reflexivity.
Qed.

Lemma store_ok_clear callId sv :
  store_ok sv ->
  store_ok (clearConversationHistory callId sv)
  /\ getConversationHistory callId (clearConversationHistory callId sv) = []
  /\ forall other, other <> callId ->
       getConversationHistory other (clearConversationHistory callId sv)
       = getConversationHistory other sv.
Proof.
  intros [R D]. unfold clearConversationHistory, getConversationHistory, store_ok, refs_ok,
    distinct_refs. cbn [conversationHistory arrays]. split; [split|split].
  - intros k r H. apply lookup_delete_Some in H. destruct H as [_ H]. eapply R; eauto.
  - intros k1 k2 r H1 H2. apply lookup_delete_Some in H1, H2. destruct H1, H2. eapply D; eauto.
  - rewrite lookup_delete_eq. reflexivity.
  - intros other Hne. rewrite lookup_delete_ne by congruence. reflexivity.
Qed.

Lemma get_or_new_known callId r sv :
  conversationHistory sv !! callId = Some r -> get_or_new callId sv = (r, sv).
Proof. intros H. unfold get_or_new. rewrite H. reflexivity. Qed.

Lemma owned_begin um callId now sv :
  store_ok sv ->
  let r := fst (generateResponse_begin um callId now sv) in
  let sv1 := snd (generateResponse_begin um callId now sv) in
  owned callId r sv1
  /\ conversationHistory sv1 = conversationHistory sv
  /\ array_of r sv1
     = getConversationHistory callId sv
       ++ [{| role := RUser; content := Some um; timestamp := Some now |}]
  /\ (forall other, other <> callId ->
        getConversationHistory other sv1 = getConversationHistory other sv)
  /\ getConversationHistory callId sv1
     = match conversationHistory sv !! callId with
       | Some _ => getConversationHistory callId sv
                   ++ [{| role := RUser; content := Some um; timestamp := Some now |}]
       | None => []
       end.
Proof.
  intros H. unfold generateResponse_begin.
  destruct (owned_get_or_new callId sv H) as (O & M & A & G & F).
  pose proof (fun r0 => get_or_new_known callId r0 sv) as Kn.
  destruct (get_or_new callId sv) as [r sv0]. cbn [fst snd] in *.
  destruct (owned_push callId r [{| role := RUser; content := Some um; timestamp := Some now |}]
              sv0 O) as (O1 & M1 & A1 & G1 & K1 & N1).
  split; [exact O1|]. split; [congruence|]. split; [congruence|].
  split; [intros other Hne; rewrite G1 by exact Hne; apply G|].
  destruct (conversationHistory sv !! callId) as [r0|] eqn:L.
  - specialize (Kn r0 eq_refl). injection Kn as -> ->.
    rewrite K1 by exact L. reflexivity.
  - apply N1. rewrite M. exact L.
Qed.

Lemma owned_store_ok callId r sv : owned callId r sv -> store_ok sv.
Proof. intros [H _]. exact H. Qed.

Lemma end_generateResponse callId r now out sv :
  owned callId r sv ->
  let res := generateResponse_end r callId now out sv in
  store_ok (snd res)
  /\ (forall other, other <> callId ->
        getConversationHistory other (snd res) = getConversationHistory other sv)
  /\ (fst res = Thrown -> snd res = sv).
Proof.
  intros O.
  assert (Keep : store_ok sv
                 /\ (forall other, other <> callId ->
                       getConversationHistory other sv = getConversationHistory other sv)
                 /\ (@Thrown string = Thrown -> sv = sv))
    by (split; [exact (owned_store_ok _ _ _ O)|split; reflexivity]).
  unfold generateResponse_end.
  destruct out as [| |c]; [exact Keep|exact Keep|].
  destruct (JS.truthy (Some c)) as [c'|]; [|exact Keep].
  set (a := {| role := RAssistant; content := Some c; timestamp := Some now |}).
  destruct (owned_push callId r [a] sv O) as (O1 & M1 & A1 & G1 & _).
  pose proof (store_ok_alloc_set callId (JS.slice_last HISTORY_WINDOW (array_of r (push r [a] sv)))
                (push r [a] sv) (owned_store_ok _ _ _ O1)) as (S2 & _ & G2).
  unfold alloc in *. cbv beta iota zeta. cbn [fst snd] in *.
  split; [exact S2|]. split; [|intros E; discriminate E].
  intros other Hne. rewrite G2 by exact Hne. apply G1. exact Hne.
Qed.

Lemma end_generateResponseWithTools callId r um out parsed sv :
  owned callId r sv ->
  let res := generateResponseWithTools_end r um callId out parsed sv in
  store_ok (snd res)
  /\ (forall other, other <> callId ->
        getConversationHistory other (snd res) = getConversationHistory other sv)
  /\ (ai_failure out parsed = false ->
        exists reply,
          fst res = Returned reply
          /\ getConversationHistory callId (snd res)
             = array_of r sv
               ++ [{| role := RUser; content := Some um; timestamp := None |};
                   {| role := RAssistant; content := text reply; timestamp := None |}]).
Proof.
  intros O. unfold generateResponseWithTools_end.
  assert (Keep : store_ok sv /\ (forall other, other <> callId ->
             getConversationHistory other sv = getConversationHistory other sv))
    by (split; [exact (owned_store_ok _ _ _ O)|reflexivity]).
  destruct out as [| |c]; cbn [fst snd ai_failure];
    try (destruct Keep; split; [assumption|split; [assumption|discriminate]]).
  destruct c as [|x c]; cbn [JS.truthy fst snd];
    [destruct Keep; split; [assumption|split; [assumption|discriminate]]|].
  assert (Go : forall reply,
    let sv1 := push r [{| role := RUser; content := Some um; timestamp := None |};
                       {| role := RAssistant; content := text reply; timestamp := None |}] sv in
    store_ok (set_history callId r sv1)
    /\ (forall other, other <> callId ->
          getConversationHistory other (set_history callId r sv1)
          = getConversationHistory other sv)
    /\ getConversationHistory callId (set_history callId r sv1)
       = array_of r sv
         ++ [{| role := RUser; content := Some um; timestamp := None |};
             {| role := RAssistant; content := text reply; timestamp := None |}]).
  { intros reply sv1. subst sv1.
    destruct (owned_push callId r
                [{| role := RUser; content := Some um; timestamp := None |};
                 {| role := RAssistant; content := text reply; timestamp := None |}] sv O)
      as (O1 & M1 & A1 & G1 & _).
    destruct (store_ok_set_history_owned callId r _ O1) as (S2 & H2 & G2).
    split; [exact S2|]. split.
    - intros other Hne. rewrite G2 by exact Hne. apply G1. exact Hne.
    - rewrite H2. exact A1. }
  destruct parsed as [| |reply]; cbn [fst snd].
  - destruct (Go {| text := Some (String x c); toolCalls := None |}) as (S & G & Hh).
    split; [exact S|]. split; [exact G|]. intros _. eexists. split; [reflexivity|exact Hh].
  - destruct Keep; split; [assumption|split; [assumption|discriminate]].
  - destruct (Go reply) as (S & G & Hh).
    split; [exact S|]. split; [exact G|]. intros _. eexists. split; [reflexivity|exact Hh].
Qed.

Lemma store_generateResponse um callId now out sv :
  store_ok sv ->
  store_ok (snd (generateResponse um callId now out sv))
  /\ forall other, other <> callId ->
       getConversationHistory other (snd (generateResponse um callId now out sv))
       = getConversationHistory other sv.
Proof.
  intros H. unfold generateResponse.
  destruct (owned_begin um callId now sv H) as (O & _ & _ & G & _).
  destruct (generateResponse_begin um callId now sv) as [r sv1]. cbn [fst snd] in *.
  destruct (end_generateResponse callId r now out sv1 O) as (S & G' & _).
  split; [exact S|]. intros other Hne. rewrite G' by exact Hne. apply G. exact Hne.
Qed.

Lemma store_generateResponseWithTools um callId out parsed sv :
  store_ok sv ->
  store_ok (snd (generateResponseWithTools um callId out parsed sv))
  /\ (forall other, other <> callId ->
       getConversationHistory other (snd (generateResponseWithTools um callId out parsed sv))
       = getConversationHistory other sv)
  /\ (ai_failure out parsed = false ->
        exists reply,
          fst (generateResponseWithTools um callId out parsed sv) = Returned reply
          /\ getConversationHistory callId (snd (generateResponseWithTools um callId out parsed sv))
             = getConversationHistory callId sv
               ++ [{| role := RUser; content := Some um; timestamp := None |};
                   {| role := RAssistant; content := text reply; timestamp := None |}]).
Proof.
  intros H. unfold generateResponseWithTools, generateResponseWithTools_begin.
  destruct (owned_get_or_new callId sv H) as (O & _ & A & G & _).
  destruct (get_or_new callId sv) as [r sv1]. cbn [fst snd] in *.
  destruct (end_generateResponseWithTools callId r um out parsed sv1 O) as (S & G' & K).
  split; [exact S|]. split.
  - intros other Hne. rewrite G' by exact Hne. apply G.
  - intros F. destruct (K F) as (reply & E1 & E2). exists reply. split; [exact E1|].
    rewrite E2, A. reflexivity.
Qed.

Lemma store_generateStreamingResponse um callId t1 t2 out sv :
  store_ok sv ->
  store_ok (sr_service (generateStreamingResponse um callId t1 t2 out sv))
  /\ forall other, other <> callId ->
       getConversationHistory other (sr_service (generateStreamingResponse um callId t1 t2 out sv))
       = getConversationHistory other sv.
Proof.
  intros H. unfold generateStreamingResponse.
  destruct (owned_begin um callId t1 sv H) as (O & _ & _ & G & _).
  destruct (generateResponse_begin um callId t1 sv) as [r sv1]. cbn [fst snd] in *.
  assert (Keep : store_ok sv1 /\ forall other, other <> callId ->
            getConversationHistory other sv1 = getConversationHistory other sv)
    by (split; [exact (owned_store_ok _ _ _ O)|exact G]).
  destruct out as [|contents breaks]; [exact Keep|].
  destruct (consume contents EmptyString []) as [full delivered].
  destruct breaks; [exact Keep|].
  set (a := {| role := RAssistant; content := Some full; timestamp := Some t2 |}).
  destruct (owned_push callId r [a] sv1 O) as (O1 & M1 & A1 & G1 & _).
  pose proof (store_ok_alloc_set callId (JS.slice_last HISTORY_WINDOW (array_of r (push r [a] sv1)))
                (push r [a] sv1) (owned_store_ok _ _ _ O1)) as (S2 & _ & G2).
  unfold alloc in *. cbv beta iota zeta. cbn [fst snd sr_service] in *.
  split; [exact S2|].
  intros other Hne. rewrite G2 by exact Hne. rewrite G1 by exact Hne. apply G. exact Hne.
Qed.

(** X6.  The histories of different calls never interfere.  In a store
    where every call identifier holds an array of its own, a request for
    one call, whatever its outcome, and the deletion of its history
    leave the history of every other call as it was, and leave the store
    in that shape. *)
Theorem histories_are_isolated (callId other userMessage : string) (now later : Z)
    (out : ChatOutcome) (parsed : Parsed) (stream : StreamOutcome) (sv : Service) :
  store_ok sv ->
  other <> callId ->
  (store_ok (snd (generateResponse userMessage callId now out sv))
   /\ getConversationHistory other (snd (generateResponse userMessage callId now out sv))
      = getConversationHistory other sv)
  /\ (store_ok (snd (generateResponseWithTools userMessage callId out parsed sv))
      /\ getConversationHistory other
           (snd (generateResponseWithTools userMessage callId out parsed sv))
         = getConversationHistory other sv)
  /\ (store_ok (sr_service (generateStreamingResponse userMessage callId now later stream sv))
      /\ getConversationHistory other
           (sr_service (generateStreamingResponse userMessage callId now later stream sv))
         = getConversationHistory other sv)
  /\ (store_ok (clearConversationHistory callId sv)
      /\ getConversationHistory other (clearConversationHistory callId sv)
         = getConversationHistory other sv).
Proof.
  intros H Hne.
  destruct (store_generateResponse userMessage callId now out sv H) as [S1 G1].
  destruct (store_generateResponseWithTools userMessage callId out parsed sv H) as (S2 & G2 & _).
  destruct (store_generateStreamingResponse userMessage callId now later stream sv H) as [S3 G3].
  destruct (store_ok_clear callId sv H) as (S4 & _ & G4).
  repeat split; auto; try apply S1; try apply S2; try apply S3; try apply S4.
Qed.

(** X7.  A [generateResponse] whose backend call rejects, or returns no
    content, rejects as well and stores nothing; the user message it had
    pushed stays at the end of the history when the call identifier
    already had one, and is lost when it had none. *)
Theorem failed_request_leaves_user_message (userMessage callId : string) (now : Z)
    (out : ChatOutcome) (sv : Service) :
  store_ok sv ->
  request_fails out = true ->
  fst (generateResponse userMessage callId now out sv) = Thrown
  /\ conversationHistory (snd (generateResponse userMessage callId now out sv))
     = conversationHistory sv
  /\ getConversationHistory callId (snd (generateResponse userMessage callId now out sv))
     = match conversationHistory sv !! callId with
       | Some _ => getConversationHistory callId sv
                   ++ [{| role := RUser; content := Some userMessage; timestamp := Some now |}]
       | None => []
       end.
Proof.
  intros H F. unfold generateResponse.
  destruct (owned_begin userMessage callId now sv H) as (_ & M & _ & _ & K).
  destruct (generateResponse_begin userMessage callId now sv) as [r sv1]. cbn [fst snd] in *.
  assert (E : generateResponse_end r callId now out sv1 = (Thrown, sv1)).
  { unfold generateResponse_end. destruct out as [| |[|x c]]; try reflexivity. discriminate F. }
  rewrite E. cbn [fst snd]. auto.
Qed.



(** X9.  Every reply [generateResponseWithTools] gets from the backend
    adds the user message and the reply to the history stored for the
    call, neither with a timestamp, and removes nothing: after a
    conversation of [n] such replies the history is [2 n] messages
    longer, whatever its length was. *)
Theorem tool_replies_grow_history (callId : string)
    (turns : list (string * ChatOutcome * Parsed)) (sv : Service) :
  store_ok sv ->
  Forall (fun t => ai_failure (snd (fst t)) (snd t) = false) turns ->
  exists added,
    getConversationHistory callId (converse callId turns sv)
      = getConversationHistory callId sv ++ added
    /\ length added = 2 * length turns
    /\ Forall (fun m => timestamp m = None) added
    /\ map content (List.filter (fun m => match role m with RUser => true | _ => false end) added)
       = map (fun t => Some (fst (fst t))) turns.
Proof.
  intros H F. revert sv H. induction F as [|[[um out] parsed] turns Ft _ IH]; intros sv H.
  - exists []. rewrite app_nil_r. repeat split; constructor.
  - cbn [converse fst snd] in *.
    destruct (store_generateResponseWithTools um callId out parsed sv H) as (S & _ & K).
    destruct (K Ft) as (reply & _ & E).
    destruct (IH _ S) as (added & E2 & L & T & U).
    eexists. rewrite E2, E, <- app_assoc. split; [reflexivity|].
    cbn [app length map List.filter role]. repeat split.
    + lia.
    + repeat constructor. exact T.
    + cbn. f_equal. exact U.
Qed.

(** *** Old conversations *)

Lemma cleanup_spec now maxAgeHours sv :
  arrays (cleanupOldConversations now maxAgeHours sv) = arrays sv
  /\ forall k,
       conversationHistory (cleanupOldConversations now maxAgeHours sv) !! k
       = match conversationHistory sv !! k with
         | Some r =>
             if stale (new_Date (now - maxAgeHours * MS_PER_HOUR)) (array_of r sv)
             then None else Some r
         | None => None
         end.
Proof.
  unfold cleanupOldConversations.
  set (cutoff := new_Date (now - maxAgeHours * MS_PER_HOUR)).
  set (f := fun (callId : string) (history : nat) (acc : Service) =>
              if stale cutoff (array_of history sv) then clearConversationHistory callId acc
              else acc).
  assert (G : arrays (map_fold f sv (conversationHistory sv)) = arrays sv
              /\ forall k,
                   conversationHistory (map_fold f sv (conversationHistory sv)) !! k
                   = match conversationHistory sv !! k with
                     | Some r => if stale cutoff (array_of r sv) then None
                                 else conversationHistory sv !! k
                     | None => conversationHistory sv !! k
                     end).
  { apply (map_fold_weak_ind
             (fun acc m => arrays acc = arrays sv
                /\ forall k, conversationHistory acc !! k
                     = match m !! k with
                       | Some r => if stale cutoff (array_of r sv) then None
                                   else conversationHistory sv !! k
                       | None => conversationHistory sv !! k
                       end)).
    - split; [reflexivity|]. intros k. rewrite lookup_empty. reflexivity.
    - intros i x m acc Hi [IA IH]. unfold f.
      destruct (stale cutoff (array_of x sv)) eqn:St.
      + split; [exact IA|]. intros k. cbn [clearConversationHistory conversationHistory].
        destruct (decide (k = i)) as [->|Hne].
        * rewrite lookup_delete_eq, lookup_insert_eq, St. reflexivity.
        * rewrite lookup_delete_ne, lookup_insert_ne by congruence. apply IH.
      + split; [exact IA|]. intros k.
        destruct (decide (k = i)) as [->|Hne].
        * rewrite lookup_insert_eq, St, IH, Hi. reflexivity.
        * rewrite lookup_insert_ne by congruence. apply IH. }
  destruct G as [GA GK]. split; [exact GA|].
  intros k. rewrite GK. destruct (conversationHistory sv !! k) as [r|] eqn:L; [|reflexivity].
  destruct (stale cutoff (array_of r sv)); reflexivity.
Qed.

Lemma service_eq (a b : Service) :
  conversationHistory a = conversationHistory b -> arrays a = arrays b -> a = b.
Proof. destruct a, b. cbn. intros -> ->. reflexivity. Qed.

Lemma array_of_same_arrays r a b : arrays a = arrays b -> array_of r a = array_of r b.
Proof. unfold array_of. intros ->. reflexivity. Qed.

Lemma cleanup_history now maxAgeHours k sv :
  getConversationHistory k (cleanupOldConversations now maxAgeHours sv)
  = (if stale (new_Date (now - maxAgeHours * MS_PER_HOUR)) (getConversationHistory k sv)
     then [] else getConversationHistory k sv).
Proof.
  destruct (cleanup_spec now maxAgeHours sv) as [A K].
  unfold getConversationHistory. rewrite K.
  destruct (conversationHistory sv !! k) as [r|]; [|reflexivity].
  destruct (stale _ (array_of r sv)); [reflexivity|].
  apply array_of_same_arrays. exact A.
Qed.

Lemma generateResponse_success_history um callId now reply sv :
  store_ok sv -> reply <> EmptyString ->
  getConversationHistory callId (snd (generateResponse um callId now (ChatContent reply) sv))
  = JS.slice_last HISTORY_WINDOW
      (getConversationHistory callId sv
       ++ [{| role := RUser; content := Some um; timestamp := Some now |};
           {| role := RAssistant; content := Some reply; timestamp := Some now |}]).
Proof.
  intros H Hr. unfold generateResponse.
  destruct (owned_begin um callId now sv H) as (O & _ & A & _ & _).
  destruct (generateResponse_begin um callId now sv) as [h sv1]. cbn [fst snd] in *.
  unfold generateResponse_end.
  assert (T : JS.truthy (Some reply) = Some reply) by (destruct reply; [congruence|reflexivity]).
  rewrite T.
  set (a := {| role := RAssistant; content := Some reply; timestamp := Some now |}).
  destruct (owned_push callId h [a] sv1 O) as (O1 & _ & A1 & _).
  pose proof (store_ok_alloc_set callId
                (JS.slice_last HISTORY_WINDOW (array_of h (push h [a] sv1)))
                (push h [a] sv1) (owned_store_ok _ _ _ O1)) as (_ & E & _).
  unfold alloc in *. cbv beta iota zeta. cbn [fst snd] in *.
  rewrite E, A1, A, <- app_assoc. reflexivity.
Qed.

Lemma stale_cases (v : Z) (history : list ConversationMessage) :
  stale (new_Date v) history = true
  <-> (Z.abs v <= 8640000000000000)%Z
      /\ exists t, (last history) ≫= timestamp = Some t /\ (t < v)%Z.
Proof.
  unfold stale, new_Date, MAX_TIME.
  destruct (last history) as [m|]; cbn.
  - destruct (timestamp m) as [t|]; cbn.
    + destruct (Z.leb_spec (Z.abs v) 8640000000000000) as [Hv|Hv].
      * rewrite Z.ltb_lt. split; [eauto|]. intros (_ & t' & [= <-] & Ht). exact Ht.
      * split; [discriminate|]. intros [Bad _]. lia.
    + split; [discriminate|]. intros (_ & t' & [=] & _).
  - split; [discriminate|]. intros (_ & t' & [=] & _).
Qed.

(** X10.  For a clock and an age limit on which the cut-off is computed
    exactly, [cleanupOldConversations] deletes the history of exactly
    the calls whose last message carries a timestamp older than the
    cut-off (now minus the given number of hours), provided the cut-off
    is a valid date; every other history, also an empty one and one
    whose last message has no timestamp, is kept unchanged.  With a
    cut-off beyond the range of dates nothing is deleted.  A second run
    with the same arguments changes nothing. *)
Theorem cleanup_deletes_exactly_the_stale (now maxAgeHours : Z) (callId : string)
    (sv : Service) :
  (Z.abs now <= 8640000000000000)%Z ->
  (Z.abs (maxAgeHours * 3600000) <= 9007199254740991)%Z ->
  let cutoffTime := (now - maxAgeHours * 3600000)%Z in
  let sv' := cleanupOldConversations now maxAgeHours sv in
  let history := getConversationHistory callId sv in
  let old :=
    (Z.abs cutoffTime <= 8640000000000000)%Z
    /\ exists t, (last history) ≫= timestamp = Some t /\ (t < cutoffTime)%Z in
  (old -> getConversationHistory callId sv' = [])
  /\ (~ old -> getConversationHistory callId sv' = history)
  /\ ((8640000000000000 < Z.abs cutoffTime)%Z -> sv' = sv)
  /\ cleanupOldConversations now maxAgeHours sv' = sv'
  /\ (store_ok sv -> store_ok sv').
Proof.
  intros _ _ cutoffTime sv' history old. subst cutoffTime sv' history old.
  change 3600000%Z with MS_PER_HOUR.
  destruct (cleanup_spec now maxAgeHours sv) as [A K].
  split; [|split; [|split]].
  { intros O. apply stale_cases in O. rewrite cleanup_history, O. reflexivity. }
  { intros O. rewrite cleanup_history.
    destruct (stale _ (getConversationHistory callId sv)) eqn:St; [|reflexivity].
    exfalso. apply O. apply stale_cases. exact St. }
  { intros Far. apply service_eq; [|exact A].
    apply map_eq. intros k. rewrite K.
    destruct (conversationHistory sv !! k) as [r|]; [|reflexivity].
    destruct (stale _ (array_of r sv)) eqn:St; [|reflexivity].
    apply stale_cases in St. lia. }
  set (sv' := cleanupOldConversations now maxAgeHours sv) in *.
  set (cutoff := new_Date (now - maxAgeHours * MS_PER_HOUR)) in *.
  split.
  - destruct (cleanup_spec now maxAgeHours sv') as [A2 K2].
    apply service_eq; [|congruence].
    apply map_eq. intros k. rewrite K2. fold cutoff.
    destruct (conversationHistory sv' !! k) as [r|] eqn:L; [|reflexivity].
    rewrite K in L. destruct (conversationHistory sv !! k) as [r0|]; [|discriminate].
    cbv beta iota. rewrite (array_of_same_arrays r sv' sv A).
    destruct (stale cutoff (array_of r0 sv)) eqn:St; [discriminate|].
    injection L as <-. rewrite St. reflexivity.
  - intros [R D]. split.
    + intros k r Hk. rewrite K in Hk. rewrite A.
      destruct (conversationHistory sv !! k) as [r0|] eqn:L; [|discriminate].
      destruct (stale cutoff (array_of r0 sv)); [discriminate|]. injection Hk as <-.
      eapply R; eauto.
    + intros k1 k2 r H1 H2. rewrite K in H1, H2.
      destruct (conversationHistory sv !! k1) as [r1|] eqn:L1; [|discriminate].
      destruct (conversationHistory sv !! k2) as [r2|] eqn:L2; [|discriminate].
      destruct (stale cutoff (array_of r1 sv)); [discriminate|].
      destruct (stale cutoff (array_of r2 sv)); [discriminate|].
      injection H1 as <-. injection H2 as <-. eapply D; eauto.
Qed.

Lemma last_slice_last {A} n (l : list A) (a : A) :
  0 < n -> last (JS.slice_last n (l ++ [a])) = Some a.
Proof.
  intros Hn. unfold JS.slice_last. rewrite length_app. cbn [length].
  rewrite skipn_app.
  replace (length l + 1 - n - length l) with 0 by lia. cbn [skipn].
  apply last_snoc.
Qed.

(** X11.  A history whose last message was written by
    [generateResponseWithTools] is never deleted by
    [cleanupOldConversations], whatever the time and the age limit,
    since that message has no timestamp; a history last written by
    [generateResponse] at the time [t] is deleted exactly when the
    cut-off is a valid date and [t] is older than it. *)
Theorem tool_conversations_are_never_cleaned (userMessage callId : string)
    (out : ChatOutcome) (parsed : Parsed) (reply : string) (t now maxAgeHours : Z)
    (sv : Service) :
  store_ok sv ->
  ai_failure out parsed = false ->
  reply <> EmptyString ->
  (Z.abs t <= 8640000000000000)%Z ->
  (Z.abs now <= 8640000000000000)%Z ->
  (Z.abs (maxAgeHours * 3600000) <= 9007199254740991)%Z ->
  let cutoffTime := (now - maxAgeHours * 3600000)%Z in
  let with_tools := snd (generateResponseWithTools userMessage callId out parsed sv) in
  let without := snd (generateResponse userMessage callId t (ChatContent reply) sv) in
  getConversationHistory callId (cleanupOldConversations now maxAgeHours with_tools)
    = getConversationHistory callId with_tools
  /\ getConversationHistory callId with_tools <> []
  /\ getConversationHistory callId (cleanupOldConversations now maxAgeHours without)
     = (if (Z.abs cutoffTime <=? 8640000000000000)%Z && (t <? cutoffTime)%Z then []
        else getConversationHistory callId without).
Proof.
  intros H F Hr _ _ _ cutoffTime with_tools without. subst cutoffTime with_tools without.
  change 3600000%Z with MS_PER_HOUR.
  destruct (store_generateResponseWithTools userMessage callId out parsed sv H) as (_ & _ & K).
  destruct (K F) as (r & _ & E).
  rewrite !cleanup_history, E, (generateResponse_success_history _ _ _ _ _ H Hr).
  unfold stale.
  change (getConversationHistory callId sv
          ++ [{| role := RUser; content := Some userMessage; timestamp := None |};
              {| role := RAssistant; content := text r; timestamp := None |}])
    with (getConversationHistory callId sv
          ++ [{| role := RUser; content := Some userMessage; timestamp := None |}]
             ++ [{| role := RAssistant; content := text r; timestamp := None |}]).
  change (getConversationHistory callId sv
          ++ [{| role := RUser; content := Some userMessage; timestamp := Some t |};
              {| role := RAssistant; content := Some reply; timestamp := Some t |}])
    with (getConversationHistory callId sv
          ++ [{| role := RUser; content := Some userMessage; timestamp := Some t |}]
             ++ [{| role := RAssistant; content := Some reply; timestamp := Some t |}]).
  rewrite !app_assoc, last_snoc, last_slice_last by (unfold HISTORY_WINDOW; lia).
  cbn [timestamp]. split; [reflexivity|]. split.
  - intros Bad. apply app_eq_nil in Bad. destruct Bad as [_ Bad]. discriminate Bad.
  - unfold new_Date, MAX_TIME.
    destruct (Z.abs (now - maxAgeHours * MS_PER_HOUR) <=? 8640000000000000)%Z; reflexivity.
Qed.

(** *** Statistics and summaries *)

Lemma total_le_bound (f : nat -> nat) (n : nat) (m : gmap string nat) :
  (forall k r, m !! k = Some r -> f r <= n) ->
  map_fold (fun _ r total => total + f r) 0 m <= n * size m.
Proof.
  induction m as [|i x m Hi _ IH] using map_first_key_ind; intros H.
  - rewrite map_fold_empty. lia.
  - rewrite map_fold_insert_L, map_size_insert_None by (first [exact Hi | intros; cbv beta; lia]).
    assert (f x <= n) by (apply (H i); apply lookup_insert_eq).
    assert (map_fold (fun _ r total => total + f r) 0 m <= n * size m).
    { apply IH. intros k r Hk. apply (H k). rewrite lookup_insert_ne; [exact Hk|].
      intros ->. congruence. }
    lia.
Qed.

(** X12.  [getStats] counts the stored histories and their messages.
    Deleting the history of a call lowers the first count by one when
    the call had a history, and the second by the length of that
    history; in a store whose histories hold at most [n] messages the
    total is at most [n] times the number of conversations. *)
Theorem stats_follow_the_store (callId : string) (n : nat) (sv : Service) :
  activeConversations (getStats sv)
    = activeConversations (getStats (clearConversationHistory callId sv))
      + match conversationHistory sv !! callId with Some _ => 1 | None => 0 end
  /\ totalMessages (getStats sv)
     = totalMessages (getStats (clearConversationHistory callId sv))
       + length (getConversationHistory callId sv)
  /\ ((forall k, length (getConversationHistory k sv) <= n) ->
      totalMessages (getStats sv) <= n * activeConversations (getStats sv))
  /\ (conversationHistory sv = ∅ ->
      getStats sv = {| activeConversations := 0; totalMessages := 0 |}).
Proof.
  unfold getStats, clearConversationHistory, getConversationHistory.
  cbn [activeConversations totalMessages conversationHistory arrays].
  assert (Same : forall r, array_of r {| conversationHistory := delete callId (conversationHistory sv);
                                         arrays := arrays sv |} = array_of r sv)
    by reflexivity.
  split; [|split; [|split]].
  - destruct (conversationHistory sv !! callId) as [r|] eqn:L.
    + rewrite map_size_delete_Some by eauto.
      assert (size (conversationHistory sv) <> 0).
      { intros Z. apply map_size_empty_inv in Z. rewrite Z, lookup_empty in L. discriminate. }
      lia.
    + rewrite map_size_delete_None by exact L. lia.
  - destruct (conversationHistory sv !! callId) as [r|] eqn:L.
    + rewrite (map_fold_delete_L _ 0 callId r (conversationHistory sv)) by (first [exact L | intros; cbv beta; lia]).
      reflexivity.
    + rewrite delete_id by exact L. symmetry. apply Nat.add_0_r.
  - intros B. apply (total_le_bound (fun r => length (array_of r sv))).
    intros k r Hk. specialize (B k). rewrite Hk in B. exact B.
  - intros ->. rewrite map_fold_empty, map_size_empty. reflexivity.
Qed.

(** *** White space *)

Lemma white_space_units (u : N) :
  UTF16.is_white_space u = true
  <-> In u [9; 10; 11; 12; 13; 32; 160; 5760; 8192; 8193; 8194; 8195; 8196; 8197; 8198;
            8199; 8200; 8201; 8202; 8232; 8233; 8239; 8287; 12288; 65279]%N.
Proof.
  unfold UTF16.is_white_space.
  rewrite !orb_true_iff, andb_true_iff, !N.eqb_eq, !N.leb_le. cbn [In]. lia.
Qed.

Lemma trim_start_nil (s : UTF16.JSString) :
  UTF16.trim_start s = [] <-> forallb UTF16.is_white_space s = true.
Proof.
  induction s as [|u s IH]; cbn; [tauto|].
  destruct (UTF16.is_white_space u); cbn; [exact IH|]. split; discriminate.
Qed.

Lemma trim_start_head (s : UTF16.JSString) (u : N) (rest : UTF16.JSString) :
  UTF16.trim_start s = u :: rest -> UTF16.is_white_space u = false /\ In u s.
Proof.
  induction s as [|v s IH]; cbn; [discriminate|].
  destruct (UTF16.is_white_space v) eqn:W.
  - intros H. destruct (IH H). auto.
  - intros [= <- <-]. auto.
Qed.

(** A text is trimmed to nothing exactly when all its code units are
    white space. *)
Lemma trim_nil (s : UTF16.JSString) :
  UTF16.trim s = [] <-> forallb UTF16.is_white_space s = true.
Proof.
  unfold UTF16.trim, UTF16.trim_end. split.
  - intros H. destruct (UTF16.trim_start s) as [|u rest] eqn:E; [now apply trim_start_nil|].
    exfalso. destruct (trim_start_head _ _ _ E) as [W _].
    apply (f_equal (@rev N)) in H. rewrite rev_involutive in H. cbn [rev] in H.
    apply trim_start_nil in H. rewrite forallb_app in H. cbn in H.
    rewrite W in H. cbn in H. rewrite andb_false_r in H. discriminate H.
  - intros H. apply trim_start_nil in H. rewrite H. reflexivity.
Qed.

Lemma all_white_space (s : UTF16.JSString) :
  forallb UTF16.is_white_space s = true
  <-> forall u, In u s ->
        In u [9; 10; 11; 12; 13; 32; 160; 5760; 8192; 8193; 8194; 8195; 8196; 8197; 8198;
              8199; 8200; 8201; 8202; 8232; 8233; 8239; 8287; 12288; 65279]%N.
Proof.
  rewrite forallb_forall. split; intros H u Hu; apply white_space_units, H, Hu.
Qed.

Lemma not_white_space (u : N) :
  UTF16.is_white_space u = false
  -> ~ In u [9; 10; 11; 12; 13; 32; 160; 5760; 8192; 8193; 8194; 8195; 8196; 8197; 8198;
             8199; 8200; 8201; 8202; 8232; 8233; 8239; 8287; 12288; 65279]%N.
Proof. intros H W. apply white_space_units in W. congruence. Qed.

Lemma trim_start_spec (s : UTF16.JSString) :
  exists before,
    s = before ++ UTF16.trim_start s
    /\ forallb UTF16.is_white_space before = true
    /\ forall u, head (UTF16.trim_start s) = Some u -> UTF16.is_white_space u = false.
Proof.
  induction s as [|v s (before & E & W & H)]; cbn [UTF16.trim_start].
  - exists []. repeat split. discriminate.
  - destruct (UTF16.is_white_space v) eqn:V.
    + exists (v :: before). cbn. rewrite V, W, <- E. auto.
    + exists []. repeat split. intros u [= <-]. exact V.
Qed.

Lemma trim_end_spec (s : UTF16.JSString) :
  exists after,
    s = UTF16.trim_end s ++ after
    /\ forallb UTF16.is_white_space after = true
    /\ forall u, last (UTF16.trim_end s) = Some u -> UTF16.is_white_space u = false.
Proof.
  unfold UTF16.trim_end. destruct (trim_start_spec (rev s)) as (before & E & W & H).
  exists (rev before). split; [|split].
  - rewrite <- rev_app_distr, <- E, rev_involutive. reflexivity.
  - apply forallb_forall. intros u Hu. apply in_rev in Hu.
    rewrite forallb_forall in W. auto.
  - intros u. destruct (UTF16.trim_start (rev s)) as [|v r]; [discriminate|].
    cbn [rev]. rewrite last_snoc. intros [= <-]. apply H. reflexivity.
Qed.

(** What [trim] returns: the text without a prefix and a suffix of white
    space, neither starting nor ending with white space. *)
Lemma trim_spec (s : UTF16.JSString) :
  exists before after,
    s = before ++ UTF16.trim s ++ after
    /\ forallb UTF16.is_white_space before = true
    /\ forallb UTF16.is_white_space after = true
    /\ (forall u, head (UTF16.trim s) = Some u -> UTF16.is_white_space u = false)
    /\ (forall u, last (UTF16.trim s) = Some u -> UTF16.is_white_space u = false).
Proof.
  unfold UTF16.trim.
  destruct (trim_start_spec s) as (before & E & W & H).
  destruct (trim_end_spec (UTF16.trim_start s)) as (after & E' & W' & H').
  exists before, after. split; [rewrite <- E'; exact E|].
  split; [exact W|]. split; [exact W'|]. split; [|exact H'].
  intros u Hu. apply H. rewrite E'.
  destruct (UTF16.trim_end (UTF16.trim_start s)); [discriminate Hu|exact Hu].
Qed.

(** X13.  [getConversationSummary] asks the backend only for a call
    with a stored, non-empty history: for an unknown call, and for any
    call right after [clearConversationHistory], it returns [No
    conversation to summarize] at once.  Otherwise the result is the
    trimmed content of the completion, [Unable to generate summary] when
    the completion has none, and [Error generating summary] when the
    backend rejects.  The fallback text is chosen before the result is
    trimmed, so the summary is the empty string exactly when the call
    has a history and the completion is not empty and consists of white
    space: the ASCII control characters 9 to 13, the space, the
    no-break space, the space separators of Unicode, the line and
    paragraph separators and the byte-order mark.  The summary of a
    completion with content is that content without a prefix and a
    suffix of white space, and neither starts nor ends with white
    space. *)
Theorem summary_of_empty_history (callId : string) (out : SummaryOutcome) (sv : Service) :
  let text := fun s : string => map N_of_ascii (list_ascii_of_string s) in
  let white :=
    [9; 10; 11; 12; 13; 32; 160; 5760; 8192; 8193; 8194; 8195; 8196; 8197; 8198;
     8199; 8200; 8201; 8202; 8232; 8233; 8239; 8287; 12288; 65279]%N in
  getConversationSummary callId out (clearConversationHistory callId sv)
    = text "No conversation to summarize"
  /\ getConversationSummary_begin callId sv
     = match getConversationHistory callId sv with
       | [] => SummaryDone (text "No conversation to summarize")
       | first :: more => SummaryAsk (summary_prompt (first :: more))
       end
  /\ getConversationSummary callId out sv
     = match getConversationHistory callId sv, out with
       | [], _ => text "No conversation to summarize"
       | _ :: _, SummaryRejected => text "Error generating summary"
       | _ :: _, SummaryNoContent | _ :: _, SummaryContent [] =>
           text "Unable to generate summary"
       | _ :: _, SummaryContent c => UTF16.trim c
       end
  /\ (getConversationSummary callId out sv = []
      <-> getConversationHistory callId sv <> []
          /\ exists c, out = SummaryContent c /\ c <> []
                       /\ forall u, In u c -> In u white)
  /\ (forall c,
        getConversationHistory callId sv <> [] -> out = SummaryContent c -> c <> [] ->
        exists before after,
          c = before ++ getConversationSummary callId out sv ++ after
          /\ (forall u, In u before -> In u white)
          /\ (forall u, In u after -> In u white)
          /\ (forall u, head (getConversationSummary callId out sv) = Some u -> ~ In u white)
          /\ (forall u, last (getConversationSummary callId out sv) = Some u -> ~ In u white)).
Proof.
  intros text white. subst text white.
  unfold getConversationSummary, getConversationSummary_begin.
  split; [|split; [|split; [|split]]].
  5:{ intros c Hh -> Hc.
      destruct (getConversationHistory callId sv) as [|m l]; [now contradiction Hh|].
      cbn [length Nat.eqb]. destruct c as [|x c]; [now contradiction Hc|].
      cbn [getConversationSummary_end]. cbv zeta.
      destruct (trim_spec (x :: c)) as (before & after & E & W & W' & H & H').
      exists before, after. split; [exact E|].
      split; [now apply all_white_space|]. split; [now apply all_white_space|].
      split; intros u Hu; apply not_white_space; auto. }
  - unfold getConversationHistory, clearConversationHistory. cbn [conversationHistory].
    rewrite lookup_delete_eq. reflexivity.
  - destruct (getConversationHistory callId sv); reflexivity.
  - destruct (getConversationHistory callId sv) as [|m l]; [reflexivity|].
    cbn [length Nat.eqb]. destruct out as [| |[|x c]]; reflexivity.
  - destruct (getConversationHistory callId sv) as [|m l].
    + cbn [length Nat.eqb]. split; [discriminate|]. intros [Bad _]. now contradiction Bad.
    + cbn [length Nat.eqb]. destruct out as [| |[|x c]]; cbn [getConversationSummary_end].
      * split; [discriminate|]. intros (_ & c & Bad & _). discriminate Bad.
      * split; [vm_compute; discriminate|]. intros (_ & c & Bad & _). discriminate Bad.
      * split; [vm_compute; discriminate|].
        intros (_ & c & E & Bad & _). injection E as <-. now contradiction Bad.
      * cbv zeta. rewrite trim_nil, all_white_space. split.
        -- intros W. split; [discriminate|]. exists (x :: c).
           split; [reflexivity|]. split; [discriminate|exact W].
        -- intros (_ & c0 & E & _ & W). injection E as <-. exact W.
Qed.

(** The store of the examples is well formed. *)
Lemma store_ok_svc20 : store_ok svc20.
Proof.
  split.
  - intros k r H. unfold svc20 in H. cbn [conversationHistory] in H.
    apply lookup_singleton_Some in H. destruct H as [_ <-]. cbn. lia.
  - intros k1 k2 r H1 H2. unfold svc20 in H1, H2. cbn [conversationHistory] in H1, H2.
    apply lookup_singleton_Some in H1, H2.
    destruct H1 as [<- _], H2 as [<- _]. reflexivity.
Qed.

(** X6, at a store that holds the history of [CA1] while [CA2] is served. *)
Lemma histories_are_isolated_witness :
  store_ok svc20 /\ "CA1" <> "CA2"
  /\ (store_ok (snd (generateResponse "hello" "CA2" 7 (ChatContent "Hi") svc20))
      /\ getConversationHistory "CA1" (snd (generateResponse "hello" "CA2" 7 (ChatContent "Hi") svc20))
         = getConversationHistory "CA1" svc20)
  /\ (store_ok (snd (generateResponseWithTools "hello" "CA2" (ChatContent "Hi") NotJSON svc20))
      /\ getConversationHistory "CA1"
           (snd (generateResponseWithTools "hello" "CA2" (ChatContent "Hi") NotJSON svc20))
         = getConversationHistory "CA1" svc20)
  /\ (store_ok (sr_service (generateStreamingResponse "hello" "CA2" 7 9
                              (Stream [Some "Hi"] false) svc20))
      /\ getConversationHistory "CA1"
           (sr_service (generateStreamingResponse "hello" "CA2" 7 9 (Stream [Some "Hi"] false) svc20))
         = getConversationHistory "CA1" svc20)
  /\ (store_ok (clearConversationHistory "CA2" svc20)
      /\ getConversationHistory "CA1" (clearConversationHistory "CA2" svc20)
         = getConversationHistory "CA1" svc20).
Proof.
  assert (N : "CA1" <> "CA2") by discriminate.
  split; [exact store_ok_svc20|]. split; [exact N|].
  exact (histories_are_isolated "CA2" "CA1" "hello" 7 9 (ChatContent "Hi") NotJSON
           (Stream [Some "Hi"] false) svc20 store_ok_svc20 N).
Defined.

(** X7, at a rejected request of the call [CA1]. *)
Lemma failed_request_leaves_user_message_witness :
  store_ok svc20 /\ request_fails ChatRejected = true
  /\ fst (generateResponse "hello" "CA1" 7 ChatRejected svc20) = Thrown
  /\ conversationHistory (snd (generateResponse "hello" "CA1" 7 ChatRejected svc20))
     = conversationHistory svc20
  /\ getConversationHistory "CA1" (snd (generateResponse "hello" "CA1" 7 ChatRejected svc20))
     = match conversationHistory svc20 !! "CA1" with
       | Some _ => getConversationHistory "CA1" svc20
                   ++ [{| role := RUser; content := Some "hello"; timestamp := Some 7%Z |}]
       | None => []
       end.
Proof.
  split; [exact store_ok_svc20|]. split; [reflexivity|].
  exact (failed_request_leaves_user_message "hello" "CA1" 7 ChatRejected svc20
           store_ok_svc20 eq_refl).
Defined.


(** X9, at two turns of the call [CA1], the second with a tool call. *)
Lemma tool_replies_grow_history_witness :
  store_ok svc20
  /\ Forall (fun t => ai_failure (snd (fst t)) (snd t) = false)
       [("hello", ChatContent "Hi", NotJSON); ("bye", ChatContent "{}", JSONObject bye_reply)]
  /\ exists added,
       getConversationHistory "CA1"
         (converse "CA1"
            [("hello", ChatContent "Hi", NotJSON); ("bye", ChatContent "{}", JSONObject bye_reply)]
            svc20)
       = getConversationHistory "CA1" svc20 ++ added
       /\ length added = 4.
Proof.
  assert (F : Forall (fun t => ai_failure (snd (fst t)) (snd t) = false)
                [("hello", ChatContent "Hi", NotJSON);
                 ("bye", ChatContent "{}", JSONObject bye_reply)])
    by (repeat constructor).
  split; [exact store_ok_svc20|]. split; [exact F|].
  destruct (tool_replies_grow_history "CA1" _ svc20 store_ok_svc20 F) as (added & E & L & _).
  exists added. split; [exact E|exact L].
Defined.

(** X10, at a clean-up a day and a second after the last message of the
    call [CA1]. *)
Lemma cleanup_deletes_exactly_the_stale_witness :
  (Z.abs 1700086401000 <= 8640000000000000)%Z
  /\ (Z.abs (24 * 3600000) <= 9007199254740991)%Z
  /\ getConversationHistory "CA1"
       (snd (generateResponse "hello" "CA1" 1700000000000 (ChatContent "Hi") svc0))
     = [{| role := RUser; content := Some "hello"; timestamp := Some 1700000000000%Z |};
        {| role := RAssistant; content := Some "Hi"; timestamp := Some 1700000000000%Z |}]
  /\ getConversationHistory "CA1"
       (cleanupOldConversations 1700086401000 24
          (snd (generateResponse "hello" "CA1" 1700000000000 (ChatContent "Hi") svc0)))
     = [].
Proof.
  assert (A : (Z.abs 1700086401000 <= 8640000000000000)%Z) by (vm_compute; discriminate).
  assert (B : (Z.abs (24 * 3600000) <= 9007199254740991)%Z) by (vm_compute; discriminate).
  split; [exact A|]. split; [exact B|]. split; [vm_compute; reflexivity|].
  apply (proj1 (cleanup_deletes_exactly_the_stale 1700086401000 24 "CA1"
                  (snd (generateResponse "hello" "CA1" 1700000000000 (ChatContent "Hi") svc0))
                  A B)).
  split; [vm_compute; discriminate|].
  exists 1700000000000%Z. split; [vm_compute; reflexivity|lia].
Defined.

(** X11, at a clean-up long after the reply to the call [CA1]. *)
Lemma tool_conversations_are_never_cleaned_witness :
  store_ok svc20 /\ ai_failure (ChatContent "Hi") NotJSON = false /\ "Hi" <> EmptyString
  /\ (Z.abs 7 <= 8640000000000000)%Z
  /\ (Z.abs 1000000000 <= 8640000000000000)%Z
  /\ (Z.abs (24 * 3600000) <= 9007199254740991)%Z
  /\ getConversationHistory "CA1"
       (cleanupOldConversations 1000000000 24
          (snd (generateResponseWithTools "hello" "CA1" (ChatContent "Hi") NotJSON svc20)))
     = getConversationHistory "CA1"
         (snd (generateResponseWithTools "hello" "CA1" (ChatContent "Hi") NotJSON svc20))
  /\ getConversationHistory "CA1"
       (cleanupOldConversations 1000000000 24
          (snd (generateResponse "hello" "CA1" 7 (ChatContent "Hi") svc20)))
     = [].
Proof.
  assert (N : "Hi" <> EmptyString) by discriminate.
  assert (A : (Z.abs 7 <= 8640000000000000)%Z) by (vm_compute; discriminate).
  assert (B : (Z.abs 1000000000 <= 8640000000000000)%Z) by (vm_compute; discriminate).
  assert (C : (Z.abs (24 * 3600000) <= 9007199254740991)%Z) by (vm_compute; discriminate).
  split; [exact store_ok_svc20|]. split; [reflexivity|]. split; [exact N|].
  split; [exact A|]. split; [exact B|]. split; [exact C|].
  pose proof (tool_conversations_are_never_cleaned "hello" "CA1" (ChatContent "Hi") NotJSON "Hi"
                7 1000000000 24 svc20 store_ok_svc20 eq_refl N A B C) as (H1 & _ & H2).
  split; [exact H1|exact H2].
Defined.

End AIServiceProperties.

(** ** Validation of the text to synthesise *)

Section ElevenLabsProperties.
Import ElevenLabs.

(** X19.  [validateText] accepts exactly the texts of at most 5000 code
    units that hold a code unit other than white space, and reports no
    error exactly for them.  A rejected text gets one error per failed
    test, in the order of the tests: the empty text is reported twice
    (as empty and as blank), and a text that is too long is reported
    with its length.  White space is what [trim] removes: the ASCII
    control characters 9 to 13, the space, the no-break space, the
    space separators of Unicode, the line and paragraph separators and
    the byte-order mark. *)
Theorem validateText_accepts_nonblank_short_texts (text : list N) :
  let white :=
    [9; 10; 11; 12; 13; 32; 160; 5760; 8192; 8193; 8194; 8195; 8196; 8197; 8198;
     8199; 8200; 8201; 8202; 8232; 8233; 8239; 8287; 12288; 65279]%N in
  let blank := forallb (fun u => existsb (N.eqb u) white) text in
  let decimal := fun n : nat => NilZero.string_of_int (Z.to_int (Z.of_nat n)) in
  (isValid (validateText text) = true
     <-> (exists u, In u text /\ ~ In u white) /\ length text <= 5000)
  /\ (isValid (validateText text) = true <-> errors (validateText text) = [])
  /\ errors (validateText text)
     = match text with [] => ["Text must be a non-empty string"] | _ :: _ => [] end
       ++ (if 5000 <? length text
           then ["Text length (" +:+ decimal (length text) +:+ ") exceeds maximum (5000)"]
           else [])
       ++ (if blank then ["Text cannot be empty or only whitespace"] else [])
  /\ validateText []
     = {| isValid := false;
          errors := ["Text must be a non-empty string";
                     "Text cannot be empty or only whitespace"] |}.
Proof.
  intros white blank decimal.
  assert (NB : blank = false <-> exists u, In u text /\ ~ In u white).
  { subst blank. split.
    - intros H. induction text as [|u text IH]; [discriminate H|].
      cbn [forallb] in H. apply andb_false_iff in H. destruct H as [H|H].
      + exists u. split; [left; reflexivity|]. intros Hu.
        assert (E : existsb (N.eqb u) white = true)
          by (apply existsb_exists; exists u; split; [exact Hu|apply N.eqb_refl]).
        congruence.
      + destruct (IH H) as (v & Hv & Nv). exists v. split; [right; exact Hv|exact Nv].
    - intros (u & Hu & Nu). apply not_true_is_false. intros H.
      rewrite forallb_forall in H. specialize (H u Hu). apply existsb_exists in H.
      destruct H as (v & Hv & E). apply N.eqb_eq in E. subst v. contradiction. }
  assert (B : (length (UTF16.trim text) =? 0) = blank).
  { apply eq_true_iff_eq. rewrite Nat.eqb_eq, length_zero_iff_nil, trim_nil.
    subst blank. rewrite !forallb_forall. split; intros H u Hu.
    - apply existsb_exists. exists u. split; [|apply N.eqb_refl].
      apply white_space_units, H, Hu.
    - apply white_space_units. specialize (H u Hu). apply existsb_exists in H.
      destruct H as (v & Hv & E). apply N.eqb_eq in E. subst v. exact Hv. }
  assert (L : (5000 <? Z.of_nat (length text))%Z = (5000 <? length text)).
  { destruct (Nat.ltb_spec 5000 (length text)); [apply Z.ltb_lt|apply Z.ltb_ge]; lia. }
  assert (E0 : text = [] -> blank = true) by (intros ->; reflexivity).
  assert (D : forall n, JS.string_of_Z (Z.of_nat n) = decimal n) by reflexivity.
  refine (conj _ (conj _ (conj _ eq_refl))).
  all: unfold validateText, maxLength; rewrite B, L, D; clear B L D.
  all: change (JS.string_of_Z 5000) with "5000".
  all: clearbody blank decimal.
  all: destruct text as [|u text]; [rewrite (E0 eq_refl) in *|];
       destruct (Nat.ltb_spec 5000 (length (u :: text))) as [Hl|Hl] || idtac.
  all: try destruct blank.
  all: cbn [reject isValid errors app].
  all: try reflexivity.
  all: try (split; [discriminate|]).
  all: try (intros H;
            first [ discriminate H
                  | apply app_eq_nil in H; destruct H as [_ H]; discriminate H
                  | destruct H as [(u0 & Hu & Nu) Hlen];
                    first [ now destruct Hu
                          | lia
                          | assert (Bad : true = false) by (apply NB; eauto);
                            discriminate Bad ] ]).
  all: try (split; [intros _|reflexivity]).
  all: try reflexivity.
  all: try (split; [apply NB; reflexivity|exact Hl]).
Qed.

End ElevenLabsProperties.

(** ** A transport that fails in the middle of an utterance *)

Lemma firstn_add_skipn {A} (a b : nat) (l : list A) :
  firstn (a + b) l = firstn a l ++ firstn b (skipn a l).
Proof.
  revert l. induction a as [|a IH]; intros l; [reflexivity|].
  destruct l as [|x l]; cbn; [now rewrite firstn_nil|]. now rewrite IH.
Qed.

Lemma send_chunks_counts (step : nat) (sid : string) (buf : list byte) :
  0 < step ->
  forall fuel i c acc k,
    length buf - i <= fuel ->
    conn_fail_after c = Some k ->
    exists media c',
      send_chunks fuel step i sid buf c acc =
        {| emitted := acc ++ media; threw := k <? ceil_div (length buf - i) step;
           conn_after := c' |}
      /\ length media = Nat.min k (ceil_div (length buf - i) step)
      /\ Forall (fun f => exists chunk, f = MediaFrame sid (Base64.encode chunk)) media
      /\ Base64.decode_all (media_payloads media)
         = Some (firstn (Nat.min k (ceil_div (length buf - i) step) * step) (skipn i buf))
      /\ conn_fail_after c' = Some (k - ceil_div (length buf - i) step).
Proof.
  intros Hstep. induction fuel as [|fuel IH]; intros i c acc k Hfuel Hk.
  - exists [], c. replace (length buf - i) with 0 by lia.
    rewrite ceil_div_zero by assumption. cbn [send_chunks].
    rewrite app_nil_r, Nat.min_0_r, Nat.sub_0_r. repeat split; auto.
  - cbn [send_chunks]. destruct (Nat.ltb_spec i (length buf)) as [Hlt|Hge].
    + rewrite (ceil_div_step (length buf - i) step) by lia.
      replace (length buf - i - step) with (length buf - (i + step)) by lia.
      set (n := ceil_div (length buf - (i + step)) step).
      unfold sendUTF. rewrite Hk. destruct k as [|k].
      * exists [], c. rewrite app_nil_r. cbn. repeat split; auto.
      * destruct (IH (i + step) {| conn_state := conn_state c; conn_fail_after := Some k |}
                    (acc ++ [MediaFrame sid (Base64.encode (JS.slice i (i + step) buf))]) k)
          as (media & c' & E & L & F & D & K); [lia|reflexivity|].
        fold n in E, L, D, K.
        exists (MediaFrame sid (Base64.encode (JS.slice i (i + step) buf)) :: media), c'.
        rewrite E, <- app_assoc. cbn [app].
        split; [reflexivity|]. split; [cbn [length]; rewrite L; reflexivity|].
        split; [constructor; eauto|]. split; [|exact K].
        cbn. rewrite decode_encode. cbn.
        unfold media_payloads in D. rewrite D. cbn. f_equal.
        change (S (Nat.min k n) * step) with (step + Nat.min k n * step).
        rewrite firstn_add_skipn. unfold JS.slice.
        replace (i + step - i) with step by lia.
        f_equal. rewrite skipn_skipn. do 2 f_equal. lia.
    + exists [], c. replace (length buf - i) with 0 by lia.
      rewrite ceil_div_zero by assumption.
      rewrite app_nil_r, Nat.min_0_r, Nat.sub_0_r. repeat split; auto.
Qed.

(** X18.  A transport that throws after [k] writes, with [k] at most
    the number of media frames of the utterance: [sendAudioToTwilio]
    writes exactly the first [k] media frames, which carry the first
    [4000 k] bytes of the buffer, writes no mark frame, and throws. *)
Theorem transport_failure_sends_a_prefix (c : Connection) (sid : string) (now : Z)
    (buf : list byte) (markName : option string) (k : nat) :
  is_open c = true ->
  sid <> EmptyString ->
  conn_fail_after c = Some k ->
  k <= ceil_div (length buf) CHUNK_SIZE ->
  let r := sendAudioToTwilio c (Some sid) now buf markName in
  threw r = true
  /\ length (emitted r) = k
  /\ Forall (fun f => exists chunk, f = MediaFrame sid (Base64.encode chunk)) (emitted r)
  /\ Base64.decode_all (media_payloads (emitted r)) = Some (firstn (k * CHUNK_SIZE) buf).
Proof.
  intros Hopen Hsid Hk Hle r. subst r. unfold sendAudioToTwilio.
  assert (Ht : JS.truthy (Some sid) = Some sid) by (destruct sid; [congruence|reflexivity]).
  rewrite Ht, Hopen. cbn [negb].
  assert (Hpos : 0 < CHUNK_SIZE) by (unfold CHUNK_SIZE; lia).
  destruct (send_chunks_counts CHUNK_SIZE sid buf Hpos (length buf) 0 c [] k)
    as (media & c' & E & L & F & D & K); [lia|exact Hk|].
  rewrite Nat.sub_0_r in *. rewrite Nat.min_l in L, D by exact Hle.
  rewrite E. cbn [threw emitted conn_after app].
  destruct (Nat.ltb_spec k (ceil_div (length buf) CHUNK_SIZE)) as [Hlt|Hge].
  - cbn [threw emitted]. auto.
  - unfold sendUTF. rewrite K. replace (k - ceil_div (length buf) CHUNK_SIZE) with 0 by lia.
    cbn [threw emitted]. auto.
Qed.

(** X18, at a buffer of 4001 bytes and a transport that throws on the
    second write. *)
Lemma transport_failure_sends_a_prefix_witness :
  is_open {| conn_state := StOpen; conn_fail_after := Some 1 |} = true
  /\ "MZ1" <> EmptyString
  /\ conn_fail_after {| conn_state := StOpen; conn_fail_after := Some 1 |} = Some 1
  /\ 1 <= ceil_div (length (repeat x41 4001)) CHUNK_SIZE
  /\ threw (sendAudioToTwilio {| conn_state := StOpen; conn_fail_after := Some 1 |}
              (Some "MZ1") 7 (repeat x41 4001) None) = true
  /\ length (emitted (sendAudioToTwilio {| conn_state := StOpen; conn_fail_after := Some 1 |}
                        (Some "MZ1") 7 (repeat x41 4001) None)) = 1
  /\ Base64.decode_all
       (media_payloads (emitted (sendAudioToTwilio
                                   {| conn_state := StOpen; conn_fail_after := Some 1 |}
                                   (Some "MZ1") 7 (repeat x41 4001) None)))
     = Some (firstn (1 * CHUNK_SIZE) (repeat x41 4001)).
Proof.
  assert (H2 : "MZ1" <> EmptyString) by discriminate.
  assert (H4 : 1 <= ceil_div (length (repeat x41 4001)) CHUNK_SIZE) by (vm_compute; lia).
  split; [reflexivity|]. split; [exact H2|]. split; [reflexivity|]. split; [exact H4|].
  pose proof (transport_failure_sends_a_prefix
                {| conn_state := StOpen; conn_fail_after := Some 1 |} "MZ1" 7
                (repeat x41 4001) None 1 eq_refl H2 eq_refl H4) as (A & B & _ & D).
  split; [exact A|]. split; [exact B|exact D].
Defined.

(** ** What a step of the event loop may change *)

Section FrameProperties.
Import Frame.

Lemma grows_refl cs : grows cs cs.
Proof. repeat split; auto; exists []; now rewrite app_nil_r. Qed.

Lemma grows_trans a b c : grows a b -> grows b c -> grows a c.
Proof.
  intros (A1 & A2 & A3 & [t1 A4] & [r1 A5] & A6) (B1 & B2 & B3 & [t2 B4] & [r2 B5] & B6).
  repeat split; try congruence.
  - exists (t1 ++ t2). rewrite B4, A4, app_assoc. reflexivity.
  - exists (r1 ++ r2). rewrite B5, A5, app_assoc. reflexivity.
  - destruct B6 as [B6|B6]; [rewrite B6; exact A6|auto].
Qed.

Lemma Moves_refl s : Moves s s.
Proof.
  constructor; auto.
  - intros r cs H. exists cs. split; [exact H|apply grows_refl].
  - exists []. rewrite app_nil_r. repeat split; auto.
Qed.

Lemma Moves_trans s1 s2 s3 : Moves s1 s2 -> Moves s2 s3 -> Moves s1 s3.
Proof.
  intros [S1 C1 (es1 & T1 & N1 & D1 & I1) R1] [S2 C2 (es2 & T2 & N2 & D2 & I2) R2].
  constructor.
  - intros r cs H. destruct (S1 r cs H) as (cs1 & H1 & G1).
    destruct (S2 r cs1 H1) as (cs2 & H2 & G2). exists cs2. split; [exact H2|].
    eapply grows_trans; eauto.
  - auto.
  - exists (es1 ++ es2). split; [rewrite T2, T1, app_assoc; reflexivity|].
    split; [|split].
    + intros H. apply Forall_app. split; [auto|]. apply N2. auto.
    + intros H F. apply Forall_app in F. destruct F as [F1 F2].
      destruct (D1 H F1) as [A1 H1]. destruct (D2 H1 F2) as [A2 H2].
      split; [apply Forall_app; split; assumption|exact H2].
    + intros H. destruct (I1 H) as [A1 H1]. destruct (I2 H1) as [A2 H2].
      split; [apply Forall_app; split; assumption|exact H2].
  - intros k r H. destruct (R2 k r H) as [H2|H2]; [|auto].
    destruct (R1 k r H2) as [H1|(cs & E & K)]; [auto|].
    destruct (S2 r cs E) as (cs' & E' & G). right. exists cs'. split; [exact E'|].
    destruct G as [G _]. congruence.
Qed.

Lemma plain_not_send es : Forall (fun e => plain e = true) es -> Forall (fun e => is_send e = false) es.
Proof. apply List.Forall_impl. intros [] H; cbn in *; congruence. Qed.

Lemma plain_not_close es :
  Forall (fun e => plain e = true) es -> Forall (fun e => is_conn_close e = false) es.
Proof. apply List.Forall_impl. intros [] H; cbn in *; congruence. Qed.

Lemma plain_not_audio es :
  Forall (fun e => plain e = true) es -> Forall (fun e => is_deepgram_audio e = false) es.
Proof. apply List.Forall_impl. intros [] H; cbn in *; congruence. Qed.

(** A step that leaves the session objects and the socket alone. *)
Lemma Moves_plain s s' es :
  sessions (world s') = sessions (world s) ->
  connection (world s') = connection (world s) ->
  trace (lp s') = trace (lp s) ++ es ->
  Forall (fun e => plain e = true) es ->
  (deepgramConnection (cl s) = None -> deepgramConnection (cl s') = None) ->
  (connectionTimeout (cl s) = false -> connectionTimeout (cl s') = false) ->
  (forall k r, activeCalls (world s') !! k = Some r -> activeCalls (world s) !! k = Some r) ->
  Moves s s'.
Proof.
  intros E1 E2 E3 P D T R. constructor.
  - intros r cs H. exists cs. rewrite E1. split; [exact H|apply grows_refl].
  - rewrite E2. auto.
  - exists es. split; [exact E3|]. split; [|split].
    + intros _. now apply plain_not_send.
    + intros H _. split; [now apply plain_not_audio|auto].
    + intros H. split; [now apply plain_not_close|auto].
  - auto.
Qed.

Lemma Moves_log es s : Forall (fun e => plain e = true) es -> Moves s (log es s).
Proof. intros P. apply (Moves_plain _ _ es); auto. Qed.

Lemma Moves_upd_lp f s : trace (f (lp s)) = trace (lp s) -> Moves s (upd_lp f s).
Proof.
  intros E. apply (Moves_plain _ _ []); auto.
  - cbn. rewrite E, app_nil_r. reflexivity.
Qed.

Lemma Moves_upd_cl f s :
  (deepgramConnection (cl s) = None -> deepgramConnection (f (cl s)) = None) ->
  (connectionTimeout (cl s) = false -> connectionTimeout (f (cl s)) = false) ->
  Moves s (upd_cl f s).
Proof.
  intros D T. apply (Moves_plain _ _ []); auto.
  cbn. now rewrite app_nil_r.
Qed.

Lemma Moves_upd_world f s :
  sessions (f (world s)) = sessions (world s) ->
  connection (f (world s)) = connection (world s) ->
  activeCalls (f (world s)) = activeCalls (world s) ->
  Moves s (upd_world f s).
Proof.
  intros E1 E2 E3. apply (Moves_plain _ _ []); auto.
  - cbn. now rewrite app_nil_r.
  - cbn. rewrite E3. auto.
Qed.

Lemma Moves_sessions s s' :
  (forall r cs, sessions (world s) !! r = Some cs ->
     exists cs', sessions (world s') !! r = Some cs' /\ grows cs cs') ->
  connection (world s') = connection (world s) ->
  trace (lp s') = trace (lp s) ->
  deepgramConnection (cl s') = deepgramConnection (cl s) ->
  connectionTimeout (cl s') = connectionTimeout (cl s) ->
  (forall k r, activeCalls (world s') !! k = Some r ->
     activeCalls (world s) !! k = Some r
     \/ exists cs, sessions (world s') !! r = Some cs /\ callSid cs = k) ->
  Moves s s'.
Proof.
  intros S E2 E3 E4 E5 R. constructor.
  - exact S.
  - rewrite E2. auto.
  - exists []. rewrite app_nil_r. split; [exact E3|]. split; [constructor|]. split.
    + intros H _. split; [constructor|]. rewrite E4. exact H.
    + intros H. split; [constructor|]. rewrite E5. exact H.
  - exact R.
Qed.

Lemma Moves_upd_session f s :
  (forall cs, grows cs (f cs)) -> Moves s (upd_session f s).
Proof.
  intros G. unfold upd_session. destruct (callSession (cl s)) as [r|]; [|apply Moves_refl].
  apply Moves_sessions; try reflexivity; [|auto].
  intros r0 cs H. cbn. destruct (decide (r0 = r)) as [->|Hne].
  - exists (f cs). rewrite list_lookup_alter_eq, H. split; [reflexivity|apply G].
  - exists cs. rewrite list_lookup_alter_ne by congruence. split; [exact H|apply grows_refl].
Qed.

Lemma grows_push_transcript e cs : grows cs (push_transcript e cs).
Proof. repeat split; cbn; eauto. exists []. now rewrite app_nil_r. Qed.

Lemma grows_push_response e cs : grows cs (push_response e cs).
Proof. repeat split; cbn; eauto. exists []. now rewrite app_nil_r. Qed.

Lemma grows_end_session now cs : grows cs (end_session now cs).
Proof. repeat split; cbn; eauto; exists []; now rewrite app_nil_r. Qed.

(** A call of [sendAudioToTwilio]. *)
Lemma sendAudioToTwilio_closed c sid now audio mark :
  is_open c = false ->
  emitted (sendAudioToTwilio c sid now audio mark) = []
  /\ threw (sendAudioToTwilio c sid now audio mark) = false
  /\ conn_after (sendAudioToTwilio c sid now audio mark) = c.
Proof.
  intros H. unfold sendAudioToTwilio. destruct (JS.truthy sid); [|auto].
  rewrite H. cbn. auto.
Qed.

Lemma conn_state_sendUTF c c' : sendUTF c = Some c' -> conn_state c' = conn_state c.
Proof.
  unfold sendUTF. destruct (conn_fail_after c) as [[|k]|]; intros [= <-]; reflexivity.
Qed.

Lemma conn_state_send_chunks fuel : forall step i sid buf c acc,
  conn_state (conn_after (send_chunks fuel step i sid buf c acc)) = conn_state c.
Proof.
  induction fuel as [|fuel IH]; intros step i sid buf c acc; cbn [send_chunks]; [reflexivity|].
  destruct (i <? length buf); [|reflexivity].
  destruct (sendUTF c) as [c'|] eqn:E; [|reflexivity].
  rewrite IH. eapply conn_state_sendUTF; eauto.
Qed.

Lemma conn_state_sendAudioToTwilio c sid now audio mark :
  conn_state (conn_after (sendAudioToTwilio c sid now audio mark)) = conn_state c.
Proof.
  unfold sendAudioToTwilio. destruct (JS.truthy sid) as [x|]; [|reflexivity].
  destruct (is_open c); cbn [negb]; [|reflexivity].
  destruct (threw (send_chunks _ _ _ _ _ _ _)) eqn:T; [apply conn_state_send_chunks|].
  destruct (sendUTF _) as [c'|] eqn:E; cbn [conn_after].
  - rewrite (conn_state_sendUTF _ _ E). apply conn_state_send_chunks.
  - apply conn_state_send_chunks.
Qed.

Lemma is_open_state c c' : conn_state c' = conn_state c -> is_open c' = is_open c.
Proof. unfold is_open. intros ->. reflexivity. Qed.

Lemma sends_not_audio fs : Forall (fun e => is_deepgram_audio e = false) (map EffSend fs).
Proof. induction fs; cbn; constructor; auto. Qed.

Lemma sends_not_close fs : Forall (fun e => is_conn_close e = false) (map EffSend fs).
Proof. induction fs; cbn; constructor; auto. Qed.

Lemma Moves_send_audio now audio mark s : Moves s (fst (send_audio now audio mark s)).
Proof.
  unfold send_audio. cbn [fst]. constructor.
  - intros r cs H. exists cs. split; [exact H|apply grows_refl].
  - cbn. intros H. rewrite <- H. apply is_open_state, conn_state_sendAudioToTwilio.
  - eexists. split; [reflexivity|]. split; [|split].
    + intros H. destruct (sendAudioToTwilio_closed _ (streamSid (cl s)) now audio mark H) as (-> & _).
      constructor.
    + intros H _. split; [apply sends_not_audio|exact H].
    + intros H. split; [apply sends_not_close|exact H].
  - auto.
Qed.

Ltac plain_list := solve [repeat constructor].

(** Reduces [Moves s (f (g (... s)))] layer by layer. *)
Ltac moves :=
  repeat first
    [ assumption
    | apply Moves_refl
    | match goal with
      | |- Moves ?s (log ?es ?x) =>
          apply (Moves_trans s x); [|apply Moves_log; plain_list]
      | |- Moves ?s (upd_lp ?f ?x) =>
          apply (Moves_trans s x); [|apply Moves_upd_lp; reflexivity]
      | |- Moves ?s (set_phase ?id ?ph ?x) =>
          apply (Moves_trans s x); [|apply Moves_upd_lp; reflexivity]
      | |- Moves ?s (drop_task ?id ?x) =>
          apply (Moves_trans s x); [|apply Moves_upd_lp; reflexivity]
      | |- Moves ?s (add_ack ?id ?pa ?x) =>
          apply (Moves_trans s x); [|apply Moves_upd_lp; reflexivity]
      | |- Moves ?s (set_ack ?id ?pa ?x) =>
          apply (Moves_trans s x); [|apply Moves_upd_lp; reflexivity]
      | |- Moves ?s (upd_cl ?f ?x) =>
          apply (Moves_trans s x);
          [|apply Moves_upd_cl; intros Hdg; first [exact Hdg|reflexivity]]
      | |- Moves ?s (upd_world ?f ?x) =>
          apply (Moves_trans s x); [|apply Moves_upd_world; reflexivity]
      | |- Moves ?s (upd_session (push_response ?e) ?x) =>
          apply (Moves_trans s x); [|apply Moves_upd_session, grows_push_response]
      | |- Moves ?s (upd_session (push_transcript ?e) ?x) =>
          apply (Moves_trans s x); [|apply Moves_upd_session, grows_push_transcript]
      | |- Moves ?s (upd_session (end_session ?n) ?x) =>
          apply (Moves_trans s x); [|apply Moves_upd_session, grows_end_session]
      | |- Moves ?s (fst (send_audio ?n ?a ?m ?x)) =>
          apply (Moves_trans s x); [|apply Moves_send_audio]
      end ].

Lemma Moves_finish id s : Moves s (finish id s).
Proof. unfold finish. moves. Qed.

Lemma Moves_fallback id s : Moves s (fallback id s).
Proof. unfold fallback. moves. Qed.

Lemma Moves_after_tools now id um rs s : Moves s (after_tools now id um rs s).
Proof.
  unfold after_tools. destruct rs; [apply Moves_finish|].
  destruct (generateResponse_begin _ _ _ _) as [h ai']. moves.
Qed.

Lemma Moves_next_tool now id um rest rs s : Moves s (next_tool now id um rest rs s).
Proof.
  unfold next_tool. destruct rest as [|tc rest]; [apply Moves_after_tools|]. moves.
Qed.

Lemma Moves_resume now id s : Moves s (resume now id s).
Proof.
  unfold resume. destruct (phase_of id s) as [[]|]; try apply Moves_refl.
  apply Moves_next_tool.
Qed.

Lemma plain_acks id es : Forall (fun e => plain e = true) (map (EffAck id) es).
Proof. induction es; cbn; constructor; auto. Qed.

Lemma Moves_ack_react now id f s : Moves s (ack_react now id f s).
Proof.
  unfold ack_react. destruct (assoc_get id (acks (lp s))) as [pa|]; [|apply Moves_refl].
  destruct (f pa) as [pa' es].
  assert (H : Moves s (log (map (EffAck id) es) (set_ack id pa' s))).
  { eapply Moves_trans; [|apply Moves_log, plain_acks]. moves. }
  destruct (existsb Ack.settles es); [|exact H].
  eapply Moves_trans; [exact H|apply Moves_resume].
Qed.

Lemma Moves_mark_handlers now m s : Moves s (mark_handlers now m s).
Proof.
  unfold mark_handlers. generalize (acks (lp s)) as l. intros l.
  assert (G : forall s0, Moves s s0 ->
            Moves s (fold_left (fun st p => ack_react now (fst p) (Ack.on_message m) st) l s0)).
  { induction l as [|p l IH]; intros s0 H; cbn [fold_left]; [exact H|].
    apply IH. eapply Moves_trans; [exact H|apply Moves_ack_react]. }
  apply G, Moves_refl.
Qed.

Lemma Moves_spawn ph s : Moves s (snd (spawn ph s)).
Proof. unfold spawn. cbn [snd]. moves. Qed.

Lemma Moves_processConversation um s : Moves s (snd (processConversation um s)).
Proof.
  unfold processConversation.
  destruct (callSession (cl (log [EffProcess um] s))); [|cbn [snd]; moves].
  destruct (JS.truthy _); [|cbn [snd]; moves].
  destruct (generateResponseWithTools_begin _ _) as [h ai'].
  destruct (spawn _ _) as [id s1] eqn:E. cbn [snd].
  assert (E1 : s1 = snd (spawn (AwaitAI um (current_callSid (log [EffProcess um] s)) h)
                       (upd_world (set_ai ai') (log [EffProcess um] s)))) by now rewrite E.
  subst s1. moves. eapply Moves_trans; [|apply Moves_spawn]. moves.
Qed.

Lemma Moves_on_ai_reply now id um callId h out parsed s :
  Moves s (on_ai_reply now id um callId h out parsed s).
Proof.
  unfold on_ai_reply.
  destruct (generateResponseWithTools_end _ _ _ _ _ _) as [res ai'].
  destruct res as [r|]; [|eapply Moves_trans; [|apply Moves_fallback]; moves].
  destruct (text r) as [txt|]; [|eapply Moves_trans; [|apply Moves_fallback]; moves].
  moves.
Qed.

Lemma Moves_on_initial_audio now id um calls audio s :
  Moves s (on_initial_audio now id um calls audio s).
Proof.
  unfold on_initial_audio.
  assert (Plain : Moves s (let '(s1, failed) := send_audio now audio None s in
                           if failed then fallback id s1 else finish id s1)).
  { destruct (send_audio now audio None s) as [s1 failed] eqn:E.
    assert (M : Moves s s1).
    { replace s1 with (fst (send_audio now audio None s)) by now rewrite E.
      apply Moves_send_audio. }
    destruct failed; (eapply Moves_trans; [exact M|]); [apply Moves_fallback|apply Moves_finish]. }
  destruct calls as [[|tc more]|]; try exact Plain.
  clear Plain. cbv zeta.
  destruct (send_audio _ _ _ _) as [s2 failed] eqn:E.
  assert (M : Moves s s2).
  { replace s2 with (fst (send_audio now audio (Some (Ack.markName (Ack.create now)))
                            (set_phase id (AwaitAck um (tc :: more))
                               (add_ack id (Ack.create now) s)))) by now rewrite E.
    moves. }
  destruct failed; [|exact M].
  eapply Moves_trans; [exact M|apply Moves_ack_react].
Qed.

Lemma Moves_on_followup_reply now id callId h out s :
  Moves s (on_followup_reply now id callId h out s).
Proof.
  unfold on_followup_reply.
  destruct (generateResponse_end _ _ _ _ _) as [res ai'].
  destruct res as [txt|]; [moves|].
  eapply Moves_trans; [|apply Moves_fallback]. moves.
Qed.

Lemma Moves_on_tts now id audio s : Moves s (on_tts now id audio s).
Proof.
  unfold on_tts. destruct (phase_of id s) as [[]|]; try apply Moves_refl.
  - destruct audio; [apply Moves_on_initial_audio|apply Moves_fallback].
  - destruct audio as [a|]; [|apply Moves_fallback].
    destruct (send_audio now a None s) as [s1 failed] eqn:E.
    assert (M : Moves s s1).
    { replace s1 with (fst (send_audio now a None s)) by now rewrite E.
      apply Moves_send_audio. }
    destruct failed; (eapply Moves_trans; [exact M|]); [apply Moves_fallback|apply Moves_finish].
  - destruct audio as [a|]; [|apply Moves_finish].
    eapply Moves_trans; [apply Moves_send_audio|apply Moves_finish].
  - destruct audio as [a|]; moves.
Qed.

Lemma Moves_on_tool now id result s : Moves s (on_tool now id result s).
Proof.
  unfold on_tool. destruct (phase_of id s) as [[]|]; try apply Moves_refl.
  destruct (_ && _); [apply Moves_finish|apply Moves_next_tool].
Qed.

Lemma Moves_onTranscript now txt isFinal confidence s :
  Moves s (onTranscript now txt isFinal confidence s).
Proof. unfold onTranscript. destruct (_ && _); moves. Qed.

Lemma Moves_quiet_callback now s : Moves s (quiet_callback now s).
Proof.
  unfold quiet_callback. destruct (_ && _); [|apply Moves_refl].
  pose proof (Moves_processConversation (JS.trim (conversationBuffer (cl s))) s) as M.
  destruct (processConversation _ s) as [[id|] s1]; cbn [snd] in M; [exact M|].
  moves.
Qed.

Lemma Moves_cleanup s : Moves s (cleanup s).
Proof.
  rewrite cleanup_eq. apply (Moves_plain _ _ (cleanup_calls s)); try reflexivity.
  - unfold cleanup_calls.
    destruct (connectionTimeout (cl s)), (deepgramConnection (cl s)), (callSession (cl s));
      repeat constructor.
  - intros k r. cbn. destruct (callSession (cl s)); [|auto].
    intros H. apply lookup_delete_Some in H. apply H.
Qed.

Lemma Moves_handleCallStop now sid s : Moves s (handleCallStop now sid s).
Proof.
  unfold handleCallStop. eapply Moves_trans; [|apply Moves_cleanup].
  destruct (callSession (cl s)); moves.
Qed.

Lemma Moves_handleMediaData payload s : Moves s (handleMediaData payload s).
Proof.
  unfold handleMediaData. destruct (JS.truthy _); [|apply Moves_refl].
  destruct (deepgramConnection (cl s)) as [h|] eqn:D; [|apply Moves_refl].
  constructor.
  - intros r cs H. exists cs. split; [exact H|apply grows_refl].
  - auto.
  - eexists. split; [reflexivity|]. split; [repeat constructor|]. split.
    + cbn. rewrite D. discriminate.
    + intros H. split; [repeat constructor|exact H].
  - auto.
Qed.

Lemma Moves_new_session sid now s :
  Moves s (upd_cl (set_callSession (Some (length (sessions (world s)))))
             (upd_world (fun w => set_activeCalls (<[sid := length (sessions (world s))]> (activeCalls w))
                                    (set_sessions (sessions w ++ [new_session sid now]) w)) s)).
Proof.
  apply Moves_sessions; try reflexivity.
  - intros r cs H. exists cs. cbn. split; [|apply grows_refl].
    rewrite lookup_app_l; [exact H|]. eapply lookup_lt_Some; eauto.
  - intros k r. cbn. destruct (decide (k = sid)) as [->|Hne].
    + rewrite lookup_insert_eq. intros [= <-]. right. exists (new_session sid now).
      split; [|reflexivity]. rewrite lookup_app_r by lia. rewrite Nat.sub_diag. reflexivity.
    + rewrite lookup_insert_ne by congruence. auto.
Qed.

Lemma Moves_open_deepgram h s :
  Moves s (log [EffDeepgramOpen h]
             (upd_lp (fun l => set_transcriptHandlers true (set_next_id (S h) l))
                (upd_cl (set_deepgramConnection (Some h)) s))).
Proof.
  constructor.
  - intros r cs H. exists cs. split; [exact H|apply grows_refl].
  - auto.
  - eexists. split; [reflexivity|]. split; [repeat constructor|]. split.
    + intros _ F. inversion F as [|? ? Bad _]. discriminate Bad.
    + intros H. split; [repeat constructor|exact H].
  - auto.
Qed.

Lemma Moves_handleCallStart now ssid sid ok s : Moves s (handleCallStart now ssid sid ok s).
Proof.
  unfold handleCallStart.
  set (s1 := upd_cl (set_streamSid (Some ssid)) s).
  set (s2 := if connectionTimeout (cl s1)
             then log [EffClearIdle] (upd_cl (set_connectionTimeout false) s1) else s1).
  assert (M2 : Moves s s2).
  { subst s2. destruct (connectionTimeout (cl s1)); subst s1; moves. }
  set (s3 := upd_cl _ (upd_world _ s2)).
  assert (M3 : Moves s s3).
  { eapply Moves_trans; [exact M2|]. apply Moves_new_session. }
  moves. destruct ok; [|exact M3].
  eapply Moves_trans; [exact M3|]. apply Moves_open_deepgram.
Qed.

Lemma Moves_on_message now m ok s : Moves s (on_message now m ok s).
Proof.
  destruct m; cbn [on_message]; try apply Moves_refl.
  - apply Moves_handleCallStart.
  - apply Moves_handleMediaData.
  - apply Moves_handleCallStop.
Qed.

Lemma Moves_set_conn st s :
  st <> StOpen ->
  Moves s (upd_world (fun w => set_connection (set_conn_state st (connection w)) w) s).
Proof.
  intros H. constructor.
  - intros r cs E. exists cs. split; [exact E|apply grows_refl].
  - intros _. cbn. destruct st; [congruence|reflexivity..].
  - exists []. rewrite app_nil_r. split; [reflexivity|]. split; [constructor|]. split.
    + intros D _. split; [constructor|exact D].
    + intros D. split; [constructor|exact D].
  - auto.
Qed.

Lemma Moves_close s :
  Moves s (upd_world
             (fun w => set_connection
                         (if is_open (connection w)
                          then set_conn_state StEnding (connection w)
                          else connection w) w) s).
Proof.
  constructor.
  - intros r cs E. exists cs. split; [exact E|apply grows_refl].
  - intros H. cbn. rewrite H. exact H.
  - exists []. rewrite app_nil_r. split; [reflexivity|]. split; [constructor|]. split.
    + intros D _. split; [constructor|exact D].
    + intros D. split; [constructor|exact D].
  - auto.
Qed.

Lemma Moves_idle_timeout s :
  connectionTimeout (cl s) = true ->
  Moves s (log [EffConnClose]
             (upd_world
                (fun w => set_connection
                            (if is_open (connection w)
                             then set_conn_state StEnding (connection w)
                             else connection w) w)
                (cleanup s))).
Proof.
  intros T. pose proof (Moves_trans _ _ _ (Moves_cleanup s) (Moves_close (cleanup s)))
    as [S C (es & E & N & D & _) R].
  constructor.
  - exact S.
  - exact C.
  - exists (es ++ [EffConnClose]). split; [rewrite trace_log, E, app_assoc; reflexivity|].
    split; [|split].
    + intros H. apply Forall_app. split; [auto|repeat constructor].
    + intros H F. apply Forall_app in F. destruct F as [F _].
      destruct (D H F) as [A K]. split; [|exact K].
      apply Forall_app. split; [exact A|repeat constructor].
    + rewrite T. discriminate.
  - exact R.
Qed.

Lemma Moves_step now e s : Moves s (step now e s).
Proof.
  destruct e; cbn [step].
  - eapply Moves_trans; [apply Moves_on_message|apply Moves_mark_handlers].
  - eapply Moves_trans; [|apply Moves_cleanup]. apply Moves_set_conn. discriminate.
  - apply Moves_cleanup.
  - destruct (connectionTimeout (cl s)) eqn:T; [|apply Moves_refl].
    apply Moves_idle_timeout. exact T.
  - destruct (transcriptHandlers (lp s)); [apply Moves_onTranscript|apply Moves_refl].
  - destruct (quietTimers (lp s)) as [|d later]; [apply Moves_refl|].
    eapply Moves_trans; [|apply Moves_quiet_callback]. moves.
  - destruct (greetingTimers (lp s)) as [|n]; [apply Moves_refl|].
    destruct (spawn _ _) as [id s1] eqn:E.
    assert (E1 : s1 = snd (spawn AwaitGreetingTTS (upd_lp (set_greetingTimers n) s)))
      by now rewrite E.
    subst s1. moves. eapply Moves_trans; [|apply Moves_spawn]. moves.
  - destruct (phase_of id s) as [[]|]; try apply Moves_refl.
    + apply Moves_on_ai_reply.
    + apply Moves_on_followup_reply.
  - apply Moves_on_tts.
  - apply Moves_on_tool.
  - apply Moves_ack_react.
Qed.

Lemma Moves_run evs : forall s, Moves s (run evs s).
Proof.
  induction evs as [|[now e] evs IH]; intros s; cbn [run]; [apply Moves_refl|].
  eapply Moves_trans; [apply Moves_step|apply IH].
Qed.

(** X14.  Session objects only grow.  Whatever events follow, a session
    object keeps its call identifier and start time, its transcripts
    and AI responses are only appended to, and once its status is
    [ENDED] it stays [ENDED]. *)
Theorem session_objects_only_grow (evs : list (Z * Event)) (s : State) (r : nat)
    (cs : CallSession) :
  sessions (world s) !! r = Some cs ->
  exists cs',
    sessions (world (run evs s)) !! r = Some cs'
    /\ callSid cs' = callSid cs
    /\ startTime cs' = startTime cs
    /\ (exists more, transcripts cs' = transcripts cs ++ more)
    /\ (exists more, aiResponses cs' = aiResponses cs ++ more)
    /\ (status cs = ENDED -> status cs' = ENDED).
Proof.
  intros H. destruct (mv_sessions _ _ (Moves_run evs s) r cs H)
    as (cs' & H' & G1 & _ & G3 & G4 & G5 & G6).
  exists cs'. repeat split; auto.
  intros E. destruct G6 as [G6|G6]; congruence.
Qed.

Lemma connection_cleanup s : connection (world (cleanup s)) = connection (world s).
Proof. rewrite cleanup_eq. reflexivity. Qed.

Lemma closes_closed now e s :
  closes e s -> is_open (connection (world (step now e s))) = false.
Proof.
  intros [->|[-> T]]; cbn [step].
  - rewrite connection_cleanup. reflexivity.
  - rewrite T. cbn. rewrite connection_cleanup.
    destruct (is_open (connection (world s))) eqn:O; [reflexivity|exact O].
Qed.

(** X15.  Nothing is written to a socket that has been closed.  After
    the close event, or after the idle timeout has fired, no run of
    events makes [sendAudioToTwilio] write a frame, and the socket is
    not open again; replies, tool calls and greetings that are still
    under way go on without audio. *)
Theorem closed_socket_is_never_written (now : Z) (e : Event) (s : State)
    (evs : list (Z * Event)) :
  closes e s ->
  is_open (connection (world (step now e s))) = false
  /\ is_open (connection (world (run evs (step now e s)))) = false
  /\ exists es,
       trace (lp (run evs (step now e s))) = trace (lp (step now e s)) ++ es
       /\ Forall (fun x => is_send x = false) es.
Proof.
  intros C. pose proof (closes_closed now e s C) as O.
  destruct (Moves_run evs (step now e s)) as [_ Cl (es & T & N & _ & _) _].
  split; [exact O|]. split; [auto|]. exists es. auto.
Qed.

(** X16.  Caller audio is forwarded to the speech backend only while
    the closure holds a connection to it.  From a state without one, as
    [cleanup] leaves it, no media event is forwarded until a connection
    is opened again by a start event. *)
Theorem audio_needs_a_speech_connection (evs : list (Z * Event)) (s : State) :
  deepgramConnection (cl s) = None ->
  exists es,
    trace (lp (run evs s)) = trace (lp s) ++ es
    /\ (Forall (fun x => is_deepgram_open x = false) es ->
        Forall (fun x => is_deepgram_audio x = false) es
        /\ deepgramConnection (cl (run evs s)) = None).
Proof.
  intros D. destruct (Moves_run evs s) as [_ _ (es & T & _ & A & _) _].
  exists es. split; [exact T|]. intros F. apply A; assumption.
Qed.



(** X14, at the session of the call [CA1], through two utterances and
    the stop event. *)
Lemma session_objects_only_grow_witness :
  sessions (world started) !! 0 = Some (new_session "CA1" 5010)
  /\ exists cs',
       sessions (world (run [(6000, EvTranscript "hello" true None);
                             (9000, EvMessage (InStop "CA1") false);
                             (9500, EvTranscript "bye" true None)]%Z started)) !! 0 = Some cs'
       /\ callSid cs' = "CA1"
       /\ startTime cs' = 5010%Z
       /\ (exists more, transcripts cs' = [] ++ more)
       /\ (exists more, aiResponses cs' = [] ++ more)
       /\ (CONNECTED = ENDED -> status cs' = ENDED).
Proof.
  assert (H : sessions (world started) !! 0 = Some (new_session "CA1" 5010)) by reflexivity.
  split; [exact H|].
  exact (session_objects_only_grow
           [(6000, EvTranscript "hello" true None);
            (9000, EvMessage (InStop "CA1") false);
            (9500, EvTranscript "bye" true None)]%Z started 0 (new_session "CA1" 5010) H).
Defined.

(** X15, at a call that is closed before its greeting is synthesised. *)
Lemma closed_socket_is_never_written_witness :
  closes EvClose started
  /\ is_open (connection (world (step 6500 EvClose started))) = false
  /\ is_open (connection (world
       (run [(7000, EvGreetingTimer); (7500, EvTTS 1 (Some [x01; x02]))]%Z
          (step 6500 EvClose started)))) = false
  /\ exists es,
       trace (lp (run [(7000, EvGreetingTimer); (7500, EvTTS 1 (Some [x01; x02]))]%Z
                    (step 6500 EvClose started)))
       = trace (lp (step 6500 EvClose started)) ++ es
       /\ Forall (fun x => is_send x = false) es.
Proof.
  assert (C : closes EvClose started) by (left; reflexivity).
  split; [exact C|].
  exact (closed_socket_is_never_written 6500 EvClose started
           [(7000, EvGreetingTimer); (7500, EvTTS 1 (Some [x01; x02]))]%Z C).
Defined.

(** A call that is closed while its reply waits for the mark: nothing
    is sent, the acknowledgment times out, and the tool call is still
    executed. *)
Example tools_run_after_the_socket_closed :
  trace (lp (run [(5010, EvMessage (InStart "MZ1" "CA1") true);
                  (6000, EvTranscript "goodbye" true None);
                  (7000, EvQuietTimer);
                  (7200, EvClose);
                  (7500, EvAI 1 (ChatContent "{}") (JSONObject bye_reply));
                  (7800, EvTTS 1 (Some [x01; x02; x03; x04]));
                  (17800, EvAckDeadline 1)]%Z
               (accept 5000 7 demo_conn ∅ ∅ [] svc0)))
  = [EffClearIdle; EffDeepgramOpen 0; EffProcess "goodbye";
     EffAIWithTools 1 "CA1" "goodbye";
     EffDeepgramClose 0; EffDelConnection "5000"; EffDelCall "CA1";
     EffTTS 1 "Goodbye";
     EffAck 1 Ack.RemoveListener; EffAck 1 (Ack.Resolve Ack.ByTimeout true);
     EffToolExec 1 "CA1" hang_up].
Proof. vm_compute. reflexivity. Qed.

(** X17.  [state.activeCalls] files every session under its own call
    identifier: if each entry refers to a session object with the call
    identifier of its key, this is so after any run of events; it holds
    from the moment a connection is accepted into an empty registry. *)
Theorem registry_files_sessions_by_call (evs : list (Z * Event)) (s : State) :
  registry_ok s -> registry_ok (run evs s).
Proof.
  intros H k r E. destruct (Moves_run evs s) as [S _ _ R].
  destruct (R k r E) as [E0|G]; [|exact G].
  destruct (H k r E0) as (cs & E1 & K). destruct (S r cs E1) as (cs' & E2 & G).
  exists cs'. split; [exact E2|]. destruct G as [G _]. congruence.
Qed.

(** X17, at a connection that carries two start events. *)
Lemma registry_files_sessions_by_call_witness :
  registry_ok (accept 5000 7 demo_conn ∅ ∅ [] svc0)
  /\ registry_ok (run [(5010, EvMessage (InStart "MZ1" "CA1") true);
                       (6000, EvTranscript "hello" true None);
                       (6100, EvMessage (InStart "MZ2" "CA2") true)]%Z
                    (accept 5000 7 demo_conn ∅ ∅ [] svc0)).
Proof.
  assert (H : registry_ok (accept 5000 7 demo_conn ∅ ∅ [] svc0)).
  { intros k r E. cbn in E. rewrite lookup_empty in E. discriminate. }
  split; [exact H|].
  exact (registry_files_sessions_by_call _ _ H).
Defined.

(** X16, at a call whose socket was closed before more audio arrives. *)
Lemma audio_needs_a_speech_connection_witness :
  deepgramConnection (cl (step 6500 EvClose started)) = None
  /\ exists es,
       trace (lp (run [(7000, EvMessage (InMedia "AAAA") false)]%Z (step 6500 EvClose started)))
       = trace (lp (step 6500 EvClose started)) ++ es
       /\ (Forall (fun x => is_deepgram_open x = false) es ->
           Forall (fun x => is_deepgram_audio x = false) es
           /\ deepgramConnection
                (cl (run [(7000, EvMessage (InMedia "AAAA") false)]%Z
                       (step 6500 EvClose started))) = None).
Proof.
  assert (D : deepgramConnection (cl (step 6500 EvClose started)) = None) by reflexivity.
  split; [exact D|].
  exact (audio_needs_a_speech_connection
           [(7000, EvMessage (InMedia "AAAA") false)]%Z (step 6500 EvClose started) D).
Defined.

End FrameProperties.

(** ** Every orchestration comes to an end *)

Section ProgressProperties.
Import Progress.

Lemma nearer_trans a b c : nearer a b -> nearer b c -> nearer a c.
Proof.
  unfold nearer, above. destruct (remaining a), (remaining b), (remaining c); try tauto; lia.
Qed.

Lemma nearer_irrefl a : ~ nearer a a.
Proof. unfold nearer, above. destruct (remaining a); [lia|tauto]. Qed.

Lemma nearer_wf : well_founded nearer.
Proof.
  assert (Known : forall n ph, remaining ph = Some n -> Acc nearer ph).
  { induction n as [n IH] using lt_wf_ind. intros ph E. constructor. intros ph' H.
    unfold nearer, above in H. destruct (remaining ph') as [m|] eqn:E'; [|tauto].
    rewrite E in H. eapply IH; eauto. }
  intros ph. destruct (remaining ph) as [n|] eqn:E; [eauto|].
  constructor. intros ph' H. unfold nearer in H.
  destruct (remaining ph') as [m|] eqn:E'; [eauto|tauto].
Qed.

Lemma Advances_refl s : Advances s s.
Proof. split; [lia|]. intros id _. destruct (phase_of id s); auto. Qed.

Lemma Advances_trans s1 s2 s3 : Advances s1 s2 -> Advances s2 s3 -> Advances s1 s3.
Proof.
  intros [N1 A1] [N2 A2]. split; [lia|]. intros id H.
  specialize (A1 id H). specialize (A2 id ltac:(lia)).
  destruct (phase_of id s3) as [p3|]; [|exact I].
  destruct (phase_of id s2) as [p2|]; [|tauto].
  destruct (phase_of id s1) as [p1|]; [|tauto].
  destruct A1 as [->|A1], A2 as [->|A2]; auto. right. eapply nearer_trans; eauto.
Qed.

(** A step that leaves the tasks alone. *)
Lemma Advances_same s s' :
  tasks (lp s') = tasks (lp s) -> next_id (lp s) <= next_id (lp s') -> Advances s s'.
Proof.
  intros E N. split; [exact N|]. intros id _. unfold phase_of. rewrite E.
  destruct (assoc_get id (tasks (lp s))); auto.
Qed.

Lemma Advances_set_phase id ph' s :
  (forall ph, phase_of id s = Some ph -> ph' = ph \/ nearer ph' ph) ->
  Advances s (set_phase id ph' s).
Proof.
  intros H. split; [cbn; lia|]. intros id0 _. unfold phase_of in *.
  rewrite tasks_set_phase, assoc_get_set.
  destruct (Nat.eqb_spec id0 id) as [->|Hne].
  - destruct (assoc_get id (tasks (lp s))) as [ph|]; [apply H; reflexivity|exact I].
  - destruct (assoc_get id0 (tasks (lp s))); auto.
Qed.

Lemma Advances_drop id s : Advances s (drop_task id s).
Proof.
  split; [cbn; lia|]. intros id0 _. unfold phase_of.
  rewrite tasks_drop_task, assoc_get_del.
  destruct (id0 =? id); [exact I|]. destruct (assoc_get id0 (tasks (lp s))); auto.
Qed.

Lemma Advances_spawn ph s : Advances s (snd (spawn ph s)).
Proof.
  split; [rewrite next_id_spawn; lia|]. intros id H. unfold phase_of.
  rewrite tasks_spawn, assoc_get_app.
  destruct (assoc_get id (tasks (lp s))) as [p|]; [auto|].
  cbn. destruct (Nat.eqb_spec (next_id (lp s)) id); [lia|exact I].
Qed.

(** Reduces the layers that do not touch the tasks. *)
Ltac adv :=
  repeat first
    [ assumption
    | apply Advances_refl
    | match goal with
      | |- Advances ?s (log ?es ?x) =>
          apply (Advances_trans s x); [|apply Advances_same; [reflexivity|cbn; lia]]
      | |- Advances ?s (upd_cl ?f ?x) =>
          apply (Advances_trans s x); [|apply Advances_same; [reflexivity|cbn; lia]]
      | |- Advances ?s (upd_world ?f ?x) =>
          apply (Advances_trans s x); [|apply Advances_same; [reflexivity|cbn; lia]]
      | |- Advances ?s (upd_session ?f ?x) =>
          apply (Advances_trans s x);
          [|apply Advances_same; [now rewrite lp_upd_session|rewrite lp_upd_session; lia]]
      | |- Advances ?s (add_ack ?id ?pa ?x) =>
          apply (Advances_trans s x); [|apply Advances_same; [reflexivity|cbn; lia]]
      | |- Advances ?s (set_ack ?id ?pa ?x) =>
          apply (Advances_trans s x); [|apply Advances_same; [reflexivity|cbn; lia]]
      | |- Advances ?s (fst (send_audio ?n ?a ?m ?x)) =>
          apply (Advances_trans s x); [|apply Advances_same; [reflexivity|cbn; lia]]
      | |- Advances ?s (drop_task ?id ?x) =>
          apply (Advances_trans s x); [|apply Advances_drop]
      end ].

Lemma Advances_finish id s : Advances s (finish id s).
Proof. unfold finish. adv. Qed.

Lemma Advances_fallback id s :
  (forall ph, phase_of id s = Some ph -> above 1 ph) -> Advances s (fallback id s).
Proof.
  intros H. unfold fallback. adv. apply Advances_set_phase.
  intros ph E. right. apply (H ph E).
Qed.

Lemma Advances_after_tools now id um rs s :
  (forall ph, phase_of id s = Some ph -> above 3 ph) ->
  Advances s (after_tools now id um rs s).
Proof.
  intros H. unfold after_tools. destruct rs; [apply Advances_finish|].
  destruct (generateResponse_begin _ _ _ _) as [h ai']. adv.
  eapply Advances_trans; [|apply Advances_set_phase].
  - adv.
  - intros ph E. right. apply (H ph E).
Qed.

Lemma Advances_next_tool now id um rest rs s :
  (forall ph, phase_of id s = Some ph -> above (3 + length rest) ph) ->
  Advances s (next_tool now id um rest rs s).
Proof.
  intros H. unfold next_tool. destruct rest as [|tc rest].
  - apply Advances_after_tools. exact H.
  - adv. apply Advances_set_phase. intros ph E. right. apply (H ph E).
Qed.

Lemma Advances_resume now id s : Advances s (resume now id s).
Proof.
  unfold resume. destruct (phase_of id s) as [[]|] eqn:E; try apply Advances_refl.
  apply Advances_next_tool. intros ph H. rewrite E in H. injection H as <-.
  unfold above. cbn. lia.
Qed.

Lemma Advances_ack_react now id f s : Advances s (ack_react now id f s).
Proof.
  unfold ack_react. destruct (assoc_get id (acks (lp s))) as [pa|]; [|apply Advances_refl].
  destruct (f pa) as [pa' es].
  assert (H : Advances s (log (map (EffAck id) es) (set_ack id pa' s))) by adv.
  destruct (existsb Ack.settles es); [|exact H].
  eapply Advances_trans; [exact H|apply Advances_resume].
Qed.

Lemma Advances_mark_handlers now m s : Advances s (mark_handlers now m s).
Proof.
  unfold mark_handlers. generalize (acks (lp s)) as l. intros l.
  assert (G : forall s0, Advances s s0 ->
            Advances s (fold_left (fun st p => ack_react now (fst p) (Ack.on_message m) st) l s0)).
  { induction l as [|p l IH]; intros s0 H; cbn [fold_left]; [exact H|].
    apply IH. eapply Advances_trans; [exact H|apply Advances_ack_react]. }
  apply G, Advances_refl.
Qed.

Lemma Advances_processConversation um s : Advances s (snd (processConversation um s)).
Proof.
  unfold processConversation.
  destruct (callSession (cl (log [EffProcess um] s))); [|cbn [snd]; adv].
  destruct (JS.truthy _); [|cbn [snd]; adv].
  destruct (generateResponseWithTools_begin _ _) as [h ai'].
  destruct (spawn _ _) as [id s1] eqn:E. cbn [snd].
  assert (E1 : s1 = snd (spawn (AwaitAI um (current_callSid (log [EffProcess um] s)) h)
                       (upd_world (set_ai ai') (log [EffProcess um] s)))) by now rewrite E.
  subst s1. adv. eapply Advances_trans; [|apply Advances_spawn]. adv.
Qed.

Lemma Resumed_then id s s1 s2 :
  id < next_id (lp s) -> Resumed id s s1 -> Advances s1 s2 -> Resumed id s s2.
Proof.
  intros L [A1 M1] A2. split; [eapply Advances_trans; eauto|].
  destruct A1 as [N1 _]. destruct A2 as [_ A2]. specialize (A2 id ltac:(lia)).
  destruct (phase_of id s2) as [p2|]; [|exact I].
  destruct (phase_of id s1) as [p1|]; [|tauto].
  intros ph E. specialize (M1 ph E). destruct A2 as [->|A2]; [exact M1|].
  eapply nearer_trans; eauto.
Qed.

Lemma after_Advances id s s1 s2 :
  id < next_id (lp s) -> Advances s s1 -> Resumed id s1 s2 -> Resumed id s s2.
Proof.
  intros L A1 [A2 M2]. split; [eapply Advances_trans; eauto|].
  destruct A1 as [N1 A1]. specialize (A1 id L).
  destruct A2 as [_ A2]. specialize (A2 id ltac:(lia)).
  destruct (phase_of id s2) as [p2|]; [|exact I].
  intros ph E. rewrite E in A1.
  destruct (phase_of id s1) as [p1|] eqn:E1; [|tauto].
  specialize (M2 p1 eq_refl). destruct A1 as [->|A1]; [exact M2|].
  eapply nearer_trans; eauto.
Qed.

Lemma Resumed_set_phase id ph' s :
  (forall ph, phase_of id s = Some ph -> nearer ph' ph) ->
  Resumed id s (set_phase id ph' s).
Proof.
  intros H. split; [apply Advances_set_phase; auto|].
  unfold phase_of in *. rewrite tasks_set_phase, assoc_get_set, Nat.eqb_refl.
  destruct (assoc_get id (tasks (lp s))) as [ph|]; [|exact I].
  intros ph0 [= <-]. apply H. reflexivity.
Qed.

Lemma Resumed_drop id s : Resumed id s (drop_task id s).
Proof.
  split; [apply Advances_drop|]. unfold phase_of.
  rewrite tasks_drop_task, assoc_get_del, Nat.eqb_refl. exact I.
Qed.

(** Peels the layers around a resumption that do not touch the tasks. *)
Ltac res L :=
  repeat match goal with
    | |- Resumed ?id ?s (log ?es ?x) =>
        apply (Resumed_then id s x); [exact L| |apply Advances_same; [reflexivity|cbn; lia]]
    | |- Resumed ?id ?s (upd_cl ?f ?x) =>
        apply (Resumed_then id s x); [exact L| |apply Advances_same; [reflexivity|cbn; lia]]
    | |- Resumed ?id ?s (upd_world ?f ?x) =>
        apply (Resumed_then id s x); [exact L| |apply Advances_same; [reflexivity|cbn; lia]]
    | |- Resumed ?id ?s (fst (send_audio ?n ?a ?m ?x)) =>
        apply (Resumed_then id s x); [exact L| |apply Advances_same; [reflexivity|cbn; lia]]
    end.

Lemma Resumed_finish id s : id < next_id (lp s) -> Resumed id s (finish id s).
Proof. intros L. unfold finish. res L. apply Resumed_drop. Qed.

Lemma Resumed_fallback id s :
  id < next_id (lp s) ->
  (forall ph, phase_of id s = Some ph -> above 1 ph) -> Resumed id s (fallback id s).
Proof.
  intros L H. unfold fallback. res L. apply Resumed_set_phase. intros ph E. apply (H ph E).
Qed.

Lemma Resumed_after_tools now id um rs s :
  id < next_id (lp s) ->
  (forall ph, phase_of id s = Some ph -> above 3 ph) ->
  Resumed id s (after_tools now id um rs s).
Proof.
  intros L H. unfold after_tools. destruct rs; [apply Resumed_finish; exact L|].
  destruct (generateResponse_begin _ _ _ _) as [h ai']. res L.
  eapply after_Advances; [exact L| |apply Resumed_set_phase].
  - adv.
  - intros ph E. apply (H ph E).
Qed.

Lemma Resumed_next_tool now id um rest rs s :
  id < next_id (lp s) ->
  (forall ph, phase_of id s = Some ph -> above (3 + length rest) ph) ->
  Resumed id s (next_tool now id um rest rs s).
Proof.
  intros L H. unfold next_tool. destruct rest as [|tc rest].
  - apply Resumed_after_tools; assumption.
  - res L. apply Resumed_set_phase. intros ph E. apply (H ph E).
Qed.

Lemma Resumed_on_ai_reply now id um callId h out parsed s :
  id < next_id (lp s) ->
  phase_of id s = Some (AwaitAI um callId h) ->
  Resumed id s (on_ai_reply now id um callId h out parsed s).
Proof.
  intros L P. unfold on_ai_reply.
  destruct (generateResponseWithTools_end _ _ _ _ _ _) as [res ai'].
  assert (F : Resumed id s (fallback id (upd_world (set_ai ai') s))).
  { apply (after_Advances id s (upd_world (set_ai ai') s)); [exact L|adv|].
    apply Resumed_fallback; [exact L|].
    intros ph E. change (phase_of id s = Some ph) in E. rewrite P in E.
    injection E as <-. exact I. }
  destruct res as [r|]; [|exact F].
  destruct (text r) as [txt|]; [|exact F].
  res L. eapply after_Advances; [exact L| |apply Resumed_set_phase].
  - adv.
  - intros ph E. autorewrite with st in E. rewrite P in E. injection E as <-. exact I.
Qed.

Lemma Resumed_plain_audio now id audio s :
  id < next_id (lp s) ->
  (forall ph, phase_of id s = Some ph -> above 1 ph) ->
  Resumed id s (let '(s1, failed) := send_audio now audio None s in
                if failed then fallback id s1 else finish id s1).
Proof.
  intros L H. destruct (send_audio now audio None s) as [s1 failed] eqn:E.
  assert (E1 : s1 = fst (send_audio now audio None s)) by now rewrite E.
  subst s1. clear E.
  apply (after_Advances id s (fst (send_audio now audio None s)));
    [exact L|apply Advances_same; [reflexivity|cbn; lia]|].
  destruct failed; [apply Resumed_fallback|apply Resumed_finish]; auto.
Qed.

Lemma Resumed_on_initial_audio now id um calls audio s :
  id < next_id (lp s) ->
  phase_of id s = Some (AwaitTTS um calls) ->
  Resumed id s (on_initial_audio now id um calls audio s).
Proof.
  intros L P. unfold on_initial_audio.
  assert (Plain : Resumed id s (let '(s1, failed) := send_audio now audio None s in
                                if failed then fallback id s1 else finish id s1)).
  { apply Resumed_plain_audio; [exact L|]. intros ph E. rewrite P in E. injection E as <-.
    unfold above. cbn. lia. }
  destruct calls as [[|tc more]|]; try exact Plain.
  clear Plain. cbv zeta.
  destruct (send_audio _ _ _ _) as [s2 failed] eqn:E.
  assert (M : Resumed id s s2).
  { replace s2 with (fst (send_audio now audio (Some (Ack.markName (Ack.create now)))
                            (set_phase id (AwaitAck um (tc :: more))
                               (add_ack id (Ack.create now) s)))) by now rewrite E.
    res L. eapply after_Advances; [exact L| |apply Resumed_set_phase].
    - adv.
    - intros ph E0. autorewrite with st in E0.
      change (phase_of id s = Some ph) in E0. rewrite P in E0. injection E0 as <-.
      unfold nearer, above. cbn. lia. }
  destruct failed; [|exact M].
  eapply Resumed_then; [exact L|exact M|apply Advances_ack_react].
Qed.

Lemma Resumed_on_followup_reply now id callId h out s :
  id < next_id (lp s) ->
  phase_of id s = Some (AwaitFollowUpAI callId h) ->
  Resumed id s (on_followup_reply now id callId h out s).
Proof.
  intros L P. unfold on_followup_reply.
  destruct (generateResponse_end _ _ _ _ _) as [res ai'].
  destruct res as [txt|].
  - res L. eapply after_Advances; [exact L| |apply Resumed_set_phase].
    + adv.
    + intros ph E. autorewrite with st in E. rewrite P in E. injection E as <-.
      unfold nearer, above. cbn. lia.
  - eapply after_Advances; [exact L| |apply Resumed_fallback].
    + adv.
    + exact L.
    + intros ph E. autorewrite with st in E. rewrite P in E. injection E as <-.
      unfold above. cbn. lia.
Qed.

Lemma Resumed_on_tts now id audio s ph :
  id < next_id (lp s) ->
  phase_of id s = Some ph ->
  completes (EvTTS id audio) id ph = true ->
  Resumed id s (on_tts now id audio s).
Proof.
  intros L P C. unfold on_tts. rewrite P.
  destruct ph; try discriminate C.
  - destruct audio; [apply Resumed_on_initial_audio; assumption|].
    apply Resumed_fallback; [exact L|]. intros ph E. rewrite P in E. injection E as <-.
    unfold above. cbn. lia.
  - assert (A : forall ph, phase_of id s = Some ph -> above 1 ph).
    { intros ph E. rewrite P in E. injection E as <-. unfold above. cbn. lia. }
    destruct audio as [a|]; [|apply Resumed_fallback; assumption].
    apply Resumed_plain_audio; assumption.
  - destruct audio as [a|]; [|apply Resumed_finish; exact L].
    apply (after_Advances id s (fst (send_audio now a None s)));
      [exact L|apply Advances_same; [reflexivity|cbn; lia]|].
    apply Resumed_finish. exact L.
  - destruct audio as [a|]; [|apply Resumed_drop].
    apply (after_Advances id s (fst (send_audio now a None s)));
      [exact L|apply Advances_same; [reflexivity|cbn; lia]|].
    apply Resumed_drop.
Qed.

Lemma Resumed_on_tool now id result s um tc rest rs :
  id < next_id (lp s) ->
  phase_of id s = Some (AwaitTool um tc rest rs) ->
  Resumed id s (on_tool now id result s).
Proof.
  intros L P. unfold on_tool. rewrite P.
  destruct (_ && _); [apply Resumed_finish; exact L|].
  apply Resumed_next_tool; [exact L|]. intros ph E. rewrite P in E. injection E as <-.
  unfold above. cbn. lia.
Qed.

Lemma fresh_phase s id ph : Inv s -> phase_of id s = Some ph -> id < next_id (lp s).
Proof. intros H E. apply (inv_fresh_tasks s H). eapply assoc_get_fst; eauto. Qed.

Lemma Advances_onTranscript now txt isFinal confidence s :
  Advances s (onTranscript now txt isFinal confidence s).
Proof.
  unfold onTranscript. destruct (_ && _); [|apply Advances_refl].
  apply Advances_same; [|cbn; rewrite lp_upd_session; lia].
  cbn. rewrite lp_upd_session. reflexivity.
Qed.

Lemma Advances_quiet_callback now s : Advances s (quiet_callback now s).
Proof.
  unfold quiet_callback. destruct (_ && _); [|apply Advances_refl].
  pose proof (Advances_processConversation (JS.trim (conversationBuffer (cl s))) s) as M.
  destruct (processConversation _ s) as [[id|] s1]; cbn [snd] in M; [exact M|].
  adv.
Qed.

Lemma Advances_cleanup s : Advances s (cleanup s).
Proof. rewrite cleanup_eq. apply Advances_same; [reflexivity|cbn; lia]. Qed.

Lemma Advances_handleCallStop now sid s : Advances s (handleCallStop now sid s).
Proof.
  unfold handleCallStop. eapply Advances_trans; [|apply Advances_cleanup].
  destruct (callSession (cl s)); adv.
Qed.

Lemma Advances_handleMediaData payload s : Advances s (handleMediaData payload s).
Proof.
  unfold handleMediaData. destruct (JS.truthy _); [|apply Advances_refl].
  destruct (deepgramConnection (cl s)); adv.
Qed.

Lemma Advances_handleCallStart now ssid sid ok s : Advances s (handleCallStart now ssid sid ok s).
Proof.
  unfold handleCallStart. apply Advances_same.
  - destruct ok, (connectionTimeout _); reflexivity.
  - destruct ok, (connectionTimeout _); cbn; lia.
Qed.

Lemma Advances_on_message now m ok s : Advances s (on_message now m ok s).
Proof.
  destruct m; cbn [on_message]; try apply Advances_refl.
  - apply Advances_handleCallStart.
  - apply Advances_handleMediaData.
  - apply Advances_handleCallStop.
Qed.

Lemma Advances_step now e s : Inv s -> Advances s (step now e s).
Proof.
  intros H. destruct e; cbn [step].
  - eapply Advances_trans; [apply Advances_on_message|apply Advances_mark_handlers].
  - eapply Advances_trans; [|apply Advances_cleanup]. adv.
  - apply Advances_cleanup.
  - destruct (connectionTimeout (cl s)); [|apply Advances_refl].
    eapply Advances_trans; [apply Advances_cleanup|]. adv.
  - destruct (transcriptHandlers (lp s)); [apply Advances_onTranscript|apply Advances_refl].
  - destruct (quietTimers (lp s)) as [|d later]; [apply Advances_refl|].
    eapply Advances_trans; [|apply Advances_quiet_callback].
    apply Advances_same; [reflexivity|cbn; lia].
  - destruct (greetingTimers (lp s)) as [|n]; [apply Advances_refl|].
    destruct (spawn _ _) as [id s1] eqn:E.
    assert (E1 : s1 = snd (spawn AwaitGreetingTTS (upd_lp (set_greetingTimers n) s)))
      by now rewrite E.
    subst s1. adv. eapply Advances_trans; [|apply Advances_spawn].
    apply Advances_same; [reflexivity|cbn; lia].
  - destruct (phase_of id s) as [[]|] eqn:P; try apply Advances_refl.
    + apply Resumed_on_ai_reply; [eapply fresh_phase; eauto|exact P].
    + apply Resumed_on_followup_reply; [eapply fresh_phase; eauto|exact P].
  - destruct (phase_of id s) as [ph|] eqn:P.
    + destruct (completes (EvTTS id audio) id ph) eqn:C.
      * eapply Resumed_on_tts; eauto. eapply fresh_phase; eauto.
      * unfold on_tts. rewrite P. destruct ph; cbn in C; rewrite ?Nat.eqb_refl in C;
          try discriminate C; apply Advances_refl.
    + unfold on_tts. rewrite P. apply Advances_refl.
  - destruct (phase_of id s) as [[]|] eqn:P;
      try (unfold on_tool; rewrite P; apply Advances_refl).
    eapply Resumed_on_tool; eauto. eapply fresh_phase; eauto.
  - apply Advances_ack_react.
Qed.

Lemma Resumed_step now e s id ph :
  Inv s -> phase_of id s = Some ph -> completes e id ph = true ->
  Resumed id s (step now e s).
Proof.
  intros H P C. pose proof (fresh_phase s id ph H P) as L.
  destruct e; try discriminate C; cbn [step].
  - destruct ph; try discriminate C; cbn in C; apply Nat.eqb_eq in C; subst id0; rewrite P.
    + apply Resumed_on_ai_reply; assumption.
    + apply Resumed_on_followup_reply; assumption.
  - assert (id0 = id) as ->.
    { destruct ph; try discriminate C; cbn in C; now apply Nat.eqb_eq in C. }
    eapply Resumed_on_tts; eauto.
  - destruct ph; try discriminate C. cbn in C. apply Nat.eqb_eq in C. subst id0.
    eapply Resumed_on_tool; eauto.
Qed.

Lemma completions_bound id evs : forall n s,
  Inv s -> id < next_id (lp s) -> within id n s -> completions id evs s <= n.
Proof.
  induction evs as [|[now e] evs IH]; intros n s H L W; cbn [completions]; [lia|].
  pose proof (Advances_step now e s H) as [N A].
  pose proof (Inv_step now e s H) as H'.
  assert (L' : id < next_id (lp (step now e s))) by lia.
  specialize (A id L). unfold within in W.
  destruct (phase_of id s) as [ph|] eqn:P.
  - destruct (remaining ph) as [m|] eqn:R; [|tauto].
    destruct (completes e id ph) eqn:C.
    + destruct (Resumed_step now e s id ph H P C) as [_ M].
      assert (W' : 0 < n /\ within id (n - 1) (step now e s)).
      { unfold within. destruct (phase_of id (step now e s)) as [ph'|].
        - specialize (M ph P). unfold nearer, above in M.
          destruct (remaining ph') as [m'|]; [|tauto]. rewrite R in M. lia.
        - clear A M. split; [|exact I]. destruct ph; cbn in R; try discriminate R;
            injection R as <-; lia. }
      destruct W' as [Hn W']. specialize (IH (n - 1) _ H' L' W'). lia.
    + apply (IH n _ H' L'). unfold within.
      destruct (phase_of id (step now e s)) as [ph'|]; [|exact I].
      destruct A as [->|A]; [rewrite R; exact W|].
      unfold nearer, above in A. destruct (remaining ph') as [m'|]; [|tauto].
      rewrite R in A. lia.
  - apply (IH n _ H' L'). unfold within.
    destruct (phase_of id (step now e s)); [tauto|exact I].
Qed.

(** X20.  Every orchestration comes to an end.  In a reachable state,
    an event leaves a task where it is, or moves it strictly nearer its
    end, or ends it; the completion a task awaits always moves it.  Once
    the reply is known, a task with [n] tool calls still to run is
    resumed by at most [n + 6] completions, whatever events arrive. *)
Theorem orchestration_is_resumed_boundedly (now0 : Z) (handle : nat) (conn : Connection)
    (calls conns : gmap string nat) (objs : list CallSession) (svc : Service)
    (before after : list (Z * Event)) (id : nat) (ph : Phase) :
  let s := run before (accept now0 handle conn calls conns objs svc) in
  phase_of id s = Some ph ->
  (forall now e,
     match phase_of id (step now e s) with
     | None => True
     | Some ph' => (ph' = ph /\ completes e id ph = false) \/ nearer ph' ph
     end)
  /\ (forall n, remaining ph = Some n -> completions id after s <= n)
  /\ well_founded nearer.
Proof.
  intros s P.
  assert (H : Inv s) by (apply Inv_run, Inv_accept).
  pose proof (fresh_phase s id ph H P) as L.
  split; [|split; [|exact nearer_wf]].
  - intros now e. destruct (completes e id ph) eqn:C.
    + destruct (Resumed_step now e s id ph H P C) as [_ M].
      destruct (phase_of id (step now e s)); [right; apply M; exact P|exact I].
    + destruct (Advances_step now e s H) as [_ A]. specialize (A id L).
      destruct (phase_of id (step now e s)); [|exact I].
      rewrite P in A. destruct A as [->|A]; auto.
  - intros n R. apply completions_bound; [exact H|exact L|].
    unfold within. rewrite P, R. lia.
Qed.

(** X20, at a call about to hang up and then to transfer. *)
Lemma orchestration_is_resumed_boundedly_witness :
  phase_of 1 (run (until_tool two_tools_reply) (accept 5000 7 demo_conn ∅ ∅ [] svc0))
    = Some (AwaitTool "goodbye" hang_up [transfer] [])
  /\ (forall n, remaining (AwaitTool "goodbye" hang_up [transfer] []) = Some n ->
        completions 1
          [(8000, EvTool 1 {| success := false; message := "Failed to end call: x" |});
           (8100, EvTool 1 {| success := true; message := "Call transferred" |});
           (8200, EvAI 1 (ChatContent "Done") NotJSON);
           (8300, EvTTS 1 (Some [x01]));
           (8400, EvTTS 1 (Some [x01]))]%Z
          (run (until_tool two_tools_reply) (accept 5000 7 demo_conn ∅ ∅ [] svc0)) <= n).
Proof.
  assert (P : phase_of 1 (run (until_tool two_tools_reply) (accept 5000 7 demo_conn ∅ ∅ [] svc0))
              = Some (AwaitTool "goodbye" hang_up [transfer] [])) by (vm_compute; reflexivity).
  split; [exact P|].
  exact (proj1 (proj2 (orchestration_is_resumed_boundedly 5000 7 demo_conn ∅ ∅ [] svc0
                         (until_tool two_tools_reply) _ 1 _ P))).
Defined.

Example four_completions_end_the_call :
  completions 1
    [(8000, EvTool 1 {| success := false; message := "Failed to end call: x" |});
     (8100, EvTool 1 {| success := true; message := "Call transferred" |});
     (8200, EvAI 1 (ChatContent "Done") NotJSON);
     (8300, EvTTS 1 (Some [x01]));
     (8400, EvTTS 1 (Some [x01]))]%Z
    (run (until_tool two_tools_reply) (accept 5000 7 demo_conn ∅ ∅ [] svc0)) = 4.
Proof. vm_compute. reflexivity. Qed.

End ProgressProperties.

(** ** What is left in the buffer when a reply is over *)

Section DrainProperties.
Import Drain.

Lemma Drains_refl s : Drains s s.
Proof. constructor; [congruence|auto|auto]. Qed.

Lemma Drains_trans s1 s2 s3 : Drains s1 s2 -> Drains s2 s3 -> Drains s1 s3.
Proof.
  intros [E1 P1 B1] [E2 P2 B2]. constructor.
  - intros id ph H U N. destruct (phase_of id s2) as [p2|] eqn:H2.
    + apply (E2 id p2); [exact H2| |exact N].
      destruct (P1 id p2 H2) as [U2|Same]; [exact U2|].
      rewrite H in Same. injection Same as <-. exact U.
    + apply B2. apply (E1 id ph); assumption.
  - intros id ph' H. destruct (P2 id ph' H) as [U|Same]; [left; exact U|].
    apply (P1 id ph' Same).
  - auto.
Qed.

(** A step that leaves the tasks alone and does not fill the buffer. *)
Lemma Drains_same s s' :
  tasks (lp s') = tasks (lp s) ->
  (conversationBuffer (cl s) = "" -> conversationBuffer (cl s') = "") ->
  Drains s s'.
Proof.
  intros T B. constructor.
  - intros id ph H _. unfold phase_of in *. rewrite T, H. discriminate.
  - intros id ph' H. right. unfold phase_of in *. rewrite <- T. exact H.
  - exact B.
Qed.

Lemma Drains_set_phase id ph' s :
  utterance ph' = true -> Drains s (set_phase id ph' s).
Proof.
  intros U. constructor.
  - intros id0 ph H _. unfold phase_of in *. rewrite tasks_set_phase, assoc_get_set.
    destruct (Nat.eqb_spec id0 id) as [->|Hne]; rewrite H; discriminate.
  - intros id0 p. unfold phase_of. rewrite tasks_set_phase, assoc_get_set.
    destruct (id0 =? id); [|auto].
    destruct (assoc_get id (tasks (lp s))); [|discriminate].
    intros [= <-]. left. exact U.
  - auto.
Qed.

Lemma Drains_drop id s :
  (forall ph, phase_of id s = Some ph -> utterance ph = false) ->
  Drains s (drop_task id s).
Proof.
  intros G. constructor.
  - intros id0 ph H U. unfold phase_of in *. rewrite tasks_drop_task, assoc_get_del.
    destruct (Nat.eqb_spec id0 id) as [->|Hne]; [|rewrite H; discriminate].
    rewrite (G ph H) in U. discriminate U.
  - intros id0 p. unfold phase_of. rewrite tasks_drop_task, assoc_get_del.
    destruct (id0 =? id); [discriminate|auto].
  - auto.
Qed.

Lemma Drains_finish id s : Drains s (finish id s).
Proof.
  unfold finish. constructor.
  - reflexivity.
  - intros id0 p. rewrite phase_of_upd_cl. unfold phase_of.
    rewrite tasks_drop_task, assoc_get_del. destruct (id0 =? id); [discriminate|auto].
  - reflexivity.
Qed.

Lemma Drains_spawn ph s : utterance ph = true -> Drains s (snd (spawn ph s)).
Proof.
  intros U. constructor.
  - intros id p H _. unfold phase_of in *. rewrite tasks_spawn, assoc_get_app, H. discriminate.
  - intros id p. unfold phase_of. rewrite tasks_spawn, assoc_get_app.
    destruct (assoc_get id (tasks (lp s))); [auto|].
    cbn. destruct (next_id (lp s) =? id); [|discriminate].
    intros [= <-]. left. exact U.
  - auto.
Qed.

(** Peels the layers that neither touch the tasks nor fill the buffer. *)
Ltac drains :=
  repeat first
    [ assumption
    | apply Drains_refl
    | match goal with
      | |- Drains ?s (log ?es ?x) =>
          apply (Drains_trans s x); [|apply Drains_same; [reflexivity|auto]]
      | |- Drains ?s (upd_world ?f ?x) =>
          apply (Drains_trans s x); [|apply Drains_same; [reflexivity|auto]]
      | |- Drains ?s (upd_session ?f ?x) =>
          apply (Drains_trans s x);
          [|apply Drains_same; [now rewrite lp_upd_session|now rewrite cl_upd_session]]
      | |- Drains ?s (add_ack ?id ?pa ?x) =>
          apply (Drains_trans s x); [|apply Drains_same; [reflexivity|auto]]
      | |- Drains ?s (set_ack ?id ?pa ?x) =>
          apply (Drains_trans s x); [|apply Drains_same; [reflexivity|auto]]
      | |- Drains ?s (fst (send_audio ?n ?a ?m ?x)) =>
          apply (Drains_trans s x); [|apply Drains_same; [reflexivity|auto]]
      | |- Drains ?s (set_phase ?id ?ph ?x) =>
          apply (Drains_trans s x); [|apply Drains_set_phase; reflexivity]
      | |- Drains ?s (finish ?id ?x) =>
          apply (Drains_trans s x); [|apply Drains_finish]
      end ].

Lemma Drains_fallback id s : Drains s (fallback id s).
Proof. unfold fallback. drains. Qed.

Lemma Drains_after_tools now id um rs s : Drains s (after_tools now id um rs s).
Proof.
  unfold after_tools. destruct rs; [apply Drains_finish|].
  destruct (generateResponse_begin _ _ _ _) as [h ai']. drains.
Qed.

Lemma Drains_next_tool now id um rest rs s : Drains s (next_tool now id um rest rs s).
Proof.
  unfold next_tool. destruct rest; [apply Drains_after_tools|drains].
Qed.

Lemma Drains_resume now id s : Drains s (resume now id s).
Proof.
  unfold resume. destruct (phase_of id s) as [[]|]; try apply Drains_refl.
  apply Drains_next_tool.
Qed.

Lemma Drains_ack_react now id f s : Drains s (ack_react now id f s).
Proof.
  unfold ack_react. destruct (assoc_get id (acks (lp s))) as [pa|]; [|apply Drains_refl].
  destruct (f pa) as [pa' es].
  assert (H : Drains s (log (map (EffAck id) es) (set_ack id pa' s))) by drains.
  destruct (existsb Ack.settles es); [|exact H].
  eapply Drains_trans; [exact H|apply Drains_resume].
Qed.

Lemma Drains_mark_handlers now m s : Drains s (mark_handlers now m s).
Proof.
  unfold mark_handlers. generalize (acks (lp s)) as l. intros l.
  assert (G : forall s0, Drains s s0 ->
            Drains s (fold_left (fun st p => ack_react now (fst p) (Ack.on_message m) st) l s0)).
  { induction l as [|p l IH]; intros s0 H; cbn [fold_left]; [exact H|].
    apply IH. eapply Drains_trans; [exact H|apply Drains_ack_react]. }
  apply G, Drains_refl.
Qed.

Lemma Drains_processConversation um s : Drains s (snd (processConversation um s)).
Proof.
  unfold processConversation.
  destruct (callSession (cl (log [EffProcess um] s))); [|cbn [snd]; drains].
  destruct (JS.truthy _); [|cbn [snd]; drains].
  destruct (generateResponseWithTools_begin _ _) as [h ai'].
  destruct (spawn _ _) as [id s1] eqn:E. cbn [snd].
  assert (E1 : s1 = snd (spawn (AwaitAI um (current_callSid (log [EffProcess um] s)) h)
                       (upd_world (set_ai ai') (log [EffProcess um] s)))) by now rewrite E.
  subst s1. drains. eapply Drains_trans; [|apply Drains_spawn; reflexivity]. drains.
Qed.

Lemma Drains_on_ai_reply now id um callId h out parsed s :
  Drains s (on_ai_reply now id um callId h out parsed s).
Proof.
  unfold on_ai_reply.
  destruct (generateResponseWithTools_end _ _ _ _ _ _) as [res ai'].
  assert (F : Drains s (fallback id (upd_world (set_ai ai') s))).
  { eapply Drains_trans; [|apply Drains_fallback]. drains. }
  destruct res as [r|]; [|exact F].
  destruct (text r) as [txt|]; [|exact F].
  drains.
Qed.

Lemma Drains_plain_audio now id audio s :
  Drains s (let '(s1, failed) := send_audio now audio None s in
            if failed then fallback id s1 else finish id s1).
Proof.
  destruct (send_audio now audio None s) as [s1 failed] eqn:E.
  assert (E1 : s1 = fst (send_audio now audio None s)) by now rewrite E.
  subst s1. clear E.
  destruct failed; [eapply Drains_trans; [|apply Drains_fallback]|]; drains.
Qed.

Lemma Drains_on_initial_audio now id um calls audio s :
  Drains s (on_initial_audio now id um calls audio s).
Proof.
  unfold on_initial_audio.
  pose proof (Drains_plain_audio now id audio s) as Plain.
  destruct calls as [[|tc more]|]; try exact Plain.
  clear Plain. cbv zeta.
  destruct (send_audio _ _ _ _) as [s2 failed] eqn:E.
  assert (M : Drains s s2).
  { replace s2 with (fst (send_audio now audio (Some (Ack.markName (Ack.create now)))
                            (set_phase id (AwaitAck um (tc :: more))
                               (add_ack id (Ack.create now) s)))) by now rewrite E.
    drains. }
  destruct failed; [|exact M].
  eapply Drains_trans; [exact M|apply Drains_ack_react].
Qed.

Lemma Drains_on_followup_reply now id callId h out s :
  Drains s (on_followup_reply now id callId h out s).
Proof.
  unfold on_followup_reply.
  destruct (generateResponse_end _ _ _ _ _) as [res ai'].
  destruct res as [txt|]; [drains|].
  eapply Drains_trans; [|apply Drains_fallback]. drains.
Qed.

Lemma Drains_on_tts now id audio s : Drains s (on_tts now id audio s).
Proof.
  unfold on_tts. destruct (phase_of id s) as [ph|] eqn:P; [|apply Drains_refl].
  destruct ph; try apply Drains_refl.
  - destruct audio; [apply Drains_on_initial_audio|apply Drains_fallback].
  - destruct audio; [apply Drains_plain_audio|apply Drains_fallback].
  - destruct audio; drains.
  - assert (G : forall x, phase_of id x = phase_of id s ->
                 Drains x (drop_task id x)).
    { intros x E. apply Drains_drop. intros ph H. rewrite E, P in H.
      injection H as <-. reflexivity. }
    destruct audio as [a|]; [|apply G; reflexivity].
    apply (Drains_trans s (fst (send_audio now a None s))); [drains|].
    apply G. reflexivity.
Qed.

Lemma Drains_on_tool now id result s : Drains s (on_tool now id result s).
Proof.
  unfold on_tool. destruct (phase_of id s) as [[]|]; try apply Drains_refl.
  destruct (_ && _); [apply Drains_finish|apply Drains_next_tool].
Qed.

Lemma Drains_quiet_callback now s : Drains s (quiet_callback now s).
Proof.
  unfold quiet_callback. destruct (_ && _); [|apply Drains_refl].
  pose proof (Drains_processConversation (JS.trim (conversationBuffer (cl s))) s) as M.
  destruct (processConversation _ s) as [[id|] s1]; cbn [snd] in M; [exact M|].
  eapply Drains_trans; [exact M|]. apply Drains_same; [reflexivity|auto].
Qed.

Lemma Drains_cleanup s : Drains s (cleanup s).
Proof.
  rewrite cleanup_eq. apply Drains_same; [reflexivity|].
  cbn. auto.
Qed.

Lemma Drains_handleCallStop now sid s : Drains s (handleCallStop now sid s).
Proof.
  unfold handleCallStop. eapply Drains_trans; [|apply Drains_cleanup].
  destruct (callSession (cl s)); drains.
Qed.

Lemma Drains_handleMediaData payload s : Drains s (handleMediaData payload s).
Proof.
  unfold handleMediaData. destruct (JS.truthy _); [|apply Drains_refl].
  destruct (deepgramConnection (cl s)); drains.
Qed.

Lemma Drains_handleCallStart now ssid sid ok s : Drains s (handleCallStart now ssid sid ok s).
Proof.
  unfold handleCallStart. apply Drains_same.
  - destruct ok, (connectionTimeout _); reflexivity.
  - destruct ok, (connectionTimeout _); cbn; auto.
Qed.

Lemma Drains_on_message now m ok s : Drains s (on_message now m ok s).
Proof.
  destruct m; cbn [on_message]; try apply Drains_refl.
  - apply Drains_handleCallStart.
  - apply Drains_handleMediaData.
  - apply Drains_handleCallStop.
Qed.

(** The two callbacks that are not covered: a fragment fills the buffer
    and the greeting timer starts a greeting; neither ends a task. *)
Lemma kept_onTranscript now txt isFinal confidence id s :
  phase_of id (onTranscript now txt isFinal confidence s) = phase_of id s.
Proof.
  unfold onTranscript. destruct (_ && _); [|reflexivity].
  unfold phase_of. cbn. now rewrite lp_upd_session.
Qed.

Lemma Drains_step now e s :
  (forall txt isFinal confidence, e <> EvTranscript txt isFinal confidence) ->
  e <> EvGreetingTimer ->
  Drains s (step now e s).
Proof.
  intros NT NG. destruct e; cbn [step]; try congruence.
  - eapply Drains_trans; [apply Drains_on_message|apply Drains_mark_handlers].
  - eapply Drains_trans; [|apply Drains_cleanup]. drains.
  - apply Drains_cleanup.
  - destruct (connectionTimeout (cl s)); [|apply Drains_refl].
    drains. apply Drains_cleanup.
  - destruct (quietTimers (lp s)) as [|t later]; [apply Drains_refl|].
    eapply Drains_trans; [|apply Drains_quiet_callback].
    apply Drains_same; [reflexivity|auto].
  - destruct (phase_of id s) as [[]|]; try apply Drains_refl.
    + apply Drains_on_ai_reply.
    + apply Drains_on_followup_reply.
  - apply Drains_on_tts.
  - apply Drains_on_tool.
  - apply Drains_ack_react.
Qed.

Lemma quiet_timers_on_empty_buffer ts s :
  conversationBuffer (cl s) = "" ->
  trace (lp (run (quiet_timers ts) s)) = trace (lp s)
  /\ tasks (lp (run (quiet_timers ts) s)) = tasks (lp s)
  /\ conversationBuffer (cl (run (quiet_timers ts) s)) = "".
Proof.
  revert s. induction ts as [|t ts IH]; intros s B; [auto|].
  cbn [quiet_timers map run]. cbn [step].
  assert (Q : forall x, conversationBuffer (cl x) = "" -> quiet_callback t x = x).
  { intros x E. unfold quiet_callback. rewrite E. cbn. now rewrite andb_false_r. }
  destruct (quietTimers (lp s)) as [|d later]; [apply (IH s B)|].
  rewrite Q by exact B.
  destruct (IH (upd_lp (set_quietTimers later) s) B) as (T & K & E).
  auto.
Qed.

(** X22.  When the orchestration of an utterance ends, the buffer of the
    connection is empty, whatever was appended to it while the reply was
    produced: the callback assigns the empty string after
    [processConversation] returns.  The quiet-window timers that fire
    afterwards find nothing to flush: they start no orchestration and
    call nothing. *)
Theorem finished_reply_discards_what_was_heard now e s id ph ts :
  phase_of id s = Some ph ->
  utterance ph = true ->
  phase_of id (step now e s) = None ->
  conversationBuffer (cl (step now e s)) = ""
  /\ trace (lp (run (quiet_timers ts) (step now e s))) = trace (lp (step now e s))
  /\ tasks (lp (run (quiet_timers ts) (step now e s))) = tasks (lp (step now e s)).
Proof.
  intros P U N.
  assert (B : conversationBuffer (cl (step now e s)) = "").
  { assert (D : (forall txt isFinal confidence, e <> EvTranscript txt isFinal confidence) ->
                 e <> EvGreetingTimer -> conversationBuffer (cl (step now e s)) = "").
    { intros NT NG. exact (dr_ended _ _ (Drains_step now e s NT NG) id ph P U N). }
    destruct e; try (apply D; [intros; discriminate|discriminate]); clear D.
    - cbn [step] in N. destruct (transcriptHandlers (lp s)).
      + rewrite kept_onTranscript in N. rewrite P in N. discriminate N.
      + rewrite P in N. discriminate N.
    - cbn [step] in N. destruct (greetingTimers (lp s)) as [|n];
        [rewrite P in N; discriminate N|].
      destruct (spawn _ _) as [i s1] eqn:E.
      replace s1 with (snd (spawn AwaitGreetingTTS (upd_lp (set_greetingTimers n) s))) in N
        by now rewrite E.
      rewrite phase_of_log in N. unfold phase_of in N, P.
      rewrite tasks_spawn, assoc_get_app in N. cbn in N. rewrite P in N. discriminate N. }
  split; [exact B|]. destruct (quiet_timers_on_empty_buffer ts _ B) as (T & K & _). auto.
Qed.

(** X22, at a call that hears a second fragment while the first reply
    is synthesised. *)
Lemma finished_reply_discards_what_was_heard_witness :
  phase_of 1 heard_meanwhile = Some (AwaitTTS "a table for two" None)
  /\ conversationBuffer (cl heard_meanwhile) = "a table for two tonight at eight "
  /\ conversationBuffer (cl (step 7700 (EvTTS 1 (Some [x01; x02])) heard_meanwhile)) = ""
  /\ trace (lp (run (quiet_timers [8600%Z]) (step 7700 (EvTTS 1 (Some [x01; x02])) heard_meanwhile)))
     = trace (lp (step 7700 (EvTTS 1 (Some [x01; x02])) heard_meanwhile)).
Proof.
  split; [vm_compute; reflexivity|]. split; [vm_compute; reflexivity|].
  destruct (finished_reply_discards_what_was_heard 7700 (EvTTS 1 (Some [x01; x02])) heard_meanwhile
              1 (AwaitTTS "a table for two" None) [8600%Z]) as (B & T & _);
    [vm_compute; reflexivity|reflexivity|vm_compute; reflexivity|].
  split; [exact B|exact T].
Defined.

End DrainProperties.

(** ** The acknowledgment of a mark, in isolation *)

Import Ack.

Lemma react_cases i pa :
  react i pa = (pa, [])
  \/ (exists c, react i pa =
        ({| markName := markName pa; attached := false;
            armed := match c with ByEcho => armed pa | _ => false end; settled := true |},
         match c with
         | BySendFailure => [ClearTimeout; RemoveListener; Resolve c (negb (settled pa))]
         | _ => [RemoveListener; Resolve c (negb (settled pa))]
         end)).
Proof.
  destruct i as [m| |]; cbn.
  - unfold on_message. destruct (attached pa); [|auto].
    destruct m as [| | | |[name|]| | |]; auto.
    destruct (String.eqb name (markName pa)); [right; exists ByEcho; reflexivity | auto].
  - unfold on_deadline. destruct (armed pa); [right; exists ByTimeout; reflexivity | auto].
  - right. exists BySendFailure. reflexivity.
Qed.

Lemma run_cons i inputs pa :
  run (i :: inputs) pa =
    (fst (run inputs (fst (react i pa))), snd (react i pa) ++ snd (run inputs (fst (react i pa)))).
Proof.
  cbn [run]. destruct (react i pa) as [pa1 e1]. cbn [fst snd].
  destruct (run inputs pa1). reflexivity.
Qed.

Lemma run_settles inputs : forall pa,
  settle_count (snd (run inputs pa)) = (if settled (fst (run inputs pa)) then 1 else 0) - (if settled pa then 1 else 0)
  /\ (settled pa = true -> settled (fst (run inputs pa)) = true)
  /\ Blocks (snd (run inputs pa)).
Proof.
  induction inputs as [|i inputs IH]; intros pa.
  - cbn. repeat split; [destruct (settled pa); reflexivity | auto | constructor].
  - rewrite run_cons. cbn [fst snd].
    destruct (react_cases i pa) as [E|[c E]]; rewrite E; cbn [fst snd].
    + apply IH.
    + destruct (IH {| markName := markName pa; attached := false;
                      armed := match c with ByEcho => armed pa | _ => false end;
                      settled := true |}) as (H1 & H2 & H3).
      cbn [settled] in *. specialize (H2 eq_refl). rewrite H2 in *.
      unfold settle_count in *. rewrite List.filter_app, length_app, H1.
      repeat split.
      * destruct c, (settled pa); reflexivity.
      * destruct c; cbn [app]; constructor; assumption.
Qed.

(** Once the timer has fired, or the send has failed, the promise is
    resolved. *)
Lemma run_deadline_settles inputs : forall pa,
  (armed pa = false -> settled pa = true) ->
  In Deadline inputs \/ In SendFailure inputs ->
  settled (fst (run inputs pa)) = true.
Proof.
  induction inputs as [|i inputs IH]; intros pa A H.
  - destruct H as [[]|[]].
  - rewrite run_cons. cbn [fst].
    destruct (react_cases i pa) as [E|[c E]].
    + rewrite E. cbn [fst]. destruct H as [[->|H]|[->|H]].
      * cbn in E. unfold on_deadline in E. destruct (armed pa) eqn:Ea; [discriminate E|].
        apply run_settles. auto.
      * apply IH; auto.
      * discriminate E.
      * apply IH; auto.
    + rewrite E. cbn [fst]. apply run_settles. reflexivity.
Qed.

Lemma blocks_split es :
  Blocks es ->
  forall pre c b post, es = pre ++ Resolve c b :: post -> exists pre', pre = pre' ++ [RemoveListener].
Proof.
  induction 1 as [|c0 b0 es H IH|c0 b0 es H IH]; intros pre c b post E.
  - destruct pre; discriminate.
  - destruct pre as [|x [|y pre]]; try discriminate.
    + inversion E; subst. exists []. reflexivity.
    + inversion E; subst. destruct (IH _ _ _ _ eq_refl) as [pre' ->].
      exists (RemoveListener :: Resolve c0 b0 :: pre'). reflexivity.
  - destruct pre as [|x [|y [|z pre]]]; try discriminate.
    + inversion E; subst. exists [ClearTimeout]. reflexivity.
    + inversion E; subst. destruct (IH _ _ _ _ eq_refl) as [pre' ->].
      exists (ClearTimeout :: RemoveListener :: Resolve c0 b0 :: pre'). reflexivity.
Qed.

(** C4, amended.  Whatever callbacks run on an acknowledgment, at most
    one call of [resolve()] settles it, and it is settled exactly when
    one did; once the timer has fired or the send has failed, exactly
    one has.  Every call of [resolve()] comes right after the call that
    removes the listener.  A mark message resolves an acknowledgment
    that still listens when its name matches, and changes nothing
    otherwise; the timer resolves it when it fires. *)
Theorem pending_ack_resolved_once (now : Z) (inputs : list Input) (m : Inbound) (pa : PendingAck) :
  settle_count (snd (run inputs (create now))) <= 1
  /\ settle_count (snd (run inputs (create now)))
       = (if settled (fst (run inputs (create now))) then 1 else 0)
  /\ (In Deadline inputs \/ In SendFailure inputs ->
      settle_count (snd (run inputs (create now))) = 1)
  /\ (forall pre c b post,
        snd (run inputs (create now)) = pre ++ Resolve c b :: post ->
        exists pre', pre = pre' ++ [RemoveListener])
  /\ on_message m pa =
       match m with
       | InMark (Some name) =>
           if attached pa && String.eqb name (markName pa) then
             ({| markName := markName pa; attached := false; armed := armed pa; settled := true |},
              [RemoveListener; Resolve ByEcho (negb (settled pa))])
           else (pa, [])
       | _ => (pa, [])
       end
  /\ on_deadline pa =
       (if armed pa then
          ({| markName := markName pa; attached := false; armed := false; settled := true |},
           [RemoveListener; Resolve ByTimeout (negb (settled pa))])
        else (pa, []))
  /\ run [Message (InMark (Some (markName (create now))))] (create now)
       = ({| markName := markName (create now); attached := false; armed := true; settled := true |},
          [RemoveListener; Resolve ByEcho true])
  /\ run [Deadline] (create now)
       = ({| markName := markName (create now); attached := false; armed := false; settled := true |},
          [RemoveListener; Resolve ByTimeout true]).
Proof.
  destruct (run_settles inputs (create now)) as (H1 & _ & H3).
  cbn [create settled] in H1.
  repeat split.
  - rewrite H1. destruct (settled (fst (run inputs (create now)))); cbn; lia.
  - rewrite H1. destruct (settled (fst (run inputs (create now)))); reflexivity.
  - intros H. rewrite H1, run_deadline_settles; [reflexivity|discriminate|exact H].
  - apply blocks_split. exact H3.
  - unfold on_message. destruct (attached pa); [|destruct m as [| | | |[?|]| | |]; reflexivity].
    destruct m as [| | | |[name|]| | |]; reflexivity.
  - cbn. unfold on_message. cbn. rewrite String.eqb_refl. reflexivity.
Qed.

(** C4 as stated fails: the listener is removed before [resolve()] is
    called, and after a resolution by echo the timer is still armed and
    fires. *)
Lemma pending_ack_echo_then_deadline :
  run [Message (InMark (Some "audio_7")); Deadline] (create 7)
    = ({| markName := "audio_7"; attached := false; armed := false; settled := true |},
       [RemoveListener; Resolve ByEcho true; RemoveListener; Resolve ByTimeout false])
  /\ armed (fst (on_message (InMark (Some "audio_7")) (create 7))) = true.
Proof. vm_compute. split; reflexivity. Qed.
